(** * json-autotranslate: the translation synchronisation engine

    A shallow embedding of [src/util/array-as-string.ts],
    [src/util/file-system.ts] and the [translate] function of
    [src/index.ts], followed by the properties of the engine.

    Conventions of the embedding.
    - A JavaScript object is an association list in own-property
      enumeration order ([Object.keys] order); assignment to an existing
      key keeps its position and assignment to a new key appends.  Keys
      that are canonical array indices (which JavaScript enumerates
      first) are outside the model.
    - A JSON number is carried by its JavaScript string rendering.
    - The files of a language directory hold parsed JSON objects;
      [JSON.stringify] followed by a later parse is the identity on them.
    - Node's [require] caches the parsed object per path, so two
      [require] calls on one path give the same object; the cache is part
      of the state and [arrayToString] updates the cached object. *)

From Stdlib Require Import String Ascii List Bool Arith Lia.
Import ListNotations.
Local Open Scope string_scope.
Local Open Scope list_scope.

(** ** JavaScript strings *)

Module JsString.

(** [s.includes(sub)] *)
Fixpoint includes (s sub : string) : bool :=
  if String.prefix sub s then true
  else match s with
       | EmptyString => false
       | String _ s' => includes s' sub
       end.

(** [s.endsWith(suf)] *)
Fixpoint endsWith (s suf : string) : bool :=
  if String.eqb s suf then true
  else match s with
       | EmptyString => false
       | String _ s' => endsWith s' suf
       end.

(** The pieces of [s] between the occurrences of a non-empty [sep],
    scanning from the left; [skip] counts the characters of an
    occurrence that are still to be passed over. *)
Fixpoint split_from (sep : string) (skip : nat) (s : string) : list string :=
  match s with
  | EmptyString => [EmptyString]
  | String c s' =>
      match skip with
      | S n => split_from sep n s'
      | O =>
          if String.prefix sep s
          then EmptyString :: split_from sep (String.length sep - 1) s'
          else match split_from sep 0 s' with
               | [] => [String c EmptyString]
               | piece :: pieces => String c piece :: pieces
               end
      end
  end.

(** [s.split(sep)]; with the empty separator JavaScript splits into
    characters. *)
Definition split (s sep : string) : list string :=
  match sep with
  | EmptyString => map (fun c => String c EmptyString) (list_ascii_of_string s)
  | _ => split_from sep 0 s
  end.

(** [l.join(sep)] on strings *)
Definition join (l : list string) (sep : string) : string := String.concat sep l.

(** [l.pop()] on the result of a split: the last element *)
Definition pop (l : list string) : string := last l EmptyString.

End JsString.

(** ** JSON values and JavaScript objects *)

#[local] Set Warnings "-register-all".
Inductive json : Type :=
| JNull
| JBool (b : bool)
| JNum (repr : string)
| JStr (s : string)
| JArr (items : list json)
| JObj (props : list (string * json)).

Definition obj : Type := list (string * json).

(** String-keyed maps in enumeration order: JavaScript objects, and the
    directories of the file system below. *)
Module Obj.

Section Ops.
Context {V : Type}.

Definition keys (o : list (string * V)) : list string := map fst o.

Fixpoint get (o : list (string * V)) (k : string) : option V :=
  match o with
  | [] => None
  | (k', v) :: o' => if String.eqb k k' then Some v else get o' k
  end.

Fixpoint set (o : list (string * V)) (k : string) (v : V) : list (string * V) :=
  match o with
  | [] => [(k, v)]
  | (k', v') :: o' =>
      if String.eqb k k' then (k, v) :: o' else (k', v') :: set o' k v
  end.

(** [delete o[k]] *)
Definition remove (o : list (string * V)) (k : string) : list (string * V) :=
  filter (fun kv => negb (String.eqb k (fst kv))) o.

(** [{ ...a, ...b }] *)
Definition spread (a b : list (string * V)) : list (string * V) :=
  fold_left (fun acc kv => set acc (fst kv) (snd kv)) b a.

(** lodash [omit(o, ks)] for own keys [ks] *)
Definition omit (o : list (string * V)) (ks : list string) : list (string * V) :=
  filter (fun kv => negb (existsb (String.eqb (fst kv)) ks)) o.
End Ops.

(** [l.includes(k)] on an array of strings *)
Definition includes (l : list string) (k : string) : bool :=
  existsb (String.eqb k) l.

End Obj.

Definition isArray (v : option json) : bool :=
  match v with Some (JArr _) => true | _ => false end.

Definition typeof_string (v : option json) : bool :=
  match v with Some (JStr _) => true | _ => false end.

(** [String(v)] as [Array.prototype.join] applies it to an element:
    [null] gives the empty string, a nested array is joined with commas. *)
Fixpoint toString (v : json) : string :=
  match v with
  | JNull => "null"
  | JBool true => "true"
  | JBool false => "false"
  | JNum r => r
  | JStr s => s
  | JArr items =>
      JsString.join
        (map (fun x => match x with JNull => "" | _ => toString x end) items) ","
  | JObj _ => "[object Object]"
  end.

Definition element_toString (v : json) : string :=
  match v with JNull => "" | _ => toString v end.

(** [items.join(sep)] on an array of JSON values *)
Definition array_join (items : list json) (sep : string) : string :=
  JsString.join (map element_toString items) sep.

(** ** src/util/array-as-string.ts *)

Definition sepKey : string := " <sep /> ".

(** [arrayToString]: every top-level array is replaced, at its key, by
    its elements joined with [sepKey]; the result is the argument object
    after the in-place updates. *)
Definition arrayToString (o : obj) : obj :=
  fold_left
    (fun acc key =>
       match Obj.get acc key with
       | Some (JArr items) => Obj.set acc key (JStr (array_join items sepKey))
       | _ => acc
       end)
    (Obj.keys o) o.

(** [stringToArray]: every top-level value is split on [sepKey]; a value
    without a [split] method (anything but a string) raises a TypeError,
    rendered as [None]. *)
Definition stringToArray (o : obj) : option obj :=
  fold_left
    (fun acc key =>
       match acc with
       | None => None
       | Some cur =>
           match Obj.get cur key with
           | Some (JStr s) =>
               let splitted := JsString.split s sepKey in
               Some (Obj.set cur key
                       (match splitted with
                        | [one] => JStr one
                        | _ => JArr (map JStr splitted)
                        end))
           | _ => None
           end
       end)
    (Obj.keys o) (Some o).

(** ** src/util/file-system.ts: file types and detection *)

Inductive FileType : Type := key_based | natural | auto.

Definition FileType_eqb (a b : FileType) : bool :=
  match a, b with
  | key_based, key_based | natural, natural | auto, auto => true
  | _, _ => false
  end.

Definition detectFileType (json : obj) : FileType :=
  let invalidKeys :=
    filter
      (fun k =>
         typeof_string (Obj.get json k)
         && (JsString.includes k "." || JsString.includes k " "))
      (Obj.keys json) in
  if Nat.ltb 0 (List.length invalidKeys) then natural else key_based.

(** ** flattenjs

    [flatten.convert] and [flatten.undo] come from the flattenjs package,
    which is not part of the sources. *)

(** Modelled from the spec: the leaves of a nested object, each with the
    path of object keys leading to it ("walks nested objects, producing
    one flat entry per leaf"); an array is a leaf. *)
Fixpoint leaves (v : json) : list (list string * json) :=
  match v with
  | JObj props =>
      flat_map
        (fun kv => map (fun pl => (fst kv :: fst pl, snd pl)) (leaves (snd kv)))
        props
  | _ => [([], v)]
  end.

(** Modelled from the spec: [flatten.convert], one flat entry per leaf,
    "keyed by the dot-joined path of object keys leading to that leaf". *)
Definition convert (nested : obj) : obj :=
  fold_left
    (fun acc pl => Obj.set acc (JsString.join (fst pl) ".") (snd pl))
    (leaves (JObj nested)) [].

(** Assignment of [v] at a path of keys, creating the objects on the way. *)
Fixpoint set_path (o : obj) (path : list string) (v : json) : obj :=
  match path with
  | [] => o
  | k :: rest =>
      match rest with
      | [] => Obj.set o k v
      | _ :: _ =>
          let sub := match Obj.get o k with
                     | Some (JObj props) => props
                     | _ => []
                     end in
          Obj.set o k (JObj (set_path sub rest v))
      end
  end.

(** Modelled from the spec: [flatten.undo], the "inverse of the
    path-joining step only": every flat key is split on the dots and its
    value stored at that path. *)
Definition undo (flat : obj) : obj :=
  fold_left
    (fun acc kv => set_path acc (JsString.split (fst kv) ".") (snd kv))
    flat [].

(** ** The state of a run *)

(** A language directory: file name to parsed content. *)
Definition Dir : Type := list (string * obj).

(** The working directory: one sub-directory per language. *)
Definition FS : Type := list (string * Dir).

Definition read_file (fs : FS) (dir name : string) : option obj :=
  match Obj.get fs dir with
  | Some files => Obj.get files name
  | None => None
  end.

Definition store_file (fs : FS) (dir name : string) (content : obj) : FS :=
  Obj.set fs dir
    (Obj.set (match Obj.get fs dir with Some files => files | None => [] end)
       name content).

Definition delete_file (fs : FS) (dir name : string) : FS :=
  match Obj.get fs dir with
  | Some files => Obj.set fs dir (Obj.remove files name)
  | None => fs
  end.

(** The items sent to the provider and what it sends back. *)
Record StringToTranslate : Type := { key : string; value : json }.
Record TranslationResult : Type := { result_key : string; translated : string }.

(** What a run prints, the file operations it performs and the batches
    it sends to the provider, in order. *)
Inductive Event : Type :=
| EvTargetLanguages (languages : list string)
| EvSourceFile (file : string) (type : FileType)
| EvInitializing (service : string)
| EvAvailableLanguages (count : nat)
| EvInconsistentKeys (file : string) (count : nat)
| EvInconsistentFiles (count : nat)
| EvFixing
| EvFixed
| EvPleaseFix
| EvNoInconsistencies
| EvInvalidKeys (file : string) (count : nat)
| EvInvalidFiles (count : nat)
| EvNoInvalidKeys
| EvSkipping (language : string)
| EvTranslating (sourceLang language : string)
| EvNoLongerUsed (file : string)
| EvTranslatingFile (file : string)
| EvSubmitted (language file : string) (items : list StringToTranslate)
| EvReport (added : nat) (removed : option nat)
| EvLanguageDone
| EvAllDone
| EvDump (o : obj)
| FsWrite (dir file : string) (content : obj)
| FsUnlink (dir file : string).

Inductive Error : Type :=
| SourceLanguageMissing (sourceLang : string)
| ServiceMissing (service : string)
| MatcherMissing (matcher : string)
| NoJsonFiles (sourceLang : string)
| SourceLanguageUnsupported (service sourceLang : string)
| ProviderFailure (message : string)
| NoSuchDirectory (dir : string)
| ModuleNotFound (dir file : string).

Section Run.

(** The provider's own state and the interpolation matchers are those
    of [./services] and [./matchers], which the run only passes on. *)
Variable P : Type.
Variable Matcher : Type.

Record State : Type := {
  disk : FS;
  cache : FS;
  provider : P;
  trace : list Event
}.

Inductive Outcome (A : Type) : Type :=
| Returned (a : A) (st : State)
| Thrown (e : Error) (st : State)
| Exited (code : nat) (st : State).
Arguments Returned {A}.
Arguments Thrown {A}.
Arguments Exited {A}.

Definition M (A : Type) : Type := State -> Outcome A.

Definition ret {A} (a : A) : M A := fun st => Returned a st.

Definition bind {A B} (c : M A) (k : A -> M B) : M B :=
  fun st =>
    match c st with
    | Returned a st' => k a st'
    | Thrown e st' => Thrown e st'
    | Exited code st' => Exited code st'
    end.

Definition throw {A} (e : Error) : M A := fun st => Thrown e st.
Definition exit {A} (code : nat) : M A := fun st => Exited code st.
Definition get_state : M State := fun st => Returned st st.

Definition log (e : Event) : M unit :=
  fun st =>
    Returned tt
      {| disk := disk st; cache := cache st; provider := provider st;
         trace := trace st ++ [e] |}.

Fixpoint forEach {A} (l : list A) (body : A -> M unit) : M unit :=
  match l with
  | [] => ret tt
  | x :: l' => bind (body x) (fun _ => forEach l' body)
  end.

Fixpoint mapM {A B} (f : A -> M B) (l : list A) : M (list B) :=
  match l with
  | [] => ret []
  | x :: l' => bind (f x) (fun y => bind (mapM f l') (fun ys => ret (y :: ys)))
  end.

(** *** File operations *)

(** [fs.readdirSync(directory)] *)
Definition readdirSync (directory : string) : M (list string) :=
  fun st =>
    match Obj.get (disk st) directory with
    | Some files => Returned (Obj.keys files) st
    | None => Thrown (NoSuchDirectory directory) st
    end.

(** [fs.writeFileSync(path.resolve(dir, file), JSON.stringify(content, null, 2) + '\n')] *)
Definition writeFileSync (dir file : string) (content : obj) : M unit :=
  fun st =>
    match Obj.get (disk st) dir with
    | Some _ =>
        Returned tt
          {| disk := store_file (disk st) dir file content; cache := cache st;
             provider := provider st;
             trace := trace st ++ [FsWrite dir file content] |}
    | None => Thrown (NoSuchDirectory dir) st
    end.

(** [fs.unlinkSync(path.resolve(dir, file))] *)
Definition unlinkSync (dir file : string) : M unit :=
  fun st =>
    Returned tt
      {| disk := delete_file (disk st) dir file; cache := cache st;
         provider := provider st;
         trace := trace st ++ [FsUnlink dir file] |}.

(** [require(path.resolve(dir, file))]: the cached object of that path,
    parsed from the disk on the first call. *)
Definition require (dir file : string) : M unit :=
  fun st =>
    match read_file (cache st) dir file with
    | Some _ => Returned tt st
    | None =>
        match read_file (disk st) dir file with
        | Some o =>
            Returned tt
              {| disk := disk st; cache := store_file (cache st) dir file o;
                 provider := provider st; trace := trace st |}
        | None => Thrown (ModuleNotFound dir file) st
        end
    end.

(** The object a [require]d path denotes. *)
Definition cached (st : State) (dir file : string) : obj :=
  match read_file (cache st) dir file with
  | Some o => o
  | None => []
  end.

(** [arrayToString] on the cached object of a path: the object is
    updated in place and printed. *)
Definition arrayToString_cached (dir file : string) : M obj :=
  fun st =>
    let o := arrayToString (cached st dir file) in
    Returned o
      {| disk := disk st; cache := store_file (cache st) dir file o;
         provider := provider st; trace := trace st ++ [EvDump o] |}.

Notation "'let*' x ':=' c 'in' k" := (bind c (fun x => k))
  (at level 10, x name, c at level 100, k at level 200).
Notation "c ';;' k" := (bind c (fun _ => k))
  (at level 100, k at level 200, right associativity).

(** *** src/util/file-system.ts *)

(** The object a loaded file's [content] refers to: the fresh result of
    [flatten.convert], or the [require]d object itself. *)
Inductive Content : Type :=
| Fresh (o : obj)
| Required (dir file : string).

(** [originalContent] is the [require]d object of the file's path. *)
Record TranslationFile : Type := {
  name : string;
  originalContent : string * string;
  type : FileType;
  content : Content
}.

Definition originalContentOf (st : State) (f : TranslationFile) : obj :=
  cached st (fst (originalContent f)) (snd (originalContent f)).

Definition contentOf (st : State) (f : TranslationFile) : obj :=
  match content f with
  | Fresh o => o
  | Required dir file => cached st dir file
  end.

(** [getAvailableLanguages(workingDir)]: the language directories *)
Definition getAvailableLanguages : M (list string) :=
  fun st => Returned (Obj.keys (disk st)) st.

Definition loadTranslationFile (directory : string) (fileType : FileType)
    (f : string) : M TranslationFile :=
  require directory f ;;
  let* st := get_state in
  let json := cached st directory f in
  let type := if FileType_eqb fileType auto then detectFileType json else fileType in
  let* content :=
    (if FileType_eqb type key_based
     then require directory f ;;
          let* o := arrayToString_cached directory f in
          ret (Fresh (convert o))
     else require directory f ;; ret (Required directory f)) in
  ret {| name := f; originalContent := (directory, f); type := type;
         content := content |}.

Definition loadTranslations (directory : string) (fileType : FileType)
    : M (list TranslationFile) :=
  let* files := readdirSync directory in
  mapM (loadTranslationFile directory fileType)
    (filter (fun f => JsString.endsWith f ".json") files).

Definition fixedContent (fileContent : obj) : obj :=
  fold_left (fun acc cur => Obj.set acc cur (JStr cur)) (Obj.keys fileContent) [].

Definition fixSourceInconsistencies (directory : string) : M unit :=
  let* loaded := loadTranslations directory auto in
  let files := filter (fun f => FileType_eqb (type f) natural) loaded in
  forEach files
    (fun file =>
       let* st := get_state in
       writeFileSync directory (name file) (fixedContent (contentOf st file))).

(** *** The translation provider ([./services]) *)

(** A provider call runs on the provider's state; [inl message] is a
    call that throws or a promise that is rejected. *)
Record TranslationService : Type := {
  service_name : string;
  service_initialize : option string -> Matcher -> P -> (string + unit) * P;
  service_getAvailableLanguages : P -> (string + list string) * P;
  service_translateStrings :
    list StringToTranslate -> string -> string -> P
    -> (string + list TranslationResult) * P
}.

Definition call {A} (f : P -> (string + A) * P) : M A :=
  fun st =>
    let st' := {| disk := disk st; cache := cache st;
                  provider := snd (f (provider st)); trace := trace st |} in
    match fst (f (provider st)) with
    | inl message => Thrown (ProviderFailure message) st'
    | inr a => Returned a st'
    end.

Variable serviceMap : list (string * TranslationService).
Variable matcherMap : list (string * Matcher).

(** *** src/index.ts: the diff and the merge of one file *)

(** [key !== v] for a string [key] *)
Definition differs (key : string) (v : option json) : bool :=
  match v with
  | Some (JStr s) => negb (String.eqb key s)
  | _ => true
  end.

Definition inconsistentKeys (fileContent : obj) : list string :=
  filter (fun key => differs key (Obj.get fileContent key)) (Obj.keys fileContent).

Definition invalidKeys (original : obj) : list string :=
  filter
    (fun k => typeof_string (Obj.get original k) && JsString.includes k ".")
    (Obj.keys original).

(** The value read at a key of [Object.keys]; [JNull] stands for
    [undefined] at a key that is not there. *)
Definition at_key (o : obj) (k : string) : json :=
  match Obj.get o k with Some v => v | None => JNull end.

Definition stringsToTranslate (templateType : FileType) (templateContent : obj)
    (existingKeys : list string) : list StringToTranslate :=
  map
    (fun key =>
       {| key := key;
          value :=
            if FileType_eqb templateType key_based
            then match at_key templateContent key with
                 | JArr items => JStr (array_join items " ")
                 | v => v
                 end
            else JStr key |})
    (filter (fun key => negb (Obj.includes existingKeys key))
       (Obj.keys templateContent)).

Definition unusedStrings (templateStrings existingKeys : list string) : list string :=
  filter (fun key => negb (Obj.includes templateStrings key)) existingKeys.

Definition newKeys (translatedStrings : list TranslationResult) : obj :=
  fold_left (fun acc cur => Obj.set acc (result_key cur) (JStr (translated cur)))
    translatedStrings [].

Definition translatedFile (existingTranslations : obj) (deleteUnusedStrings : bool)
    (unused : list string) (new : obj) : obj :=
  Obj.spread
    (Obj.omit existingTranslations (if deleteUnusedStrings then unused else []))
    new.

(** What [JSON.stringify] receives for the target file. *)
Definition emitted (templateType : FileType) (merged : obj) : obj :=
  if FileType_eqb templateType key_based then undo merged else merged.

(** *** src/index.ts: [translate] *)

Section Translate.

(** The working directory is the file system of the state, so
    [inputDir] has no counterpart here. *)
Variable sourceLang : string.
Variable deleteUnusedStrings : bool.
Variable fileType : FileType.
Variable fixInconsistencies : bool.
Variable service : string.
Variable matcher : string.
Variable config : option string.

(** The body of [for (const templateFile of templateFiles)]. *)
Definition translateFile (translationService : TranslationService)
    (language : string) (existingFiles : list TranslationFile)
    (templateFile : TranslationFile) : M unit :=
  log (EvTranslatingFile (name templateFile)) ;;
  let* st := get_state in
  let languageFile :=
    find (fun f => String.eqb (name f) (name templateFile)) existingFiles in
  let existingKeys :=
    match languageFile with
    | Some f => Obj.keys (contentOf st f)
    | None => []
    end in
  let existingTranslations :=
    match languageFile with
    | Some f => contentOf st f
    | None => []
    end in
  let templateStrings := Obj.keys (contentOf st templateFile) in
  let toTranslate :=
    stringsToTranslate (type templateFile) (contentOf st templateFile)
      existingKeys in
  let unused := unusedStrings templateStrings existingKeys in
  log (EvSubmitted language (name templateFile) toTranslate) ;;
  let* translatedStrings :=
    call (service_translateStrings translationService toTranslate
            (JsString.pop (JsString.split sourceLang "-"))
            (JsString.pop (JsString.split language "-"))) in
  let new := newKeys translatedStrings in
  (if negb (String.eqb service "dryRun")
   then writeFileSync language (name templateFile)
          (emitted (type templateFile)
             (translatedFile existingTranslations deleteUnusedStrings unused new))
   else ret tt) ;;
  log (EvReport (List.length translatedStrings)
         (if deleteUnusedStrings && Nat.ltb 0 (List.length unused)
          then Some (List.length unused) else None)).

(** The body of [for (const language of targetLanguages)]. *)
Definition translateLanguage (translationService : TranslationService)
    (availableLanguages : list string) (templateFiles : list TranslationFile)
    (language : string) : M unit :=
  if negb (Obj.includes availableLanguages language)
  then log (EvSkipping language)
  else
    let* existingFiles := loadTranslations language fileType in
    log (EvTranslating sourceLang language) ;;
    (if deleteUnusedStrings
     then
       let templateFileNames := map name templateFiles in
       let deletableFiles :=
         filter (fun f => negb (Obj.includes templateFileNames (name f)))
           existingFiles in
       forEach deletableFiles
         (fun file =>
            log (EvNoLongerUsed (name file)) ;;
            unlinkSync language (name file))
     else ret tt) ;;
    forEach templateFiles
      (translateFile translationService language existingFiles) ;;
    log EvLanguageDone.

(** The names of the natural template files with inconsistent keys. *)
Fixpoint findInconsistentFiles (files : list TranslationFile) : M (list string) :=
  match files with
  | [] => ret []
  | file :: rest =>
      let* st := get_state in
      let inconsistent := inconsistentKeys (contentOf st file) in
      if Nat.ltb 0 (List.length inconsistent)
      then log (EvInconsistentKeys (name file) (List.length inconsistent)) ;;
           let* others := findInconsistentFiles rest in
           ret (name file :: others)
      else findInconsistentFiles rest
  end.

(** The names of the key-based template files with invalid keys. *)
Fixpoint findInvalidFiles (files : list TranslationFile) : M (list string) :=
  match files with
  | [] => ret []
  | file :: rest =>
      let* st := get_state in
      let invalid := invalidKeys (originalContentOf st file) in
      if Nat.ltb 0 (List.length invalid)
      then log (EvInvalidKeys (name file) (List.length invalid)) ;;
           let* others := findInvalidFiles rest in
           ret (name file :: others)
      else findInvalidFiles rest
  end.

(** "Looking for key-value inconsistencies in source files": a
    report, and the rewrite of the source files under the fix flag. *)
Definition reportInconsistencies (templateFiles : list TranslationFile) : M unit :=
  let* inconsistentFiles :=
    findInconsistentFiles
      (filter (fun f => FileType_eqb (type f) natural) templateFiles) in
  if Nat.ltb 0 (List.length inconsistentFiles)
  then log (EvInconsistentFiles (List.length inconsistentFiles)) ;;
       if fixInconsistencies
       then log EvFixing ;; fixSourceInconsistencies sourceLang ;; log EvFixed
       else log EvPleaseFix
  else log EvNoInconsistencies.

(** "Looking for invalid keys in source files": [process.exit(1)]
    when a key-based template has one. *)
Definition rejectInvalidKeys (templateFiles : list TranslationFile) : M unit :=
  let* invalidFiles :=
    findInvalidFiles
      (filter (fun f => FileType_eqb (type f) key_based) templateFiles) in
  if Nat.ltb 0 (List.length invalidFiles)
  then log (EvInvalidFiles (List.length invalidFiles)) ;; exit 1
  else log EvNoInvalidKeys.

Definition translate : M unit :=
  let* languageFolders := getAvailableLanguages in
  let targetLanguages :=
    filter (fun f => negb (String.eqb f sourceLang)) languageFolders in
  if negb (Obj.includes languageFolders sourceLang)
  then throw (SourceLanguageMissing sourceLang)
  else
  match Obj.get serviceMap service with
  | None => throw (ServiceMissing service)
  | Some translationService =>
  match Obj.get matcherMap matcher with
  | None => throw (MatcherMissing matcher)
  | Some theMatcher =>
  let* templateFiles := loadTranslations sourceLang fileType in
  if Nat.eqb (List.length templateFiles) 0
  then throw (NoJsonFiles sourceLang)
  else
  log (EvTargetLanguages targetLanguages) ;;
  forEach templateFiles (fun file => log (EvSourceFile (name file) (type file))) ;;
  log (EvInitializing (service_name translationService)) ;;
  call (service_initialize translationService config theMatcher) ;;
  let* availableLanguages :=
    call (service_getAvailableLanguages translationService) in
  log (EvAvailableLanguages (List.length availableLanguages)) ;;
  if negb (Obj.includes availableLanguages sourceLang)
  then throw (SourceLanguageUnsupported (service_name translationService) sourceLang)
  else
  reportInconsistencies templateFiles ;;
  rejectInvalidKeys templateFiles ;;
  forEach targetLanguages
    (translateLanguage translationService availableLanguages templateFiles) ;;
  log EvAllDone
  end
  end.

End Translate.

End Run.

Arguments Returned {P A}.
Arguments Thrown {P A}.
Arguments Exited {P A}.
Arguments disk {P}.
Arguments cache {P}.
Arguments provider {P}.
Arguments trace {P}.
Arguments ret {P A}.
Arguments bind {P A B}.
Arguments throw {P A}.
Arguments exit {P A}.
Arguments log {P}.
Arguments forEach {P A}.
Arguments mapM {P A B}.
Arguments call {P A}.
Arguments readdirSync {P}.
Arguments writeFileSync {P}.
Arguments unlinkSync {P}.
Arguments require {P}.
Arguments cached {P}.
Arguments arrayToString_cached {P}.
Arguments originalContentOf {P}.
Arguments contentOf {P}.
Arguments getAvailableLanguages {P}.
Arguments loadTranslationFile {P}.
Arguments loadTranslations {P}.
Arguments fixSourceInconsistencies {P}.
Arguments service_name {P Matcher}.
Arguments service_initialize {P Matcher}.
Arguments service_getAvailableLanguages {P Matcher}.
Arguments service_translateStrings {P Matcher}.
Arguments translateFile {P Matcher}.
Arguments translateLanguage {P Matcher}.
Arguments findInconsistentFiles {P}.
Arguments findInvalidFiles {P}.
Arguments reportInconsistencies {P}.
Arguments rejectInvalidKeys {P}.
Arguments translate {P Matcher}.

(** The state an outcome leaves behind. *)
Definition final {P A} (r : Outcome P A) : State P :=
  match r with
  | Returned _ st | Thrown _ st | Exited _ st => st
  end.

(** A run from the given files, with nothing [require]d yet. *)
Definition start {P} (fs : FS) (p : P) : State P :=
  {| disk := fs; cache := []; provider := p; trace := [] |}.


(** ** Sample providers and working directories *)

Module Samples.

(** A provider without state that supports [en], [fr] and [de] and
    translates a text by [render]. *)
Definition service (label : string) (render : string -> string -> string)
    : TranslationService unit unit :=
  {| service_name := label;
     service_initialize := fun _ _ p => (inr tt, p);
     service_getAvailableLanguages := fun p => (inr ["en"; "fr"; "de"], p);
     service_translateStrings :=
       fun items _ target p =>
         (inr (map (fun item =>
                      {| result_key := key item;
                         translated := render target (toString (value item)) |})
                 items), p) |}.

Definition tagged : TranslationService unit unit :=
  service "tagged" (fun target text => (target ++ ":" ++ text)%string).

Definition verbatim : TranslationService unit unit :=
  service "verbatim" (fun _ text => text).

Definition serviceMap : list (string * TranslationService unit unit) :=
  [("google-translate", tagged); ("verbatim", verbatim); ("dryRun", verbatim)].

Definition matcherMap : list (string * unit) := [("icu", tt)].

(** A natural template whose stored value differs from its key. *)
Definition inconsistent_ui : FS :=
  [("en", [("ui.json", [("Save file", JStr "Guardar archivo")])]);
   ("fr", [])].

(** A key-based template with an array leaf and no target file yet. *)
Definition list_items : FS :=
  [("en", [("list.json", [("items", JArr [JStr "a"; JStr "b"])])]);
   ("fr", [])].

(** A target directory holding a file the template no longer has. *)
Definition stale_target : FS :=
  [("en", [("app.json", [("title", JStr "Hi")])]);
   ("fr", [("app.json", [("title", JStr "Salut")]);
           ("gone.json", [("old", JStr "vieux")])])].

(** A target that already has every template key. *)
Definition up_to_date : FS :=
  [("en", [("common.json", [("Hello world", JStr "Hello world")])]);
   ("fr", [("common.json", [("Hello world", JStr "Bonjour le monde")])])].

(** A key-based template whose key a.b runs through a, a string in the
    existing target. *)
Definition clashing_keys : FS :=
  [("en", [("app.json", [("a", JObj [("b", JStr "y")])])]);
   ("fr", [("app.json", [("a", JStr "x")])])].

(** A natural template with a key the target lacks, and a target with
    a key the template lacks. *)
Definition first_time : FS :=
  [("en", [("common.json", [("Hello world", JStr "Hello world");
                            ("Bye", JStr "Bye")])]);
   ("fr", [("common.json", [("Hello world", JStr "Bonjour le monde");
                            ("Old", JStr "Vieux")])])].

End Samples.

Module Scenario3.

(** Scenario 3 of the specification, as loaded: a key-based template
    and a target with one translated and one stale key. *)
Definition templateFile : TranslationFile :=
  {| name := "app.json"; originalContent := ("en", "app.json");
     type := key_based;
     content := Fresh [("a.b", JStr "x"); ("a.c", JStr "y")] |}.

Definition existingFiles : list TranslationFile :=
  [{| name := "app.json"; originalContent := ("fr", "app.json");
      type := key_based;
      content := Fresh [("a.b", JStr "x2"); ("old.key", JStr "z")] |}].

Definition files : FS :=
  [("en", [("app.json", [("a", JObj [("b", JStr "x"); ("c", JStr "y")])])]);
   ("fr", [("app.json", [("a", JObj [("b", JStr "x2")]);
                         ("old", JObj [("key", JStr "z")])])])].

End Scenario3.

Module Documents.

(** A key-based document with nesting and a two-element array leaf. *)
Definition menu : obj :=
  [("title", JStr "Menu");
   ("items", JArr [JStr "a"; JStr "b"]);
   ("help", JObj [("short", JStr "?"); ("long", JObj [("text", JStr "Help me")])])].

(** The array leaf of scenario 5 cut down to one element. *)
Definition single : obj := [("items", JArr [JStr "a"])].

Definition nested : obj := [("a", JObj [("b", JStr "x")])].

Definition nested_array : obj := [("a", JObj [("b", JArr [JStr "x"; JStr "y"])])].

End Documents.

(** ** Vocabulary of the properties *)

(** [st'] has the files of [st], the provider's state too when
    [keep_provider] is set, and the trace of [st] followed by events that
    all satisfy [allowed]. *)
Definition frame {P} (keep_provider : bool) (allowed : Event -> bool)
    (st st' : State P) : Prop :=
  disk st' = disk st
  /\ (keep_provider = true -> provider st' = provider st)
  /\ exists events, trace st' = trace st ++ events /\ forallb allowed events = true.

(** Every run of [c] leaves a state framed as above, and does not end in
    [process.exit] unless [may_exit] is set. *)
Definition framed {P A} (keep_provider : bool) (allowed : Event -> bool)
    (may_exit : bool) (c : M P A) : Prop :=
  forall st,
    frame keep_provider allowed st (final (c st))
    /\ (may_exit = false ->
        match c st with Exited _ _ => False | _ => True end).

Definition is_dump (e : Event) : bool :=
  match e with EvDump _ => true | _ => false end.

Definition is_file_operation (e : Event) : bool :=
  match e with FsWrite _ _ _ | FsUnlink _ _ => true | _ => false end.

(** The events of the loop over the target languages. *)
Definition is_language_event (e : Event) : bool :=
  match e with
  | EvSkipping _ | EvTranslating _ _ | EvNoLongerUsed _ | EvTranslatingFile _
  | EvSubmitted _ _ _ | EvReport _ _ | EvLanguageDone | EvAllDone
  | FsWrite _ _ _ | FsUnlink _ _ => true
  | _ => false
  end.

(** The part of a trace that [writeFileSync] and [unlinkSync] produced. *)
Definition file_operations (events : list Event) : list Event :=
  filter is_file_operation events.

(** The value found by following a path of keys into a nested object. *)
Fixpoint get_path (o : obj) (path : list string) : option json :=
  match path with
  | [] => None
  | k :: rest =>
      match rest with
      | [] => Obj.get o k
      | _ :: _ =>
          match Obj.get o k with
          | Some (JObj props) => get_path props rest
          | _ => None
          end
      end
  end.

(** [st] after printing or performing [events] that leave the files, the
    cache and the provider alone. *)
Definition with_trace {P} (st : State P) (events : list Event) : State P :=
  {| disk := disk st; cache := cache st; provider := provider st;
     trace := trace st ++ events |}.

(** [st] with the provider in state [p]. *)
Definition with_provider {P} (st : State P) (p : P) : State P :=
  {| disk := disk st; cache := cache st; provider := p; trace := trace st |}.

(** [p] is an initial segment of [q]. *)
Fixpoint path_prefix (p q : list string) : bool :=
  match p, q with
  | [], _ => true
  | _ :: _, [] => false
  | a :: p', b :: q' => String.eqb a b && path_prefix p' q'
  end.

(** Two flat keys clash when the path of one leads through the leaf of
    the other. *)
Definition clash (k1 k2 : string) : bool :=
  path_prefix (JsString.split k1 ".") (JsString.split k2 ".")
  || path_prefix (JsString.split k2 ".") (JsString.split k1 ".").

Fixpoint conflict_free (flat_keys : list string) : bool :=
  match flat_keys with
  | [] => true
  | k :: rest => forallb (fun k' => negb (clash k k')) rest && conflict_free rest
  end.

(** One step of [undo]. *)
Definition store_flat (acc : obj) (kv : string * json) : obj :=
  set_path acc (JsString.split (fst kv) ".") (snd kv).

(** [st] after [writeFileSync] of [content] at [dir]/[file]. *)
Definition written {P} (st : State P) (dir file : string) (content : obj) : State P :=
  {| disk := store_file (disk st) dir file content; cache := cache st;
     provider := provider st; trace := trace st ++ [FsWrite dir file content] |}.

(** The [existingTranslations] of a template file among the loaded files
    of a target language. *)
Definition existingTranslationsOf {P} (st : State P)
    (existingFiles : list TranslationFile) (templateFile : TranslationFile) : obj :=
  match find (fun f => String.eqb (name f) (name templateFile)) existingFiles with
  | Some f => contentOf st f
  | None => []
  end.

(** The report line of one file. *)
Definition report (deleteUnusedStrings : bool)
    (translatedStrings : list TranslationResult) (unused : list string) : Event :=
  EvReport (List.length translatedStrings)
    (if deleteUnusedStrings && Nat.ltb 0 (List.length unused)
     then Some (List.length unused) else None).

(** No occurrence of [sep] begins inside [e] when [e] is followed by
    [sep]. *)
Definition no_early_match (sep e : string) : Prop :=
  forall u v rest, e = (u ++ v)%string -> v <> EmptyString ->
                   String.prefix sep (v ++ sep ++ rest) = false.

(** One step of the path-wise rebuilding of a nested object. *)
Definition store_leaf (acc : obj) (pl : list string * json) : obj :=
  set_path acc (fst pl) (snd pl).

(** A leaf of a member, seen from the object: its path starts with the
    member's key. *)
Definition under (k : string) (pl : list string * json) : list string * json :=
  (k :: fst pl, snd pl).

(** The flat entry of a leaf. *)
Definition flat_entry (pl : list string * json) : string * json :=
  (JsString.join (fst pl) ".", snd pl).

Fixpoint nodupb (l : list string) : bool :=
  match l with
  | [] => true
  | k :: rest => negb (Obj.includes rest k) && nodupb rest
  end.

Definition dotless (k : string) : bool := negb (JsString.includes k ".").

(** A string that the array encoding leaves alone and gives back. *)
Definition sep_safe (s : string) : bool := negb (JsString.includes s " <sep />").

Definition is_nil {A} (l : list A) : bool :=
  match l with [] => true | _ => false end.

(** Nested objects that the flat form can spell: at every level the keys
    are distinct and without dots, and no object under the top is empty. *)
Fixpoint nestable (v : json) : bool :=
  match v with
  | JObj props =>
      negb (is_nil props) && nodupb (map fst props)
      && forallb (fun kv => dotless (fst kv) && nestable (snd kv)) props
  | _ => true
  end.

Definition nestable_object (o : obj) : bool :=
  nodupb (Obj.keys o)
  && forallb (fun kv => dotless (fst kv) && nestable (snd kv)) o.

(** Values whose leaves are all plain strings. *)
Fixpoint string_leaves (v : json) : bool :=
  match v with
  | JStr s => sep_safe s
  | JObj props => forallb (fun kv => string_leaves (snd kv)) props
  | _ => false
  end.

Definition is_safe_string (v : json) : bool :=
  match v with JStr s => sep_safe s | _ => false end.

(** A top-level member that the array encoding gives back: an array of
    at least two plain strings, or a value with string leaves. *)
Definition encodable (v : json) : bool :=
  match v with
  | JArr items => Nat.leb 2 (List.length items) && forallb is_safe_string items
  | _ => string_leaves v
  end.

Definition key_based_document (x : obj) : bool :=
  nestable_object x && forallb (fun kv => encodable (snd kv)) x.

(** The array encoding and decoding of one value. *)
Definition encode_value (v : json) : json :=
  match v with
  | JArr items => JStr (array_join items sepKey)
  | _ => v
  end.

Definition decode_string (s : string) : json :=
  let splitted := JsString.split s sepKey in
  match splitted with
  | [one] => JStr one
  | _ => JArr (map JStr splitted)
  end.

Definition decode_value (v : json) : json :=
  match v with
  | JStr s => decode_string s
  | _ => v
  end.

(** A leaf that the array encoding gives back. *)
Definition leaf_ok (v : json) : bool :=
  match v with
  | JArr _ => encodable v
  | JStr s => sep_safe s
  | _ => false
  end.

Definition encode_entry (kv : string * json) : string * json :=
  (fst kv, encode_value (snd kv)).

Definition decode_entry (kv : string * json) : string * json :=
  (fst kv, decode_value (snd kv)).

Definition encode_leaf (pl : list string * json) : list string * json :=
  (fst pl, encode_value (snd pl)).

(** The type and the content [loadTranslations] gives a file that holds
    the document [c]. *)
Definition loaded_type (fileType : FileType) (c : obj) : FileType :=
  if FileType_eqb fileType auto then detectFileType c else fileType.

Definition loaded_content (fileType : FileType) (c : obj) : obj :=
  if FileType_eqb (loaded_type fileType c) key_based
  then convert (arrayToString c)
  else c.

(** The object the cache holds for a file that holds [c] once it is
    loaded. *)
Definition cached_object (fileType : FileType) (c : obj) : obj :=
  if FileType_eqb (loaded_type fileType c) key_based then arrayToString c else c.

(** The record [loadTranslations] builds for the file [f] of [directory]
    that holds [c]. *)
Definition loaded_file (directory : string) (fileType : FileType) (f : string)
    (c : obj) : TranslationFile :=
  {| name := f; originalContent := (directory, f);
     type := loaded_type fileType c;
     content := if FileType_eqb (loaded_type fileType c) key_based
                then Fresh (convert (arrayToString c))
                else Required directory f |}.

(** The events of loading that file. *)
Definition loading_events (fileType : FileType) (c : obj) : list Event :=
  if FileType_eqb (loaded_type fileType c) key_based
  then [EvDump (arrayToString c)] else [].

(** [st] with the cache [c]. *)
Definition with_cache {P} (st : State P) (c : FS) : State P :=
  {| disk := disk st; cache := c; provider := provider st; trace := trace st |}.

(** What loading says of one file: its record, and the object the cache
    then holds for it. *)
Definition loaded_as {P} (st : State P) (directory : string) (fileType : FileType)
    (files : Dir) (f : string) (rec : TranslationFile) : Prop :=
  exists c,
    Obj.get files f = Some c
    /\ rec = loaded_file directory fileType f c
    /\ read_file (cache st) directory f = Some (cached_object fileType c).

(** The files of a directory that [loadTranslations] reads. *)
Definition json_files (files : Dir) : list string :=
  filter (fun f => JsString.endsWith f ".json") (Obj.keys files).

(** The target document [target] is up to date with the template
    document [template]: it has every template key, it has no unused
    string when these are deleted, and loading it and emitting it again
    gives the document itself. *)
Definition file_settled (fileType : FileType) (deleteUnusedStrings : bool)
    (template target : obj) : Prop :=
  let T := Obj.keys (loaded_content fileType template) in
  let existing := loaded_content fileType target in
  forallb (Obj.includes (Obj.keys existing)) T = true
  /\ (deleteUnusedStrings = true ->
      forallb (Obj.includes T) (Obj.keys existing) = true)
  /\ emitted (loaded_type fileType template) existing = target.

(** A target directory is up to date with the source directory. *)
Definition directory_settled (fileType : FileType) (deleteUnusedStrings : bool)
    (source target : Dir) : Prop :=
  NoDup (Obj.keys target)
  /\ (forall f template,
        In f (json_files source) -> Obj.get source f = Some template ->
        exists document,
          Obj.get target f = Some document
          /\ file_settled fileType deleteUnusedStrings template document)
  /\ (deleteUnusedStrings = true ->
      forall f, In f (json_files target) -> In f (json_files source)).

(** A file operation that leaves the files [fs] as they are: a write of
    the content the file already holds. *)
Definition harmless (fs : FS) (e : Event) : Prop :=
  match e with
  | FsWrite dir file content => read_file fs dir file = Some content
  | FsUnlink _ _ => False
  | _ => True
  end.

(** [st'] is [st] some steps later, the files still being [fs] and the
    cache untouched. *)
Definition rewritten {P} (fs : FS) (st st' : State P) : Prop :=
  disk st' = fs /\ cache st' = cache st
  /\ exists events, trace st' = trace st ++ events /\ Forall (harmless fs) events.

(** The provider answers for submitted keys only. *)
Definition answers_submitted_keys {P Matcher}
    (translationService : TranslationService P Matcher) : Prop :=
  forall items source target p answer,
    fst (service_translateStrings translationService items source target p)
    = inr answer ->
    forall r, In r answer -> In (result_key r) (map key items).

(** [st'] is [st] some steps later with the files still being [fs]: every
    file operation in between was a write of what the file already held. *)
Definition files_kept {P} (fs : FS) (st st' : State P) : Prop :=
  disk st' = fs
  /\ exists events, trace st' = trace st ++ events /\ Forall (harmless fs) events.

(** The files after the file operations of a trace, in order. *)
Definition replay_event (fs : FS) (e : Event) : FS :=
  match e with
  | FsWrite dir file content => store_file fs dir file content
  | FsUnlink dir file => delete_file fs dir file
  | _ => fs
  end.

Definition replay (events : list Event) (fs : FS) : FS :=
  fold_left replay_event events fs.

(** [st'] is [st] some steps later: the new events all satisfy [allowed],
    and the files are those of [st] after the file operations among
    them. *)
Definition accounted {P} (allowed : Event -> bool) (st st' : State P) : Prop :=
  exists events,
    trace st' = trace st ++ events
    /\ forallb allowed events = true
    /\ disk st' = replay events (disk st).

Definition accounts {P A} (allowed : Event -> bool) (c : M P A) : Prop :=
  forall st, accounted allowed st (final (c st)).

(** File operations outside the directory [dir], and everything that is
    not a file operation. *)
Definition outside (dir : string) (e : Event) : bool :=
  match e with
  | FsWrite d _ _ | FsUnlink d _ => negb (String.eqb d dir)
  | _ => true
  end.

Definition is_unlink (e : Event) : bool :=
  match e with FsUnlink _ _ => true | _ => false end.

(** The provider answers for every key it is given. *)
Definition answers_every_submitted_key {P Matcher}
    (translationService : TranslationService P Matcher) : Prop :=
  forall items source target p answer,
    fst (service_translateStrings translationService items source target p)
    = inr answer ->
    forall item, In item items -> In (key item) (map result_key answer).

(** The languages the provider lists do not depend on its state. *)
Definition lists_the_same_languages {P Matcher}
    (translationService : TranslationService P Matcher) : Prop :=
  forall p p' available available',
    fst (service_getAvailableLanguages translationService p) = inr available ->
    fst (service_getAvailableLanguages translationService p') = inr available' ->
    available' = available.

(** The target document [document] has every key of [template], and no
    other key when unused strings are deleted. *)
Definition has_the_keys (deleteUnusedStrings : bool) (template document : obj)
    : Prop :=
  (forall k, In k (Obj.keys template) -> In k (Obj.keys document))
  /\ (deleteUnusedStrings = true ->
      forall k, In k (Obj.keys document) -> In k (Obj.keys template)).

(** * Properties *)

(** ** Strings and objects *)

Lemma prefix_char (c : ascii) (s : string) :
  String.prefix (String c EmptyString) s = true <-> exists s', s = String c s'.
Proof.
  destruct s as [|c' s']; simpl.
  - split; [discriminate | intros [? ?]; discriminate].
  - destruct (ascii_dec c c') as [->|Hn].
    + split; [eauto | intros _; now destruct s'].
    + split; [discriminate | intros [? H]; inversion H; congruence].
Qed.

Lemma includes_char (s : string) (c : ascii) :
  JsString.includes s (String c EmptyString) = true
  <-> In c (list_ascii_of_string s).
Proof.
  induction s as [|c' s IH].
  - simpl. split; [discriminate | tauto].
  - cbn [JsString.includes list_ascii_of_string In].
    destruct (String.prefix (String c EmptyString) (String c' s)) eqn:E.
    + apply prefix_char in E as [s' E]. inversion E; subst. tauto.
    + rewrite IH. split; [tauto|].
      intros [->|H]; [|exact H].
      assert (String.prefix (String c EmptyString) (String c s) = true)
        by (apply prefix_char; eauto).
      congruence.
Qed.

Lemma includes_In (l : list string) (k : string) :
  Obj.includes l k = true <-> In k l.
Proof.
  unfold Obj.includes. rewrite existsb_exists. split.
  - intros [x [Hin E]]. apply String.eqb_eq in E. now subst.
  - intros H. exists k. split; [exact H | apply String.eqb_refl].
Qed.

Lemma includes_not_In (l : list string) (k : string) :
  Obj.includes l k = false <-> ~ In k l.
Proof.
  rewrite <- includes_In. destruct (Obj.includes l k); split; congruence.
Qed.

Section ObjFacts.
Context {V : Type}.
Implicit Types (o : list (string * V)) (k : string) (v : V).

Lemma get_In o k v : Obj.get o k = Some v -> In (k, v) o.
Proof.
  induction o as [|[k' v'] o IH]; simpl; [discriminate|].
  destruct (String.eqb_spec k k') as [->|Hn].
  - intros [= ->]. now left.
  - intros H. right. now apply IH.
Qed.

Lemma get_None o k : Obj.get o k = None <-> ~ In k (Obj.keys o).
Proof.
  induction o as [|[k' v'] o IH]; simpl; [tauto|].
  destruct (String.eqb_spec k k') as [->|Hn].
  - split; [discriminate | intros H; exfalso; apply H; now left].
  - rewrite IH. split; [intros H [E|H']; [congruence | tauto] | tauto].
Qed.

Lemma get_key o k v : Obj.get o k = Some v -> In k (Obj.keys o).
Proof.
  intros H. apply get_In in H. unfold Obj.keys.
  change k with (fst (k, v)). now apply in_map.
Qed.

Lemma In_get o k v : NoDup (Obj.keys o) -> In (k, v) o -> Obj.get o k = Some v.
Proof.
  induction o as [|[k' v'] o IH]; simpl; [tauto|].
  intros Hnd [E|Hin].
  - inversion E; subst. now rewrite String.eqb_refl.
  - inversion Hnd as [|? ? Hnot Hnd']; subst.
    destruct (String.eqb_spec k k') as [->|Hn].
    + exfalso. apply Hnot. change k' with (fst (k', v)). now apply in_map.
    + now apply IH.
Qed.

Lemma set_absent o k v : ~ In k (Obj.keys o) -> Obj.set o k v = o ++ [(k, v)].
Proof.
  induction o as [|[k' v'] o IH]; simpl; [reflexivity|].
  intros H. destruct (String.eqb_spec k k') as [->|Hn].
  - exfalso. apply H. now left.
  - f_equal. apply IH. tauto.
Qed.

Lemma get_set_same o k v : Obj.get (Obj.set o k v) k = Some v.
Proof.
  induction o as [|[k' v'] o IH]; simpl.
  - now rewrite String.eqb_refl.
  - destruct (String.eqb_spec k k') as [->|Hn]; simpl.
    + now rewrite String.eqb_refl.
    + destruct (String.eqb_spec k k'); [congruence | exact IH].
Qed.

Lemma get_set_other o k k' v : k' <> k -> Obj.get (Obj.set o k v) k' = Obj.get o k'.
Proof.
  intros Hn. induction o as [|[k0 v0] o IH]; simpl.
  - destruct (String.eqb_spec k' k); [congruence | reflexivity].
  - destruct (String.eqb_spec k k0) as [->|Hn0]; simpl.
    + destruct (String.eqb_spec k' k0); [congruence | reflexivity].
    + destruct (String.eqb_spec k' k0); [reflexivity | exact IH].
Qed.

Lemma set_set o k v v' : Obj.set (Obj.set o k v) k v' = Obj.set o k v'.
Proof.
  induction o as [|[k0 v0] o IH]; simpl.
  - now rewrite String.eqb_refl.
  - destruct (String.eqb_spec k k0) as [->|Hn0]; simpl.
    + now rewrite String.eqb_refl.
    + destruct (String.eqb_spec k k0); [congruence | now rewrite IH].
Qed.

Lemma set_same o k v : Obj.get o k = Some v -> Obj.set o k v = o.
Proof.
  induction o as [|[k0 v0] o IH]; simpl; [discriminate|].
  destruct (String.eqb_spec k k0) as [->|Hn0].
  - now intros [= ->].
  - intros H. now rewrite IH.
Qed.

Lemma keys_set_present o k v :
  In k (Obj.keys o) -> Obj.keys (Obj.set o k v) = Obj.keys o.
Proof.
  induction o as [|[k0 v0] o IH]; simpl; [tauto|].
  destruct (String.eqb_spec k k0) as [->|Hn0]; simpl; [reflexivity|].
  intros [E|H]; [congruence | now rewrite IH].
Qed.

Lemma keys_app o o' : Obj.keys (o ++ o') = Obj.keys o ++ Obj.keys o'.
Proof. apply map_app. Qed.

End ObjFacts.

(** ** File type detection *)

Lemma detect_filter_In (json : obj) (k : string) :
  In k (filter
          (fun k => typeof_string (Obj.get json k)
                    && (JsString.includes k "." || JsString.includes k " "))
          (Obj.keys json))
  <-> In k (Obj.keys json)
      /\ (exists s, Obj.get json k = Some (JStr s))
      /\ (In "."%char (list_ascii_of_string k) \/ In " "%char (list_ascii_of_string k)).
Proof.
  rewrite filter_In, andb_true_iff, orb_true_iff, !includes_char.
  assert (typeof_string (Obj.get json k) = true
          <-> exists s, Obj.get json k = Some (JStr s)) as ->; [|tauto].
  destruct (Obj.get json k) as [[]|]; simpl; split;
    solve [discriminate | eauto | intros [? ?]; discriminate].
Qed.

Lemma ltb_length_In {A} (l : list A) :
  Nat.ltb 0 (List.length l) = true <-> exists x, In x l.
Proof.
  destruct l as [|x l]; simpl.
  - split; [discriminate | intros [? []]].
  - split; [eauto | reflexivity].
Qed.

(** C9. [detectFileType] is a total function of the parsed object alone.
    It answers [natural] exactly when some top-level key whose value is a
    string contains a '.' or a space, and [key_based] otherwise (never
    [auto]); an object without string-valued entries is [key_based]. *)
Theorem detectFileType_classifies (json : obj) :
  (detectFileType json = natural
   <-> exists k s,
         In k (Obj.keys json) /\ Obj.get json k = Some (JStr s)
         /\ (In "."%char (list_ascii_of_string k)
             \/ In " "%char (list_ascii_of_string k)))
  /\ (detectFileType json = key_based <-> detectFileType json <> natural)
  /\ ((forall k, typeof_string (Obj.get json k) = false)
      -> detectFileType json = key_based).
Proof.
  unfold detectFileType.
  set (invalid := filter _ _).
  assert (Hex : Nat.ltb 0 (List.length invalid) = true
                <-> exists k s,
                      In k (Obj.keys json) /\ Obj.get json k = Some (JStr s)
                      /\ (In "."%char (list_ascii_of_string k)
                          \/ In " "%char (list_ascii_of_string k))).
  { rewrite ltb_length_In. split.
    - intros [k Hk]. apply detect_filter_In in Hk as (Hin & [s Hs] & Hc). eauto.
    - intros (k & s & Hin & Hs & Hc). exists k. apply detect_filter_In. eauto. }
  split; [|split].
  - rewrite <- Hex. destruct (Nat.ltb 0 (List.length invalid)); split; congruence.
  - destruct (Nat.ltb 0 (List.length invalid)); split; congruence.
  - intros Hnone. destruct (Nat.ltb 0 (List.length invalid)) eqn:E; [|reflexivity].
    destruct (proj1 Hex eq_refl) as (k & s & _ & Hs & _).
    specialize (Hnone k). rewrite Hs in Hnone. discriminate.
Qed.

Lemma detectFileType_classifies_witness :
  detectFileType [("title", JArr [JStr "a b"]); ("n", JNum "1")] = key_based.
Proof.
  apply (detectFileType_classifies [("title", JArr [JStr "a b"]); ("n", JNum "1")]).
  intros k. simpl.
  destruct (String.eqb k "title"); [reflexivity|].
  destruct (String.eqb k "n"); reflexivity.
Defined.

(** ** The key diff of one file *)

Lemma stringsToTranslate_keys (ty : FileType) (templateContent : obj)
    (existingKeys : list string) :
  map key (stringsToTranslate ty templateContent existingKeys)
  = filter (fun k => negb (Obj.includes existingKeys k)) (Obj.keys templateContent).
Proof.
  unfold stringsToTranslate. rewrite map_map. simpl. apply map_id.
Qed.

Lemma In_stringsToTranslate (ty : FileType) (templateContent : obj)
    (existingKeys : list string) (k : string) :
  In k (map key (stringsToTranslate ty templateContent existingKeys))
  <-> In k (Obj.keys templateContent) /\ ~ In k existingKeys.
Proof.
  rewrite stringsToTranslate_keys, filter_In, negb_true_iff, includes_not_In.
  tauto.
Qed.

Lemma In_unusedStrings (templateStrings existingKeys : list string) (k : string) :
  In k (unusedStrings templateStrings existingKeys)
  <-> In k existingKeys /\ ~ In k templateStrings.
Proof.
  unfold unusedStrings.
  rewrite filter_In, negb_true_iff, includes_not_In. tauto.
Qed.

(** C1. With T the keys of the template content and E the keys of the
    existing target content (empty when the target file is absent), the
    keys of [stringsToTranslate] are the keys of T absent from E in the
    template's order, [unusedStrings] is the keys of E absent from T in the
    target's order, together with T∩E they give back T and E, the keys to
    translate are disjoint from T∩E, and each key to translate carries the
    template's value at that key (an array joined with one space) for a
    key-based template and the key itself for a natural one. *)
Theorem diff_complete (ty : FileType) (templateContent existingContent : obj) :
  let T := Obj.keys templateContent in
  let E := Obj.keys existingContent in
  let todo := stringsToTranslate ty templateContent E in
  let unused := unusedStrings T E in
  map key todo = filter (fun k => negb (Obj.includes E k)) T
  /\ unused = filter (fun k => negb (Obj.includes T k)) E
  /\ (forall k, In k (map key todo) <-> In k T /\ ~ In k E)
  /\ (forall k, In k unused <-> In k E /\ ~ In k T)
  /\ (forall k, In k (map key todo) \/ (In k T /\ In k E) <-> In k T)
  /\ (forall k, In k unused \/ (In k T /\ In k E) <-> In k E)
  /\ (forall k, ~ (In k (map key todo) /\ In k T /\ In k E))
  /\ (forall item, In item todo ->
        In (key item) T
        /\ (ty = key_based ->
            value item
            = match Obj.get templateContent (key item) with
              | Some (JArr items) => JStr (array_join items " ")
              | Some v => v
              | None => JNull
              end)
        /\ (ty = natural -> value item = JStr (key item))).
Proof.
  intros T E todo unused.
  assert (Hdec : forall (k : string) l, In k l \/ ~ In k l).
  { intros k l. destruct (in_dec string_dec k l); tauto. }
  split; [apply stringsToTranslate_keys|].
  split; [reflexivity|].
  split; [intros k; apply In_stringsToTranslate|].
  split; [intros k; apply In_unusedStrings|].
  split; [|split; [|split]].
  - intros k. unfold todo. rewrite In_stringsToTranslate.
    destruct (Hdec k E); tauto.
  - intros k. unfold unused. rewrite In_unusedStrings.
    destruct (Hdec k T); tauto.
  - intros k. unfold todo. rewrite In_stringsToTranslate. tauto.
  - intros item Hin. unfold todo, stringsToTranslate in Hin.
    apply in_map_iff in Hin as (k & <- & Hk). apply filter_In in Hk as [Hk _].
    simpl. split; [exact Hk|]. split.
    + intros ->. simpl. unfold at_key.
      destruct (Obj.get templateContent k) as [[]|]; reflexivity.
    + intros ->. reflexivity.
Qed.

(** ** Framing the effects of a run *)

Section Frames.
Context {P : Type}.
Implicit Types (st : State P) (allowed : Event -> bool).

Lemma frame_refl kp allowed st : frame kp allowed st st.
Proof.
  repeat split; auto. exists []. now rewrite app_nil_r.
Qed.

Lemma frame_trans kp allowed st1 st2 st3 :
  frame kp allowed st1 st2 -> frame kp allowed st2 st3 -> frame kp allowed st1 st3.
Proof.
  intros (Hd1 & Hp1 & e1 & Ht1 & Ha1) (Hd2 & Hp2 & e2 & Ht2 & Ha2).
  repeat split.
  - congruence.
  - intros H. rewrite Hp2, Hp1; auto.
  - exists (e1 ++ e2). split.
    + now rewrite Ht2, Ht1, app_assoc.
    + rewrite forallb_app, Ha1, Ha2. reflexivity.
Qed.

Lemma frame_weaken kp kp' allowed allowed' st st' :
  (kp' = true -> kp = true) ->
  (forall e, allowed e = true -> allowed' e = true) ->
  frame kp allowed st st' -> frame kp' allowed' st st'.
Proof.
  intros Hk Ha (Hd & Hp & e & Ht & Hall).
  repeat split; auto.
  exists e. split; [exact Ht|].
  rewrite forallb_forall in *. auto.
Qed.

Lemma framed_weaken {A} kp kp' allowed allowed' x x' (c : M P A) :
  (kp' = true -> kp = true) ->
  (forall e, allowed e = true -> allowed' e = true) ->
  (x' = false -> x = false) ->
  framed kp allowed x c -> framed kp' allowed' x' c.
Proof.
  intros Hk Ha Hx H st. destruct (H st) as [Hf Hn]. split.
  - eapply frame_weaken; eauto.
  - intros Hx'. apply Hn, Hx, Hx'.
Qed.

Lemma framed_ret {A} kp allowed x (a : A) : framed kp allowed x (@ret P A a).
Proof. intros st. split; [apply frame_refl | reflexivity]. Qed.

Lemma framed_throw {A} kp allowed x e : framed kp allowed x (@throw P A e).
Proof. intros st. split; [apply frame_refl | reflexivity]. Qed.

Lemma framed_exit {A} kp allowed code : framed kp allowed true (@exit P A code).
Proof. intros st. split; [apply frame_refl | discriminate]. Qed.

Lemma framed_get_state kp allowed x : framed kp allowed x (@get_state P).
Proof. intros st. split; [apply frame_refl | reflexivity]. Qed.

Lemma framed_bind {A B} kp allowed x (c : M P A) (k : A -> M P B) :
  framed kp allowed x c -> (forall a, framed kp allowed x (k a)) ->
  framed kp allowed x (bind c k).
Proof.
  intros Hc Hk st. unfold bind.
  destruct (Hc st) as [Hf Hn]. destruct (c st) as [a st1|e st1|code st1]; simpl in *.
  - destruct (Hk a st1) as [Hf' Hn']. split; [eapply frame_trans; eauto | exact Hn'].
  - split; [exact Hf | reflexivity].
  - split; [exact Hf | exact Hn].
Qed.

Lemma framed_log kp allowed x e : allowed e = true -> framed kp allowed x (@log P e).
Proof.
  intros Ha st. split; [|reflexivity]. simpl.
  repeat split; auto. exists [e]. split; [reflexivity|]. simpl. now rewrite Ha.
Qed.

Lemma framed_forEach {A} kp allowed x (l : list A) (body : A -> M P unit) :
  (forall a, In a l -> framed kp allowed x (body a)) ->
  framed kp allowed x (forEach l body).
Proof.
  induction l as [|a l IH]; intros H; simpl.
  - apply framed_ret.
  - apply framed_bind; [apply H; now left|].
    intros _. apply IH. intros b Hb. apply H. now right.
Qed.

Lemma framed_mapM {A B} kp allowed x (f : A -> M P B) (l : list A) :
  (forall a, In a l -> framed kp allowed x (f a)) ->
  framed kp allowed x (mapM f l).
Proof.
  induction l as [|a l IH]; intros H; simpl.
  - apply framed_ret.
  - apply framed_bind; [apply H; now left|].
    intros b. apply framed_bind; [apply IH; intros; apply H; now right|].
    intros bs. apply framed_ret.
Qed.

Lemma framed_readdirSync kp allowed x d : framed kp allowed x (@readdirSync P d).
Proof.
  intros st. unfold readdirSync.
  destruct (Obj.get (disk st) d); (split; [apply frame_refl | reflexivity]).
Qed.

Lemma framed_require kp allowed x d f : framed kp allowed x (@require P d f).
Proof.
  intros st. unfold require.
  destruct (read_file (cache st) d f); [split; [apply frame_refl | reflexivity]|].
  destruct (read_file (disk st) d f); (split; [|reflexivity]); simpl.
  - repeat split; auto. exists []. now rewrite app_nil_r.
  - apply frame_refl.
Qed.

Lemma framed_arrayToString_cached kp allowed x d f :
  (forall o, allowed (EvDump o) = true) ->
  framed kp allowed x (@arrayToString_cached P d f).
Proof.
  intros Ha st. split; [|reflexivity]. simpl.
  repeat split; auto. eexists [_]. split; [reflexivity|]. simpl. now rewrite Ha.
Qed.

Lemma framed_call {A} allowed x (f : P -> (string + A) * P) :
  framed false allowed x (@call P A f).
Proof.
  intros st. unfold call.
  destruct (fst (f (provider st))); (split; [|reflexivity]); simpl;
    (repeat split; auto; [discriminate | exists []; now rewrite app_nil_r]).
Qed.

Lemma framed_loadTranslationFile kp allowed x d ft f :
  (forall o, allowed (EvDump o) = true) ->
  framed kp allowed x (@loadTranslationFile P d ft f).
Proof.
  intros Ha. unfold loadTranslationFile.
  apply framed_bind; [apply framed_require|]. intros _.
  apply framed_bind; [apply framed_get_state|]. intros st.
  apply framed_bind; [|intros; apply framed_ret].
  destruct (FileType_eqb _ key_based).
  - apply framed_bind; [apply framed_require|]. intros _.
    apply framed_bind; [now apply framed_arrayToString_cached|].
    intros; apply framed_ret.
  - apply framed_bind; [apply framed_require|]. intros; apply framed_ret.
Qed.

Lemma framed_loadTranslations kp allowed x d ft :
  (forall o, allowed (EvDump o) = true) ->
  framed kp allowed x (@loadTranslations P d ft).
Proof.
  intros Ha. unfold loadTranslations.
  apply framed_bind; [apply framed_readdirSync|]. intros files.
  apply framed_mapM. intros; now apply framed_loadTranslationFile.
Qed.

Lemma framed_findInconsistentFiles kp allowed x files :
  (forall f n, allowed (EvInconsistentKeys f n) = true) ->
  framed kp allowed x (@findInconsistentFiles P files).
Proof.
  intros Ha. induction files as [|f files IH]; simpl.
  - apply framed_ret.
  - apply framed_bind; [apply framed_get_state|]. intros st.
    destruct (Nat.ltb _ _); [|exact IH].
    apply framed_bind; [now apply framed_log|]. intros _.
    apply framed_bind; [exact IH|]. intros; apply framed_ret.
Qed.

Lemma framed_findInvalidFiles kp allowed x files :
  (forall f n, allowed (EvInvalidKeys f n) = true) ->
  framed kp allowed x (@findInvalidFiles P files).
Proof.
  intros Ha. induction files as [|f files IH]; simpl.
  - apply framed_ret.
  - apply framed_bind; [apply framed_get_state|]. intros st.
    destruct (Nat.ltb _ _); [|exact IH].
    apply framed_bind; [now apply framed_log|]. intros _.
    apply framed_bind; [exact IH|]. intros; apply framed_ret.
Qed.

End Frames.

(** ** The consistency report and the source text of natural files *)

Section Reports.
Context {P : Type}.
Implicit Types (st : State P).

Lemma with_trace_nil st : with_trace st [] = st.
Proof. destruct st. unfold with_trace. simpl. now rewrite app_nil_r. Qed.

Lemma with_trace_app st a b :
  with_trace (with_trace st a) b = with_trace st (a ++ b).
Proof. unfold with_trace. simpl. now rewrite app_assoc. Qed.

Lemma log_run st e : log e st = Returned tt (with_trace st [e]).
Proof. reflexivity. Qed.

Lemma forEach_log {A} (l : list A) (g : A -> Event) st :
  forEach l (fun a => log (g a)) st = Returned tt (with_trace st (map g l)).
Proof.
  revert st. induction l as [|a l IH]; intros st; simpl.
  - unfold ret. now rewrite with_trace_nil.
  - unfold bind. rewrite log_run, IH, with_trace_app. reflexivity.
Qed.

Lemma frame_with_trace kp allowed st events :
  forallb allowed events = true -> frame kp allowed st (with_trace st events).
Proof. intros H. repeat split; auto. exists events. auto. Qed.

Lemma findInconsistentFiles_run files st :
  exists names events,
    findInconsistentFiles files st = Returned names (with_trace st events)
    /\ forallb (fun e => negb (is_file_operation e)) events = true.
Proof.
  revert st. induction files as [|f files IH]; intros st; simpl.
  - exists [], []. unfold ret. now rewrite with_trace_nil.
  - unfold bind, get_state.
    destruct (Nat.ltb 0 _).
    + rewrite log_run.
      destruct (IH (with_trace st [EvInconsistentKeys (name f)
                 (List.length (inconsistentKeys (contentOf st f)))]))
        as (names & events & -> & Hev).
      eexists _, _. unfold ret. rewrite with_trace_app. split; [reflexivity|].
      simpl. exact Hev.
    + apply IH.
Qed.

End Reports.

Lemma filter_none {A} (p : A -> bool) (l : list A) :
  forallb (fun a => negb (p a)) l = true -> filter p l = [].
Proof.
  induction l as [|a l IH]; simpl; [reflexivity|].
  rewrite andb_true_iff, negb_true_iff. intros [-> H]. now apply IH.
Qed.

(** ** Paths in the re-nested object *)

Lemma split_from_nonempty (sep : string) (skip : nat) (s : string) :
  JsString.split_from sep skip s <> [].
Proof.
  revert skip. induction s as [|c s IH]; intros skip;
    cbn [JsString.split_from]; [discriminate|].
  destruct skip; [|apply IH].
  destruct (String.prefix sep (String c s)); [discriminate|].
  destruct (JsString.split_from sep 0 s); discriminate.
Qed.

Lemma split_dot_nonempty (k : string) : JsString.split k "." <> [].
Proof. apply split_from_nonempty. Qed.

Lemma get_path_empty_object (path : list string) : get_path [] path = None.
Proof. destruct path as [|k [|k' r]]; reflexivity. Qed.

Lemma set_path_deeper (o : obj) (k k' : string) (r : list string) (v : json) :
  set_path o (k :: k' :: r) v
  = Obj.set o k
      (JObj (set_path
               (match Obj.get o k with Some (JObj props) => props | _ => [] end)
               (k' :: r) v)).
Proof. reflexivity. Qed.

Lemma get_path_deeper (o : obj) (k k' : string) (r : list string) :
  get_path o (k :: k' :: r)
  = match Obj.get o k with
    | Some (JObj props) => get_path props (k' :: r)
    | _ => None
    end.
Proof. reflexivity. Qed.

Lemma get_path_set_path_same (o : obj) (path : list string) (v : json) :
  path <> [] -> get_path (set_path o path v) path = Some v.
Proof.
  revert o. induction path as [|k rest IH]; intros o Hne; [congruence|].
  destruct rest as [|k' r].
  - simpl. apply get_set_same.
  - rewrite set_path_deeper, get_path_deeper, get_set_same.
    apply IH. discriminate.
Qed.

Lemma get_path_set_path_other (o : obj) (p q : list string) (w : json) :
  path_prefix p q = false -> path_prefix q p = false ->
  get_path (set_path o q w) p = get_path o p.
Proof.
  revert o p. induction q as [|k q' IH]; intros o p Hpq Hqp; [discriminate|].
  destruct p as [|k0 r]; [discriminate|].
  cbn [path_prefix] in Hpq, Hqp.
  destruct (String.eqb_spec k0 k) as [->|Hn].
  - rewrite String.eqb_refl in Hqp. cbn [andb] in Hpq, Hqp.
    destruct q' as [|k' q'']; [destruct r; discriminate|].
    destruct r as [|k1 r']; [discriminate|].
    rewrite set_path_deeper, !get_path_deeper, get_set_same.
    rewrite IH by assumption.
    destruct (Obj.get o k) as [[]|]; try apply get_path_empty_object.
    reflexivity.
  - assert (Hget : Obj.get (set_path o (k :: q') w) k0 = Obj.get o k0).
    { destruct q'; [|rewrite set_path_deeper]; now apply get_set_other. }
    destruct r as [|k1 r']; [exact Hget|].
    now rewrite !get_path_deeper, Hget.
Qed.

Lemma undo_fold (flat : obj) : undo flat = fold_left store_flat flat [].
Proof. reflexivity. Qed.

Lemma get_path_fold_other (flat acc : obj) (k : string) :
  forallb (fun k' => negb (clash k k')) (Obj.keys flat) = true ->
  get_path (fold_left store_flat flat acc) (JsString.split k ".")
  = get_path acc (JsString.split k ".").
Proof.
  revert acc. induction flat as [|[k' v'] flat IH]; intros acc H; [reflexivity|].
  cbn [Obj.keys map fst forallb] in H. cbn [fold_left].
  apply andb_true_iff in H as [Hc H]. rewrite (IH _ H).
  unfold store_flat. cbn [fst snd].
  apply negb_true_iff, orb_false_iff in Hc as [H1 H2].
  now apply get_path_set_path_other.
Qed.

(** In the object rebuilt from a flat mapping without clashing keys,
    every flat entry is found at the path its key spells. *)
Lemma undo_get_path (flat : obj) (k : string) (v : json) :
  conflict_free (Obj.keys flat) = true ->
  Obj.get flat k = Some v ->
  get_path (undo flat) (JsString.split k ".") = Some v.
Proof.
  rewrite undo_fold. generalize (@nil (string * json)) as acc.
  induction flat as [|[k' v'] flat IH]; intros acc Hcf Hget; [discriminate|].
  cbn [Obj.keys map fst conflict_free] in Hcf. cbn [Obj.get] in Hget.
  cbn [fold_left].
  apply andb_true_iff in Hcf as [Hhead Hcf].
  destruct (String.eqb_spec k k') as [->|Hn].
  - injection Hget as ->. rewrite (get_path_fold_other _ _ _ Hhead).
    unfold store_flat. cbn [fst snd].
    apply get_path_set_path_same, split_dot_nonempty.
  - now apply IH.
Qed.

(** ** The merge of one file *)

Section MergeFacts.
Context {V : Type}.
Implicit Types (o : list (string * V)) (k : string).

Lemma get_spread_absent o new k :
  ~ In k (Obj.keys new) -> Obj.get (Obj.spread o new) k = Obj.get o k.
Proof.
  unfold Obj.spread. revert o.
  induction new as [|[k' v'] new IH]; intros o H; simpl; [reflexivity|].
  simpl in H. rewrite IH by tauto.
  apply get_set_other. intros ->. tauto.
Qed.

Lemma get_omit_other o ks k :
  ~ In k ks -> Obj.get (Obj.omit o ks) k = Obj.get o k.
Proof.
  intros H. unfold Obj.omit.
  induction o as [|[k' v'] o IH]; simpl; [reflexivity|].
  destruct (existsb (String.eqb k') ks) eqn:E; simpl.
  - destruct (String.eqb_spec k k') as [->|Hn]; [|exact IH].
    exfalso. apply H. apply existsb_exists in E as (x & Hx & Ex).
    apply String.eqb_eq in Ex. now subst.
  - destruct (String.eqb_spec k k'); [reflexivity | exact IH].
Qed.

Lemma omit_nil o : Obj.omit o [] = o.
Proof.
  unfold Obj.omit. induction o as [|[k v] o IH]; simpl; [reflexivity|].
  f_equal. exact IH.
Qed.

Lemma keys_set_In o k k' (v : V) :
  In k' (Obj.keys (Obj.set o k v)) <-> k' = k \/ In k' (Obj.keys o).
Proof.
  induction o as [|[k0 v0] o IH]; simpl.
  - intuition congruence.
  - destruct (String.eqb_spec k k0) as [->|Hn]; simpl.
    + intuition congruence.
    + rewrite IH. intuition congruence.
Qed.

End MergeFacts.

Lemma newKeys_keys (translatedStrings : list TranslationResult) (k : string) :
  In k (Obj.keys (newKeys translatedStrings))
  -> In k (map result_key translatedStrings).
Proof.
  unfold newKeys.
  assert (G : forall acc,
             In k (Obj.keys
                     (fold_left
                        (fun acc cur =>
                           Obj.set acc (result_key cur) (JStr (translated cur)))
                        translatedStrings acc))
             -> In k (Obj.keys acc) \/ In k (map result_key translatedStrings)).
  { induction translatedStrings as [|r rs IH]; intros acc H; simpl in *.
    - now left.
    - apply IH in H as [H|H]; [|tauto].
      apply keys_set_In in H as [->|H]; tauto. }
  intros H. apply G in H as [[]|H]. exact H.
Qed.

Lemma read_store_same (fs : FS) (dir file : string) (content : obj) :
  read_file (store_file fs dir file content) dir file = Some content.
Proof.
  unfold read_file, store_file. now rewrite !get_set_same.
Qed.

(** The merged mapping keeps every existing entry that is not a deleted
    unused string, provided the provider answers for submitted keys only. *)
Lemma translatedFile_keeps (ty : FileType) (templateContent existing : obj)
    (deleteUnusedStrings : bool) (translatedStrings : list TranslationResult)
    (k : string) :
  let T := Obj.keys templateContent in
  let E := Obj.keys existing in
  (forall r, In r translatedStrings ->
             In (result_key r) (map key (stringsToTranslate ty templateContent E))) ->
  In k E ->
  In k T \/ deleteUnusedStrings = false ->
  Obj.get (translatedFile existing deleteUnusedStrings (unusedStrings T E)
             (newKeys translatedStrings)) k
  = Obj.get existing k.
Proof.
  intros T E Hprov HE Hcase. unfold translatedFile.
  rewrite get_spread_absent.
  - apply get_omit_other. destruct Hcase as [HT| ->]; [|tauto].
    destruct deleteUnusedStrings; [|tauto].
    rewrite In_unusedStrings. tauto.
  - intros Hnew. apply newKeys_keys in Hnew.
    apply in_map_iff in Hnew as (r & <- & Hr).
    apply Hprov in Hr. apply In_stringsToTranslate in Hr. tauto.
Qed.

Lemma contentOf_with_trace {P} (st : State P) events f :
  contentOf (with_trace st events) f = contentOf st f.
Proof. reflexivity. Qed.

Lemma existingTranslationsOf_with_trace {P} (st : State P) events files f :
  existingTranslationsOf (with_trace st events) files f
  = existingTranslationsOf st files f.
Proof. reflexivity. Qed.

Lemma existingKeys_eq {P} (st : State P) existingFiles templateFile :
  match find (fun f => String.eqb (name f) (name templateFile)) existingFiles with
  | Some f => Obj.keys (contentOf st f)
  | None => []
  end
  = Obj.keys (existingTranslationsOf st existingFiles templateFile).
Proof.
  unfold existingTranslationsOf. now destruct (find _ existingFiles).
Qed.

Section Incremental.
Context {P Matcher : Type}.
Variables (sourceLang : string) (deleteUnusedStrings : bool) (service : string).
Variable translationService : TranslationService P Matcher.
Variables (language : string) (existingFiles : list TranslationFile).
Variable templateFile : TranslationFile.
Variable st : State P.

Let existing : obj := existingTranslationsOf st existingFiles templateFile.
Let T := Obj.keys (contentOf st templateFile).
Let E := Obj.keys existing.
Let todo := stringsToTranslate (type templateFile) (contentOf st templateFile) E.
Let unused := unusedStrings T E.
Let answer :=
  service_translateStrings translationService todo
    (JsString.pop (JsString.split sourceLang "-"))
    (JsString.pop (JsString.split language "-")) (provider st).
Let submitted : State P :=
  with_provider
    (with_trace (with_trace st [EvTranslatingFile (name templateFile)])
       [EvSubmitted language (name templateFile) todo])
    (snd answer).

(** The step for one template file, run. *)
Lemma translateFile_run :
  translateFile sourceLang deleteUnusedStrings service translationService
    language existingFiles templateFile st
  = match fst answer with
    | inl message => Thrown (ProviderFailure message) submitted
    | inr translatedStrings =>
        let merged :=
          translatedFile existing deleteUnusedStrings unused
            (newKeys translatedStrings) in
        if String.eqb service "dryRun"
        then Returned tt
               (with_trace submitted
                  [report deleteUnusedStrings translatedStrings unused])
        else match Obj.get (disk st) language with
             | Some _ =>
                 Returned tt
                   (with_trace
                      (written submitted language (name templateFile)
                         (emitted (type templateFile) merged))
                      [report deleteUnusedStrings translatedStrings unused])
             | None => Thrown (NoSuchDirectory language) submitted
             end
    end.
Proof.
  unfold translateFile.
  unfold bind at 1. rewrite log_run.
  unfold bind at 1. unfold get_state.
  rewrite existingKeys_eq.
  match goal with
  | |- context [existingTranslationsOf ?s existingFiles templateFile] =>
      change (match find (fun f => String.eqb (name f) (name templateFile))
                      existingFiles
              with Some f => contentOf s f | None => [] end)
        with (existingTranslationsOf s existingFiles templateFile)
  end.
  rewrite !existingTranslationsOf_with_trace, !contentOf_with_trace.
  fold existing. fold E. fold T. fold todo. fold unused.
  unfold bind at 1. rewrite log_run.
  unfold bind at 1. unfold call. cbn [provider with_trace].
  fold answer.
  destruct (fst answer) as [message|translatedStrings]; [reflexivity|].
  cbv zeta.
  destruct (String.eqb service "dryRun"); [reflexivity|].
  cbn [negb]. unfold bind, writeFileSync. cbn [disk with_trace with_provider].
  destruct (Obj.get (disk st) language); reflexivity.
Qed.


End Incremental.



(** ** The source text of a natural template *)

(** C4 (as amended). Inconsistent keys in a natural template do not stop
    the run when the fix flag is absent: the report returns with the
    files, the cache and the provider as they were and performs no file
    operation.  The text submitted for a key of a natural template is the
    key itself, whatever value the file stores at that key: this holds of
    the items built for a natural template, and of the items that the
    step for a template file that is not key-based submits, however that
    step ends. *)
Theorem natural_source_text_is_the_key {P Matcher : Type} (sourceLang : string)
    (templateFiles : list TranslationFile) (st : State P) :
  (exists events,
      reportInconsistencies sourceLang false templateFiles st
      = Returned tt (with_trace st events)
      /\ file_operations events = [])
  /\ (forall templateContent existingKeys item,
        In item (stringsToTranslate natural templateContent existingKeys) ->
        value item = JStr (key item))
  /\ (forall deleteUnusedStrings service
             (translationService : TranslationService P Matcher)
             language existingFiles templateFile,
        type templateFile <> key_based ->
        exists items rest,
          trace (final (translateFile sourceLang deleteUnusedStrings service
                          translationService language existingFiles
                          templateFile st))
          = trace st
            ++ EvTranslatingFile (name templateFile)
               :: EvSubmitted language (name templateFile) items :: rest
          /\ forall item, In item items -> value item = JStr (key item)).
Proof.
  split; [|split].
  - unfold reportInconsistencies, bind.
    destruct (findInconsistentFiles_run
                (filter (fun f => FileType_eqb (type f) natural) templateFiles) st)
      as (names & events & -> & Hev).
    apply filter_none in Hev.
    destruct (Nat.ltb 0 (List.length names)).
    + rewrite !log_run, !with_trace_app. eexists. split; [reflexivity|].
      unfold file_operations in *. rewrite filter_app, Hev. reflexivity.
    + rewrite !log_run, !with_trace_app. eexists. split; [reflexivity|].
      unfold file_operations in *. rewrite filter_app, Hev. reflexivity.
  - intros tc ek item Hin. unfold stringsToTranslate in Hin.
    apply in_map_iff in Hin as (k & <- & _). reflexivity.
  - intros deleteUnusedStrings service translationService language
      existingFiles templateFile Hty.
    rewrite translateFile_run.
    set (items := stringsToTranslate _ _ _).
    assert (Hitems : forall item, In item items -> value item = JStr (key item)).
    { intros item Hin. unfold items, stringsToTranslate in Hin.
      apply in_map_iff in Hin as (k & <- & _). cbn [value key].
      destruct (type templateFile); [congruence | reflexivity | reflexivity]. }
    exists items.
    destruct (fst (service_translateStrings _ _ _ _ _)) as [message|answer].
    { exists []. split; [|exact Hitems].
      cbn [final with_provider with_trace trace]. now rewrite <- app_assoc. }
    cbv zeta. destruct (String.eqb service "dryRun").
    { eexists. split; [|exact Hitems].
      cbn [final with_provider with_trace trace]. rewrite <- !app_assoc.
      reflexivity. }
    destruct (Obj.get (disk st) language).
    + eexists. split; [|exact Hitems].
      cbn [final written with_provider with_trace trace]. rewrite <- !app_assoc.
      reflexivity.
    + exists []. split; [|exact Hitems].
      cbn [final with_provider with_trace trace]. now rewrite <- app_assoc.
Qed.

(** C4, as stated, fails: the natural template [ui.json] stores
    "Guardar archivo" at the key "Save file"; without the fix flag the
    run completes and what it submits for that key is "Save file". *)
Lemma stored_value_is_not_submitted :
  let templateContent := [("Save file", JStr "Guardar archivo")] in
  let run :=
    translate Samples.serviceMap Samples.matcherMap "en" false auto false
      "google-translate" "icu" None (start Samples.inconsistent_ui tt) in
  let submitted := [{| key := "Save file"; value := JStr "Save file" |}] in
  read_file Samples.inconsistent_ui "en" "ui.json" = Some templateContent
  /\ detectFileType templateContent = natural
  /\ inconsistentKeys templateContent = ["Save file"]
  /\ (exists st, run = Returned tt st)
  /\ In (EvSubmitted "fr" "ui.json" submitted) (trace (final run))
  /\ ~ (forall item, In item submitted ->
          Obj.get templateContent (key item) = Some (value item)).
Proof.
  cbv zeta.
  split; [vm_compute; reflexivity|].
  split; [vm_compute; reflexivity|].
  split; [vm_compute; reflexivity|].
  split; [eexists; vm_compute; reflexivity|].
  split; [vm_compute; tauto|].
  intros H. specialize (H _ (or_introl eq_refl)). vm_compute in H. discriminate.
Qed.

(** ** Unsupported languages *)

Section Unsupported.
Context {P Matcher : Type}.
Variable serviceMap : list (string * TranslationService P Matcher).
Variable matcherMap : list (string * Matcher).
Variables (sourceLang : string) (deleteUnusedStrings : bool) (fileType : FileType).
Variables (fixInconsistencies : bool) (service matcher : string).
Variable config : option string.

Let quiet (e : Event) : bool := negb (is_language_event e).

Lemma frame_provider (st : State P) (p : P) allowed :
  frame false allowed st (with_provider st p).
Proof.
  repeat split; auto; [discriminate|]. exists []. simpl. now rewrite app_nil_r.
Qed.

(** A target language the provider does not list costs one message. *)
Lemma translateLanguage_skips (translationService : TranslationService P Matcher)
    availableLanguages templateFiles language (st : State P) :
  ~ In language availableLanguages ->
  translateLanguage sourceLang deleteUnusedStrings fileType service
    translationService availableLanguages templateFiles language st
  = Returned tt (with_trace st [EvSkipping language]).
Proof.
  intros H. unfold translateLanguage.
  apply includes_not_In in H. rewrite H. reflexivity.
Qed.

(** C10. When the list the provider gives after its initialisation
    lacks the source language, [translate] ends by throwing: no file
    has changed and nothing of the loop over the target languages has
    happened.  A target language missing from that list is only
    skipped: the loop prints one message and goes on with the next
    language. *)
Theorem unsupported_source_language_aborts (st : State P)
    (translationService : TranslationService P Matcher) (theMatcher : Matcher)
    (available : list string) :
  Obj.get serviceMap service = Some translationService ->
  Obj.get matcherMap matcher = Some theMatcher ->
  fst (service_getAvailableLanguages translationService
         (snd (service_initialize translationService config theMatcher
                 (provider st))))
  = inr available ->
  ~ In sourceLang available ->
  (exists e st',
      translate serviceMap matcherMap sourceLang deleteUnusedStrings fileType
        fixInconsistencies service matcher config st = Thrown e st'
      /\ frame false quiet st st')
  /\ (forall templateFiles language rest (st1 : State P),
        ~ In language available ->
        forEach (language :: rest)
          (translateLanguage sourceLang deleteUnusedStrings fileType service
             translationService available templateFiles) st1
        = forEach rest
            (translateLanguage sourceLang deleteUnusedStrings fileType service
               translationService available templateFiles)
            (with_trace st1 [EvSkipping language])).
Proof.
  intros Hsvc Hm Hav Hnot. split.
  - unfold translate. unfold bind at 1. unfold getAvailableLanguages.
    destruct (negb (Obj.includes (Obj.keys (disk st)) sourceLang)).
    { eexists _, _. split; [reflexivity | apply frame_refl]. }
    rewrite Hsvc, Hm. unfold bind at 1.
    destruct (framed_loadTranslations true quiet false sourceLang fileType
                (fun _ => eq_refl) st) as [Hf Hn].
    destruct (loadTranslations sourceLang fileType st) as [files st1|e st1|c st1];
      simpl in Hf, Hn; [| |contradiction].
    2:{ eexists _, _. split; [reflexivity|].
        eapply frame_weaken; [| |exact Hf]; auto. }
    assert (Hf1 : frame false quiet st st1)
      by (eapply frame_weaken; [| |exact Hf]; auto).
    destruct Hf as (_ & Hp & _). specialize (Hp eq_refl).
    destruct (Nat.eqb (List.length files) 0).
    { eexists _, _. split; [reflexivity | exact Hf1]. }
    unfold bind at 1. rewrite log_run.
    unfold bind at 1. rewrite forEach_log, with_trace_app.
    unfold bind at 1. rewrite log_run, with_trace_app.
    unfold bind at 1. unfold call at 1. cbn [provider with_trace].
    rewrite Hp.
    set (events := _ ++ [EvInitializing _]).
    assert (Hq : forallb quiet events = true).
    { unfold events. rewrite !forallb_app. simpl.
      rewrite andb_true_r. apply forallb_forall.
      intros e He. apply in_map_iff in He as (f & <- & _). reflexivity. }
    destruct (fst (service_initialize translationService config theMatcher
                     (provider st))) as [message|[]] eqn:Hinit.
    { eexists _, _. split; [reflexivity|].
      eapply frame_trans; [exact Hf1|].
      eapply frame_trans; [apply (frame_with_trace false quiet st1 events Hq)|].
      apply (frame_provider (with_trace st1 events)). }
    unfold bind at 1. unfold call at 1. cbn [provider]. rewrite Hav.
    unfold bind at 1. rewrite log_run.
    apply includes_not_In in Hnot. rewrite Hnot. cbn [negb].
    eexists _, _. split; [reflexivity|].
    eapply frame_trans; [exact Hf1|].
    eapply frame_trans; [apply (frame_with_trace false quiet st1 events Hq)|].
    eapply frame_trans; [apply (frame_provider (with_trace st1 events))|].
    eapply frame_trans; [apply frame_provider|].
    apply frame_with_trace. reflexivity.
  - intros templateFiles language rest st1 H. simpl. unfold bind.
    now rewrite translateLanguage_skips.
Qed.

End Unsupported.

Lemma unsupported_source_language_aborts_witness :
  exists e st',
    translate Samples.serviceMap Samples.matcherMap "es" false auto false
      "google-translate" "icu" None
      (start (("es", [("a.json", [("k", JStr "v")])]) :: Samples.up_to_date) tt)
    = Thrown e st'
    /\ frame false (fun e => negb (is_language_event e))
         (start (("es", [("a.json", [("k", JStr "v")])]) :: Samples.up_to_date) tt) st'.
Proof.
  apply (unsupported_source_language_aborts Samples.serviceMap Samples.matcherMap
           "es" false auto false "google-translate" "icu" None
           (start (("es", [("a.json", [("k", JStr "v")])]) :: Samples.up_to_date) tt)
           Samples.tagged tt ["en"; "fr"; "de"]).
  - reflexivity.
  - reflexivity.
  - reflexivity.
  - simpl. intros [H|[H|[H|[]]]]; discriminate.
Defined.

(** ** Array leaves, aliasing and the dry run *)

(** C5. The emitted content of a key-based file is [flatten.undo] of the
    merged mapping and nothing more: [stringToArray] is not applied on
    the way.  The template [{"items": ["a", "b"]}], with a provider that
    returns every text as it is, gives a target file whose "items" is the
    joined string, where [stringToArray] would have given back the array;
    natural content is written as it is merged. *)
Theorem array_leaf_is_written_joined :
  let run :=
    translate Samples.serviceMap Samples.matcherMap "en" false auto false
      "verbatim" "icu" None (start Samples.list_items tt) in
  read_file Samples.list_items "en" "list.json"
  = Some [("items", JArr [JStr "a"; JStr "b"])]
  /\ (exists st, run = Returned tt st)
  /\ read_file (disk (final run)) "fr" "list.json"
     = Some [("items", JStr "a <sep /> b")]
  /\ stringToArray [("items", JStr "a <sep /> b")]
     = Some [("items", JArr [JStr "a"; JStr "b"])]
  /\ (forall merged, emitted key_based merged = undo merged)
  /\ (forall merged, emitted natural merged = merged).
Proof.
  cbv zeta.
  split; [vm_compute; reflexivity|].
  split; [eexists; vm_compute; reflexivity|].
  split; [vm_compute; reflexivity|].
  split; [vm_compute; reflexivity|].
  split; reflexivity.
Qed.

(** C6. [originalContent] is the cached object that [arrayToString]
    updates: after loading the key-based file [{"items": ["a", "b"]}] its
    [originalContent] holds the joined string while the file still holds
    the array.  The [content] of a natural file is that same cached
    object, and the reload done by the fix flag can update it after the
    load: with the type forced to natural, the content of [list.json]
    reads the array before the consistency report and the joined string
    after it. *)
Theorem originalContent_is_updated_in_place :
  (exists file st',
      loadTranslations "en" auto (start Samples.list_items tt)
      = Returned [file] st'
      /\ type file = key_based
      /\ read_file (disk st') "en" "list.json"
         = Some [("items", JArr [JStr "a"; JStr "b"])]
      /\ originalContentOf st' file = [("items", JStr "a <sep /> b")])
  /\ (exists file st1 st2,
        loadTranslations "en" natural (start Samples.list_items tt)
        = Returned [file] st1
        /\ contentOf st1 file = [("items", JArr [JStr "a"; JStr "b"])]
        /\ reportInconsistencies "en" true [file] st1 = Returned tt st2
        /\ contentOf st2 file = [("items", JStr "a <sep /> b")]).
Proof.
  split.
  - eexists _, _.
    split; [vm_compute; reflexivity|].
    split; [vm_compute; reflexivity|].
    split; vm_compute; reflexivity.
  - eexists _, _, _.
    split; [vm_compute; reflexivity|].
    split; [vm_compute; reflexivity|].
    split; vm_compute; reflexivity.
Qed.

(** C7. The dry run only guards the write of the target file.  With the
    deletion flag it still unlinks [fr/gone.json], and with the fix flag
    it still rewrites the inconsistent source file [en/ui.json]. *)
Theorem dry_run_changes_files :
  let deleting :=
    translate Samples.serviceMap Samples.matcherMap "en" true auto false
      "dryRun" "icu" None (start Samples.stale_target tt) in
  let fixing :=
    translate Samples.serviceMap Samples.matcherMap "en" false auto true
      "dryRun" "icu" None (start Samples.inconsistent_ui tt) in
  (exists st, deleting = Returned tt st)
  /\ read_file Samples.stale_target "fr" "gone.json" = Some [("old", JStr "vieux")]
  /\ read_file (disk (final deleting)) "fr" "gone.json" = None
  /\ file_operations (trace (final deleting)) = [FsUnlink "fr" "gone.json"]
  /\ (exists st, fixing = Returned tt st)
  /\ file_operations (trace (final fixing))
     = [FsWrite "en" "ui.json" [("Save file", JStr "Save file")]]
  /\ read_file (disk (final fixing)) "en" "ui.json"
     = Some [("Save file", JStr "Save file")].
Proof.
  cbv zeta.
  split; [eexists; vm_compute; reflexivity|].
  split; [vm_compute; reflexivity|].
  split; [vm_compute; reflexivity|].
  split; [vm_compute; reflexivity|].
  split; [eexists; vm_compute; reflexivity|].
  split; vm_compute; reflexivity.
Qed.

(** ** Splitting a joined string *)

Lemma append_assoc (a b c : string) : ((a ++ b) ++ c)%string = (a ++ b ++ c)%string.
Proof. induction a as [|x a IH]; simpl; [reflexivity | now rewrite IH]. Qed.

Lemma split_from_skip (sep x rest : string) :
  JsString.split_from sep (String.length x) (x ++ rest)
  = JsString.split_from sep 0 rest.
Proof.
  induction x as [|c x IH]; [reflexivity|].
  cbn [String.length String.append JsString.split_from]. exact IH.
Qed.

Lemma prefix_append (sep rest : string) : String.prefix sep (sep ++ rest) = true.
Proof.
  induction sep as [|c sep IH]; simpl; [now destruct rest|].
  destruct (ascii_dec c c); [exact IH | congruence].
Qed.

Lemma no_early_match_tail (sep : string) (c : ascii) (e : string) :
  no_early_match sep (String c e) -> no_early_match sep e.
Proof.
  intros H u v rest -> Hv. apply (H (String c u) v rest); [reflexivity | exact Hv].
Qed.

Lemma split_from_piece (sep e rest : string) :
  sep <> EmptyString -> no_early_match sep e ->
  JsString.split_from sep 0 (e ++ sep ++ rest)
  = e :: JsString.split_from sep 0 rest.
Proof.
  intros Hsep. induction e as [|c e IH]; intros Hno.
  - destruct sep as [|c0 sep']; [congruence|].
    cbn [String.append]. cbn [JsString.split_from].
    change (String c0 (sep' ++ rest)) with (String c0 sep' ++ rest)%string.
    rewrite prefix_append.
    replace (String.length (String c0 sep') - 1) with (String.length sep')
      by (cbn [String.length]; lia).
    now rewrite split_from_skip.
  - cbn [String.append]. cbn [JsString.split_from].
    change (String c (e ++ sep ++ rest)) with (String c e ++ sep ++ rest)%string.
    rewrite (Hno EmptyString (String c e) rest eq_refl) by discriminate.
    rewrite IH by (eapply no_early_match_tail; eauto). reflexivity.
Qed.

Lemma split_from_whole (sep e : string) :
  JsString.includes e sep = false -> JsString.split_from sep 0 e = [e].
Proof.
  induction e as [|c e IH]; [reflexivity|].
  cbn [JsString.includes JsString.split_from].
  destruct (String.prefix sep (String c e)); [discriminate|].
  intros H. now rewrite IH.
Qed.

Lemma includes_append (e tail sep : string) :
  JsString.includes (e ++ tail) sep = false -> JsString.includes tail sep = false.
Proof.
  induction e as [|c e IH]; [trivial|].
  cbn [String.append JsString.includes].
  destruct (String.prefix sep (String c (e ++ tail))); [discriminate | exact IH].
Qed.

(** Splitting what was joined gives back the pieces, when no occurrence
    of the separator begins inside a piece. *)
Lemma split_from_join (sep : string) (pieces : list string) :
  sep <> EmptyString -> pieces <> [] ->
  Forall (no_early_match sep) pieces ->
  JsString.includes (last pieces EmptyString) sep = false ->
  JsString.split_from sep 0 (JsString.join pieces sep) = pieces.
Proof.
  intros Hsep Hne Hall Hlast. unfold JsString.join.
  induction pieces as [|e pieces IH]; [congruence|].
  destruct pieces as [|e' pieces].
  - simpl. now apply split_from_whole.
  - change (String.concat sep (e :: e' :: pieces))
      with (e ++ sep ++ String.concat sep (e' :: pieces))%string.
    inversion Hall as [|? ? He Hall']; subst.
    rewrite split_from_piece by assumption.
    rewrite IH; [reflexivity | discriminate | exact Hall' | exact Hlast].
Qed.

Lemma includes_middle (u v sep : string) :
  String.prefix sep v = true -> JsString.includes (u ++ v) sep = true.
Proof.
  intros H. induction u as [|c u IH]; cbn [String.append].
  - destruct v; cbn [JsString.includes]; now rewrite H.
  - cbn [JsString.includes]. rewrite IH.
    destruct (String.prefix sep (String c (u ++ v))); reflexivity.
Qed.

Lemma dotless_no_early_match (k : string) :
  JsString.includes k "." = false -> no_early_match "." k.
Proof.
  intros Hk u v rest -> Hv.
  destruct (String.prefix "." (v ++ "." ++ rest)) eqn:E; [|reflexivity].
  destruct v as [|c v]; [congruence|].
  assert (String.prefix "." (String c v) = true) as Hp.
  { cbn [String.append] in E. apply prefix_char in E as [s' E].
    injection E as <- _. apply prefix_char. eauto. }
  rewrite (includes_middle u _ _ Hp) in Hk. discriminate.
Qed.

Ltac decide_chars H :=
  repeat (cbn [String.prefix String.append] in H;
          match type of H with
          | context [ascii_dec ?a ?b] =>
              let E := fresh "E" in
              destruct (ascii_dec a b) as [E|E];
              [ first [subst b | discriminate E | clear E]
              | first [discriminate H | congruence] ]
          end);
  cbn [String.prefix String.append] in H.

Lemma sepKey_overlap (v rest : string) :
  v <> EmptyString ->
  String.prefix sepKey (v ++ sepKey ++ rest) = true ->
  String.prefix " <sep />" v = true.
Proof.
  intros Hv H. unfold sepKey in H.
  destruct v as [|c1 v]; [congruence|].
  do 7 (destruct v as [|? v]; [decide_chars H; discriminate H|]).
  decide_chars H. clear H. cbn [String.prefix].
  repeat match goal with
         | |- context [ascii_dec ?a ?b] =>
             destruct (ascii_dec a b) as [_|E]; [|congruence]
         end.
  now destruct v.
Qed.

Lemma sep_safe_no_early_match (e : string) :
  JsString.includes e " <sep />" = false -> no_early_match sepKey e.
Proof.
  intros He u v rest -> Hv.
  destruct (String.prefix sepKey (v ++ sepKey ++ rest)) eqn:E; [|reflexivity].
  apply sepKey_overlap in E; [|exact Hv].
  rewrite (includes_middle u _ _ E) in He. discriminate.
Qed.

Lemma prefix_shorter (a b s : string) :
  String.prefix (a ++ b) s = true -> String.prefix a s = true.
Proof.
  revert s. induction a as [|c a IH]; intros s; [now destruct s|].
  destruct s as [|c' s]; cbn [String.append String.prefix]; [trivial|].
  destruct (ascii_dec c c'); [apply IH | trivial].
Qed.

Lemma includes_shorter (e a b : string) :
  JsString.includes e a = false -> JsString.includes e (a ++ b) = false.
Proof.
  induction e as [|c e IH]; cbn [JsString.includes].
  - destruct (String.prefix a "") eqn:E; [discriminate|]. intros _.
    destruct (String.prefix (a ++ b) "") eqn:E'; [|reflexivity].
    apply prefix_shorter in E'. congruence.
  - destruct (String.prefix a (String c e)) eqn:E; [discriminate|]. intros H.
    destruct (String.prefix (a ++ b) (String c e)) eqn:E'; [|now apply IH].
    apply prefix_shorter in E'. congruence.
Qed.

Lemma sep_safe_whole (e : string) :
  JsString.includes e " <sep />" = false -> JsString.includes e sepKey = false.
Proof. apply (includes_shorter e " <sep />" " "). Qed.

(** ** Flattening and re-nesting *)

Lemma json_induction (Q : json -> Prop) :
  Q JNull -> (forall b, Q (JBool b)) -> (forall r, Q (JNum r)) ->
  (forall s, Q (JStr s)) -> (forall items, Q (JArr items)) ->
  (forall props, Forall (fun kv => Q (snd kv)) props -> Q (JObj props)) ->
  forall v, Q v.
Proof.
  intros Hnull Hbool Hnum Hstr Harr Hobj.
  fix IH 1. intros v.
  destruct v as [| | | | |props];
    [exact Hnull | apply Hbool | apply Hnum | apply Hstr | apply Harr |].
  apply Hobj. induction props as [|[k v] props IHprops]; constructor.
  - apply IH.
  - exact IHprops.
Qed.

Lemma nodupb_NoDup (l : list string) : nodupb l = true <-> NoDup l.
Proof.
  induction l as [|k l IH]; simpl.
  - split; [constructor | reflexivity].
  - rewrite andb_true_iff, negb_true_iff, includes_not_In, IH. split.
    + intros [H1 H2]. now constructor.
    + intros H. inversion H; subst. tauto.
Qed.

Lemma leaves_object (props : list (string * json)) :
  leaves (JObj props)
  = flat_map (fun kv => map (under (fst kv)) (leaves (snd kv))) props.
Proof. reflexivity. Qed.

Lemma leaves_leaf (v : json) :
  (forall props, v <> JObj props) -> leaves v = [([], v)].
Proof. destruct v; try reflexivity. intros H. now destruct (H props). Qed.

Lemma nestable_object_inv (k : string) (v : json) (props : obj) :
  nestable_object ((k, v) :: props) = true ->
  ~ In k (Obj.keys props) /\ dotless k = true /\ nestable v = true
  /\ nestable_object props = true.
Proof.
  unfold nestable_object. cbn [Obj.keys map fst snd nodupb forallb].
  rewrite !andb_true_iff, negb_true_iff, includes_not_In. tauto.
Qed.

Lemma nestable_inv (props : obj) :
  nestable (JObj props) = true -> props <> [] /\ nestable_object props = true.
Proof.
  cbn [nestable]. unfold nestable_object, Obj.keys.
  rewrite !andb_true_iff, negb_true_iff.
  intros [[H1 H2] H3]. split; [|tauto]. now destruct props.
Qed.

Lemma leaves_nonempty (v : json) : nestable v = true -> leaves v <> [].
Proof.
  induction v as [| | | | |props IH] using json_induction; try discriminate.
  intros H. apply nestable_inv in H as [Hne H].
  destruct props as [|[k v] props]; [congruence|].
  apply nestable_object_inv in H as (_ & _ & Hv & _).
  inversion IH as [|? ? IHv _]; subst. cbn [snd] in IHv. specialize (IHv Hv).
  rewrite leaves_object. cbn [flat_map fst snd].
  destruct (leaves v); [congruence | discriminate].
Qed.

Lemma store_leaf_under (b : obj) (k : string) (pl : list string * json) :
  fst pl <> [] ->
  store_leaf b (under k pl)
  = Obj.set b k
      (JObj (store_leaf
               (match Obj.get b k with Some (JObj props) => props | _ => [] end)
               pl)).
Proof.
  destruct pl as [[|k' r] v]; cbn [fst]; [congruence|]. intros _. reflexivity.
Qed.

(** Storing the leaves of one member builds that member in place. *)
Lemma fold_store_under (k : string) (es : list (list string * json)) (b : obj) :
  es <> [] -> (forall e, In e es -> fst e <> []) ->
  fold_left store_leaf (map (under k) es) b
  = Obj.set b k
      (JObj (fold_left store_leaf es
               (match Obj.get b k with Some (JObj props) => props | _ => [] end))).
Proof.
  revert b. induction es as [|e es IH]; intros b Hne Hpaths; [congruence|].
  cbn [map fold_left].
  rewrite store_leaf_under by (apply Hpaths; now left).
  destruct es as [|e' es]; [reflexivity|].
  rewrite IH; [|discriminate|intros; apply Hpaths; now right].
  now rewrite get_set_same, set_set.
Qed.

Lemma leaves_object_paths (props : obj) (e : list string * json) :
  In e (leaves (JObj props)) -> fst e <> [].
Proof.
  rewrite leaves_object, in_flat_map. intros ((k, v) & _ & H).
  apply in_map_iff in H as (pl & <- & _). discriminate.
Qed.

Lemma fold_store_leaves (v : json) :
  nestable v = true ->
  forall (b : obj) (k : string),
    ~ In k (Obj.keys b) ->
    fold_left store_leaf (map (under k) (leaves v)) b = b ++ [(k, v)].
Proof.
  induction v as [| | | | |props IH] using json_induction;
    try (intros _ base k Hk; cbn [leaves map fold_left]; unfold store_leaf, under;
         cbn [fst snd set_path]; now apply set_absent).
  intros Hn b k Hk.
  pose proof (leaves_nonempty _ Hn) as Hne.
  apply nestable_inv in Hn as [_ Hn].
  rewrite fold_store_under;
    [|exact Hne|intros e He; eapply leaves_object_paths; exact He].
  apply get_None in Hk as Hget. rewrite Hget.
  rewrite set_absent by exact Hk.
  enough (E : fold_left store_leaf (leaves (JObj props)) [] = props)
    by now rewrite E.
  (* the members, one after the other *)
  rewrite leaves_object.
  assert (G : forall done,
             (forall k', In k' (Obj.keys props) -> ~ In k' (Obj.keys done)) ->
             fold_left store_leaf
               (flat_map (fun kv => map (under (fst kv)) (leaves (snd kv))) props)
               done
             = done ++ props).
  { clear Hne Hget. induction props as [|[k' v'] props IHprops]; intros done Hd.
    - cbn. now rewrite app_nil_r.
    - apply nestable_object_inv in Hn as (Hk' & _ & Hv' & Hn).
      inversion IH as [|? ? IHv IHrest]; subst. cbn [snd] in IHv.
      cbn [flat_map fst snd]. rewrite fold_left_app.
      rewrite IHv; [|exact Hv'|apply Hd; now left].
      rewrite IHprops; [now rewrite <- app_assoc|exact IHrest|exact Hn|].
      intros k0 Hk0. rewrite keys_app, in_app_iff. cbn.
      intros [H|[<-|[]]]; [|contradiction].
      eapply Hd; [right; exact Hk0 | exact H]. }
  apply (G []). intros ? _ [].
Qed.

(** Storing every leaf of a nestable object at its path rebuilds it. *)
Lemma fold_store_object (o : obj) :
  nestable_object o = true ->
  fold_left store_leaf (leaves (JObj o)) [] = o.
Proof.
  intros Hn. rewrite leaves_object.
  enough (G : forall done,
             (forall k', In k' (Obj.keys o) -> ~ In k' (Obj.keys done)) ->
             fold_left store_leaf
               (flat_map (fun kv => map (under (fst kv)) (leaves (snd kv))) o)
               done
             = done ++ o) by (apply (G []); intros ? _ []).
  induction o as [|[k v] o IH]; intros done Hd.
  - cbn. now rewrite app_nil_r.
  - apply nestable_object_inv in Hn as (Hk & _ & Hv & Hn).
    cbn [flat_map fst snd]. rewrite fold_left_app.
    rewrite fold_store_leaves; [|exact Hv|apply Hd; now left].
    rewrite IH; [now rewrite <- app_assoc|exact Hn|].
    intros k0 Hk0. rewrite keys_app, in_app_iff. cbn.
    intros [H|[<-|[]]]; [|contradiction].
    eapply Hd; [right; exact Hk0 | exact H].
Qed.

Lemma dotless_includes (k : string) :
  dotless k = true <-> JsString.includes k "." = false.
Proof. unfold dotless. now rewrite negb_true_iff. Qed.

Lemma last_In {A} (l : list A) (d : A) : l <> [] -> In (last l d) l.
Proof.
  induction l as [|a l IH]; [congruence|]. intros _.
  destruct l as [|b l]; [now left|]. right. apply IH. discriminate.
Qed.

(** A path of dotless keys is what its dot-joined key splits into. *)
Lemma split_join_path (path : list string) :
  path <> [] -> forallb dotless path = true ->
  JsString.split (JsString.join path ".") "." = path.
Proof.
  intros Hne Hall. unfold JsString.split.
  rewrite forallb_forall in Hall.
  apply split_from_join; [discriminate | exact Hne | |].
  - apply Forall_forall. intros k Hk.
    apply dotless_no_early_match, dotless_includes, Hall, Hk.
  - apply dotless_includes, Hall, last_In, Hne.
Qed.

Lemma leaves_paths_dotless (v : json) :
  nestable v = true ->
  forall e, In e (leaves v) -> forallb dotless (fst e) = true.
Proof.
  induction v as [| | | | |props IH] using json_induction;
    try (intros _ e [<-|[]]; reflexivity).
  intros Hn e He. apply nestable_inv in Hn as [_ Hn].
  rewrite leaves_object in He. apply in_flat_map in He as ((k, v) & Hkv & He).
  apply in_map_iff in He as (pl & <- & Hpl). cbn [under fst snd forallb] in *.
  rewrite Forall_forall in IH. specialize (IH _ Hkv). cbn [snd] in IH.
  unfold nestable_object in Hn. apply andb_true_iff in Hn as [_ Hn].
  rewrite forallb_forall in Hn. specialize (Hn _ Hkv). cbn [fst snd] in Hn.
  apply andb_true_iff in Hn as [Hk Hv].
  rewrite Hk. cbn [andb]. now apply IH.
Qed.

Lemma object_paths_dotless (o : obj) :
  nestable_object o = true ->
  forall e, In e (leaves (JObj o)) -> fst e <> [] /\ forallb dotless (fst e) = true.
Proof.
  intros Hn e He. split; [eapply leaves_object_paths; exact He|].
  rewrite leaves_object in He. apply in_flat_map in He as ((k, v) & Hkv & He).
  apply in_map_iff in He as (pl & <- & Hpl). cbn [under fst snd forallb] in *.
  unfold nestable_object in Hn. apply andb_true_iff in Hn as [_ Hn].
  rewrite forallb_forall in Hn. specialize (Hn _ Hkv). cbn [fst snd] in Hn.
  apply andb_true_iff in Hn as [Hk Hv].
  rewrite Hk. cbn [andb]. eapply leaves_paths_dotless; eauto.
Qed.

Lemma NoDup_map_injective_on {A B} (f : A -> B) (l : list A) :
  (forall x y, In x l -> In y l -> f x = f y -> x = y) ->
  NoDup l -> NoDup (map f l).
Proof.
  induction l as [|a l IH]; intros Hinj Hnd; cbn; [constructor|].
  inversion Hnd as [|? ? Ha Hl]; subst. constructor.
  - intros Hin. apply in_map_iff in Hin as (x & Hx & Hxl).
    assert (x = a) by (apply Hinj; [now right | now left | exact Hx]).
    now subst.
  - apply IH; [|exact Hl]. intros x y Hx Hy. apply Hinj; now right.
Qed.

Lemma members_paths_NoDup (props : obj) :
  Forall (fun kv => nestable (snd kv) = true -> NoDup (map fst (leaves (snd kv)))) props ->
  nestable_object props = true ->
  NoDup (map fst (leaves (JObj props))).
Proof.
  rewrite leaves_object.
  induction props as [|[k v] props IHprops]; intros IH Hn; [constructor|].
  apply nestable_object_inv in Hn as (Hk & _ & Hv & Hn).
  inversion IH as [|? ? IHv IHrest]; subst. cbn [snd] in IHv.
  cbn [flat_map fst snd]. rewrite map_app. apply NoDup_app.
  - rewrite map_map. cbn [under fst].
    rewrite <- (map_map fst (cons k)).
    apply NoDup_map_injective_on; [intros x y _ _ [= ->]; reflexivity | auto].
  - now apply IHprops.
  - intros p Hp Hp'.
    apply in_map_iff in Hp as (e & <- & He).
    apply in_map_iff in He as (pl & <- & _).
    apply in_map_iff in Hp' as (e' & Heq & He').
    apply in_flat_map in He' as ((k', v') & Hkv' & He').
    apply in_map_iff in He' as (pl' & <- & _).
    cbn [under fst] in Heq. injection Heq as -> _.
    apply Hk. change k with (fst (k, v')). now apply in_map.
Qed.

Lemma leaves_paths_NoDup (v : json) :
  nestable v = true -> NoDup (map fst (leaves v)).
Proof.
  induction v as [| | | | |props IH] using json_induction;
    try (intros _; cbn; constructor; [intros [] | constructor]).
  intros Hn. apply nestable_inv in Hn as [_ Hn].
  now apply members_paths_NoDup.
Qed.

Lemma object_paths_NoDup (o : obj) :
  nestable_object o = true -> NoDup (map fst (leaves (JObj o))).
Proof.
  intros Hn. apply members_paths_NoDup; [|exact Hn].
  apply Forall_forall. intros kv _. apply leaves_paths_NoDup.
Qed.

(** The flat keys of a nestable object are distinct. *)
Lemma flat_keys_NoDup (o : obj) :
  nestable_object o = true ->
  NoDup (Obj.keys (map flat_entry (leaves (JObj o)))).
Proof.
  intros Hn. unfold Obj.keys. rewrite map_map. cbn [flat_entry fst].
  rewrite <- (map_map fst (fun p => JsString.join p ".")).
  apply NoDup_map_injective_on; [|now apply object_paths_NoDup].
  intros p q Hp Hq Heq.
  apply in_map_iff in Hp as (e & <- & He).
  apply in_map_iff in Hq as (e' & <- & He').
  destruct (object_paths_dotless o Hn e He) as [Hne Hd].
  destruct (object_paths_dotless o Hn e' He') as [Hne' Hd'].
  rewrite <- (split_join_path (fst e)), <- (split_join_path (fst e')) by assumption.
  now rewrite Heq.
Qed.

Lemma fold_set_fresh (l acc : obj) :
  NoDup (Obj.keys l) ->
  (forall k, In k (Obj.keys l) -> ~ In k (Obj.keys acc)) ->
  fold_left (fun acc kv => Obj.set acc (fst kv) (snd kv)) l acc = acc ++ l.
Proof.
  revert acc. induction l as [|[k v] l IH]; intros acc Hnd Hfresh; cbn.
  - now rewrite app_nil_r.
  - cbn in Hnd. inversion Hnd as [|? ? Hk Hl]; subst.
    rewrite set_absent by (apply Hfresh; now left).
    rewrite IH; [now rewrite <- app_assoc | exact Hl |].
    intros k0 Hk0. rewrite keys_app, in_app_iff. cbn.
    intros [H|[<-|[]]]; [|contradiction].
    eapply Hfresh; [right; exact Hk0 | exact H].
Qed.

Lemma convert_flat_entries (o : obj) :
  nestable_object o = true -> convert o = map flat_entry (leaves (JObj o)).
Proof.
  intros Hn. unfold convert.
  transitivity (fold_left (fun acc kv => Obj.set acc (fst kv) (snd kv))
                  (map flat_entry (leaves (JObj o))) []).
  - generalize (@nil (string * json)).
    induction (leaves (JObj o)) as [|e l IH]; intros acc; [reflexivity|].
    cbn [map fold_left]. apply IH.
  - rewrite fold_set_fresh; [reflexivity | now apply flat_keys_NoDup |].
    intros ? _ [].
Qed.

Lemma undo_flat_entries (o : obj) :
  nestable_object o = true ->
  undo (map flat_entry (leaves (JObj o))) = fold_left store_leaf (leaves (JObj o)) [].
Proof.
  intros Hn. rewrite undo_fold.
  pose proof (object_paths_dotless o Hn) as Hpaths.
  generalize (@nil (string * json)).
  induction (leaves (JObj o)) as [|e l IH]; intros acc; [reflexivity|].
  cbn [map fold_left]. rewrite IH by (intros; apply Hpaths; now right).
  f_equal. unfold store_flat, store_leaf, flat_entry. cbn [fst snd].
  destruct (Hpaths e (or_introl eq_refl)) as [Hne Hd].
  now rewrite split_join_path.
Qed.

(** Re-nesting the flat form of a nestable object gives the object back. *)
Lemma flatten_roundtrip (o : obj) :
  nestable_object o = true -> undo (convert o) = o.
Proof.
  intros Hn.
  rewrite convert_flat_entries, undo_flat_entries by exact Hn.
  now apply fold_store_object.
Qed.

(** ** The array encoding *)

Section Updates.
Context {V : Type}.
Implicit Types (o : list (string * V)) (k : string).

Lemma get_app_fresh o o' k :
  ~ In k (Obj.keys o) -> Obj.get (o ++ o') k = Obj.get o' k.
Proof.
  induction o as [|[k0 v0] o IH]; cbn; [reflexivity|].
  intros H. destruct (String.eqb_spec k k0) as [->|Hn]; [tauto|].
  apply IH. tauto.
Qed.

Lemma set_app_fresh o o' k (v : V) :
  ~ In k (Obj.keys o) -> Obj.set (o ++ o') k v = o ++ Obj.set o' k v.
Proof.
  induction o as [|[k0 v0] o IH]; cbn; [reflexivity|].
  intros H. destruct (String.eqb_spec k k0) as [->|Hn]; [tauto|].
  f_equal. apply IH. tauto.
Qed.

(** A pass over the keys that replaces each value by its image. *)
Lemma fold_update (step : list (string * V) -> string -> list (string * V))
    (f : V -> V) o :
  (forall acc k v, Obj.get acc k = Some v -> step acc k = Obj.set acc k (f v)) ->
  NoDup (Obj.keys o) ->
  fold_left step (Obj.keys o) o = map (fun kv => (fst kv, f (snd kv))) o.
Proof.
  intros Hstep Hnd.
  enough (G : forall done,
             (forall k, In k (Obj.keys o) -> ~ In k (Obj.keys done)) ->
             fold_left step (Obj.keys o) (done ++ o)
             = done ++ map (fun kv => (fst kv, f (snd kv))) o)
    by (apply (G []); intros ? _ []).
  induction o as [|[k v] o IH]; intros done Hd; [reflexivity|].
  cbn [Obj.keys map fst snd fold_left] in *.
  inversion Hnd as [|? ? Hk Ho]; subst.
  assert (Hfresh : ~ In k (Obj.keys done)) by (apply Hd; now left).
  rewrite (Hstep _ k v)
    by (rewrite get_app_fresh by exact Hfresh; cbn; now rewrite String.eqb_refl).
  rewrite set_app_fresh by exact Hfresh. cbn [Obj.set]. rewrite String.eqb_refl.
  change (done ++ (k, f v) :: o) with (done ++ [(k, f v)] ++ o).
  rewrite app_assoc. rewrite IH; [now rewrite <- app_assoc | exact Ho |].
  intros k0 Hk0. rewrite keys_app, in_app_iff. cbn.
  intros [H|[<-|[]]]; [|contradiction].
  eapply Hd; [right; exact Hk0 | exact H].
Qed.

End Updates.

Lemma arrayToString_map (o : obj) :
  NoDup (Obj.keys o) ->
  arrayToString o = map (fun kv => (fst kv, encode_value (snd kv))) o.
Proof.
  intros Hnd. unfold arrayToString. apply fold_update; [|exact Hnd].
  intros acc k v Hget. rewrite Hget.
  destruct v; cbn [encode_value]; try (symmetry; now apply set_same).
  reflexivity.
Qed.

Lemma stringToArray_map (o : obj) :
  NoDup (Obj.keys o) ->
  forallb (fun kv => typeof_string (Some (snd kv))) o = true ->
  stringToArray o = Some (map (fun kv => (fst kv, decode_value (snd kv))) o).
Proof.
  intros Hnd Hstr. unfold stringToArray.
  enough (G : forall done,
             (forall k, In k (Obj.keys o) -> ~ In k (Obj.keys done)) ->
             fold_left
               (fun acc key =>
                  match acc with
                  | None => None
                  | Some cur =>
                      match Obj.get cur key with
                      | Some (JStr s) =>
                          let splitted := JsString.split s sepKey in
                          Some (Obj.set cur key
                                  match splitted with
                                  | [one] => JStr one
                                  | _ => JArr (map JStr splitted)
                                  end)
                      | _ => None
                      end
                  end)
               (Obj.keys o) (Some (done ++ o))
             = Some (done ++ map (fun kv => (fst kv, decode_value (snd kv))) o))
    by (apply (G []); intros ? _ []).
  induction o as [|[k v] o IH]; intros done Hd; [reflexivity|].
  cbn [Obj.keys map fst snd fold_left forallb] in *.
  inversion Hnd as [|? ? Hk Ho]; subst.
  apply andb_true_iff in Hstr as [Hv Hstr].
  destruct v as [| | |s| |]; try discriminate.
  assert (Hfresh : ~ In k (Obj.keys done)) by (apply Hd; now left).
  rewrite get_app_fresh by exact Hfresh. cbn [Obj.get]. rewrite String.eqb_refl.
  cbv zeta. rewrite set_app_fresh by exact Hfresh. cbn [Obj.set].
  rewrite String.eqb_refl.
  change (match JsString.split s sepKey with
          | [one] => JStr one
          | _ => JArr (map JStr (JsString.split s sepKey))
          end) with (decode_value (JStr s)).
  change (done ++ (k, decode_value (JStr s)) :: o)
    with (done ++ [(k, decode_value (JStr s))] ++ o).
  rewrite app_assoc. rewrite IH; [now rewrite <- app_assoc | exact Ho | exact Hstr |].
  intros k0 Hk0. rewrite keys_app, in_app_iff. cbn.
  intros [H|[<-|[]]]; [|contradiction].
  eapply Hd; [right; exact Hk0 | exact H].
Qed.

Lemma sep_safe_includes (s : string) :
  sep_safe s = true <-> JsString.includes s " <sep />" = false.
Proof. unfold sep_safe. now rewrite negb_true_iff. Qed.

Lemma split_sepKey (s : string) :
  JsString.split s sepKey = JsString.split_from sepKey 0 s.
Proof. reflexivity. Qed.

Lemma decode_plain_string (s : string) :
  sep_safe s = true -> decode_value (JStr s) = JStr s.
Proof.
  intros H. apply sep_safe_includes in H.
  cbn [decode_value]. unfold decode_string.
  rewrite split_sepKey, split_from_whole by now apply sep_safe_whole.
  reflexivity.
Qed.

Lemma safe_strings_items (items : list json) :
  forallb is_safe_string items = true ->
  map JStr (map element_toString items) = items
  /\ forallb sep_safe (map element_toString items) = true.
Proof.
  induction items as [|i items IH]; cbn [forallb map]; [auto|].
  rewrite andb_true_iff. intros [Hi H]. destruct (IH H) as [E1 E2].
  destruct i as [| | |s| |]; try discriminate. cbn in *.
  rewrite E1, Hi, E2. auto.
Qed.

Lemma decode_encoded_array (items : list json) :
  encodable (JArr items) = true ->
  decode_value (encode_value (JArr items)) = JArr items.
Proof.
  cbn [encodable]. rewrite andb_true_iff. intros [Hlen Hsafe].
  apply Nat.leb_le in Hlen.
  destruct (safe_strings_items items Hsafe) as [Hitems Hstrs].
  cbn [encode_value decode_value]. unfold decode_string, array_join.
  rewrite forallb_forall in Hstrs.
  rewrite split_sepKey, split_from_join.
  - cbv zeta. rewrite Hitems.
    destruct items as [|i1 [|i2 items]]; cbn in Hlen; try lia. reflexivity.
  - discriminate.
  - destruct items; cbn in Hlen; [lia | discriminate].
  - apply Forall_forall. intros s Hs.
    apply sep_safe_no_early_match, sep_safe_includes, Hstrs, Hs.
  - apply sep_safe_whole, sep_safe_includes, Hstrs, last_In.
    destruct items; cbn in Hlen; [lia | discriminate].
Qed.

Lemma decode_encode_leaf (v : json) :
  leaf_ok v = true -> decode_value (encode_value v) = v.
Proof.
  destruct v as [| | |s|items|]; try discriminate; cbn [leaf_ok].
  - apply decode_plain_string.
  - apply decode_encoded_array.
Qed.

Lemma encode_leaf_is_string (v : json) :
  leaf_ok v = true -> typeof_string (Some (encode_value v)) = true.
Proof. destruct v; try discriminate; reflexivity. Qed.

Lemma string_leaves_ok (v : json) :
  string_leaves v = true ->
  forall e, In e (leaves v) -> leaf_ok (snd e) = true /\ encode_value (snd e) = snd e.
Proof.
  induction v as [| | |s| |props IH] using json_induction; try discriminate.
  - intros H e [<-|[]]. cbn. auto.
  - cbn [string_leaves]. intros H e He.
    rewrite leaves_object in He. apply in_flat_map in He as (kv & Hkv & He).
    apply in_map_iff in He as (pl & <- & Hpl). cbn [under snd].
    rewrite Forall_forall in IH. rewrite forallb_forall in H.
    apply (IH kv Hkv (H kv Hkv) pl Hpl).
Qed.

Lemma encodable_leaves (v : json) :
  encodable v = true ->
  leaves (encode_value v) = map encode_leaf (leaves v)
  /\ (forall e, In e (leaves v) -> leaf_ok (snd e) = true).
Proof.
  intros H. destruct v as [| | |s|items|props]; try discriminate.
  - split; [reflexivity|]. intros e [<-|[]]. exact H.
  - split; [reflexivity|]. intros e [<-|[]]. exact H.
  - cbn [encodable] in H. pose proof (string_leaves_ok _ H) as Hok.
    cbn [encode_value]. split.
    + rewrite <- (map_id (leaves (JObj props))) at 1.
      apply map_ext_in. intros [p w] He. unfold encode_leaf. cbn [fst snd].
      destruct (Hok _ He) as [_ E]. cbn [snd] in E. now rewrite E.
    + intros e He. apply (Hok e He).
Qed.

Lemma encoded_document_leaves (x : obj) :
  forallb (fun kv => encodable (snd kv)) x = true ->
  leaves (JObj (map encode_entry x)) = map encode_leaf (leaves (JObj x))
  /\ (forall e, In e (leaves (JObj x)) -> leaf_ok (snd e) = true).
Proof.
  rewrite !leaves_object.
  induction x as [|[k v] x IH]; cbn [forallb map flat_map fst snd encode_entry].
  - split; [reflexivity | intros e []].
  - rewrite andb_true_iff. intros [Hv Hx].
    destruct (IH Hx) as [E Hok]. destruct (encodable_leaves v Hv) as [Ev Hokv].
    split.
    + rewrite E, Ev, map_app, !map_map. reflexivity.
    + intros e He. apply in_app_iff in He as [He|He]; [|now apply Hok].
      apply in_map_iff in He as (pl & <- & Hpl). exact (Hokv pl Hpl).
Qed.

Lemma encoded_document_nestable (x : obj) :
  nestable_object x = true -> nestable_object (map encode_entry x) = true.
Proof.
  unfold nestable_object, Obj.keys. rewrite map_map. cbn [encode_entry fst].
  rewrite !andb_true_iff. intros [H1 H2]. split; [exact H1|].
  rewrite forallb_forall in *. intros kv Hkv.
  apply in_map_iff in Hkv as ([k v] & <- & Hin). cbn [encode_entry fst snd].
  specialize (H2 _ Hin). cbn [fst snd] in H2.
  apply andb_true_iff in H2 as [Hk Hv]. rewrite Hk. cbn [andb].
  destruct v; exact Hv.
Qed.

Lemma nestable_object_NoDup (x : obj) :
  nestable_object x = true -> NoDup (Obj.keys x).
Proof.
  unfold nestable_object. rewrite andb_true_iff. intros [H _].
  now apply nodupb_NoDup.
Qed.

(** The loaded content of a key-based document is the flat form of the
    document with every leaf encoded. *)
Lemma loaded_flat_form (x : obj) :
  key_based_document x = true ->
  convert (arrayToString x) = map encode_entry (convert x).
Proof.
  unfold key_based_document. rewrite andb_true_iff. intros [Hn He].
  rewrite arrayToString_map by now apply nestable_object_NoDup.
  change (map (fun kv => (fst kv, encode_value (snd kv))) x) with (map encode_entry x).
  rewrite !convert_flat_entries by (try apply encoded_document_nestable; exact Hn).
  destruct (encoded_document_leaves x He) as [E _]. rewrite E, !map_map.
  reflexivity.
Qed.

Lemma decoded_content (x : obj) :
  key_based_document x = true ->
  stringToArray (convert (arrayToString x)) = Some (convert x).
Proof.
  intros Hdoc. rewrite loaded_flat_form by exact Hdoc.
  unfold key_based_document in Hdoc. apply andb_true_iff in Hdoc as [Hn He].
  destruct (encoded_document_leaves x He) as [_ Hok].
  rewrite convert_flat_entries by exact Hn.
  rewrite stringToArray_map.
  - rewrite !map_map. apply f_equal.
    apply map_ext_in. intros [p v] Hin.
    unfold encode_entry, flat_entry. cbn [fst snd].
    now rewrite (decode_encode_leaf v (Hok _ Hin)).
  - pose proof (flat_keys_NoDup x Hn) as Hnd.
    unfold Obj.keys in *. rewrite map_map. exact Hnd.
  - apply forallb_forall. intros kv Hkv.
    apply in_map_iff in Hkv as (kv' & <- & Hkv').
    apply in_map_iff in Hkv' as ([p v] & <- & Hin).
    cbn [encode_entry flat_entry fst snd].
    now apply encode_leaf_is_string, (Hok _ Hin).
Qed.

(** ** The round trip of a key-based document *)

Lemma top_level_leaf (x : obj) (k : string) (v : json) :
  (forall props, v <> JObj props) ->
  In (k, v) x -> In ([k], v) (leaves (JObj x)).
Proof.
  intros Hleaf Hin. rewrite leaves_object. apply in_flat_map.
  exists (k, v). split; [exact Hin|]. cbn [fst snd].
  rewrite (leaves_leaf v Hleaf). now left.
Qed.

Lemma convert_top_level (x : obj) (k : string) (v : json) :
  nestable_object x = true ->
  (forall props, v <> JObj props) ->
  In (k, v) x -> In (k, v) (convert x).
Proof.
  intros Hn Hleaf Hin. rewrite convert_flat_entries by exact Hn.
  apply in_map_iff. exists ([k], v). split; [reflexivity|].
  now apply top_level_leaf.
Qed.

(** C2 (as amended). Take a key-based document whose keys are distinct
    and free of dots at every level, without an empty nested object,
    whose leaves are strings that do not contain " <sep />" or, at the top
    level only, arrays of at least two such strings.  Its loaded content
    holds every top-level array as the single string of its elements
    joined with the separator; decoding the loaded content with
    [stringToArray] and re-nesting the result gives the document back,
    every such array included. *)
Theorem key_based_roundtrip (x : obj) :
  key_based_document x = true ->
  let content := convert (arrayToString x) in
  (forall k items,
      In (k, JArr items) x ->
      Obj.get content k = Some (JStr (array_join items sepKey)))
  /\ exists decoded,
       stringToArray content = Some decoded
       /\ undo decoded = x
       /\ (forall k items,
             In (k, JArr items) x -> Obj.get decoded k = Some (JArr items)).
Proof.
  intros Hdoc content.
  pose proof Hdoc as Hdoc'. unfold key_based_document in Hdoc'.
  apply andb_true_iff in Hdoc' as [Hn He].
  pose proof (flat_keys_NoDup x Hn) as Hnd.
  rewrite <- convert_flat_entries in Hnd by exact Hn.
  split.
  - intros k items Hin. unfold content. rewrite loaded_flat_form by exact Hdoc.
    apply In_get.
    + unfold Obj.keys in *. rewrite map_map. exact Hnd.
    + apply in_map_iff. exists (k, JArr items). split; [reflexivity|].
      apply convert_top_level; [exact Hn | discriminate | exact Hin].
  - exists (convert x). split; [now apply decoded_content|].
    split; [now apply flatten_roundtrip|].
    intros k items Hin. apply In_get; [exact Hnd|].
    apply convert_top_level; [exact Hn | discriminate | exact Hin].
Qed.

Lemma key_based_roundtrip_witness :
  exists decoded,
    stringToArray (convert (arrayToString Documents.menu)) = Some decoded
    /\ undo decoded = Documents.menu.
Proof.
  destruct (key_based_roundtrip Documents.menu) as (_ & decoded & Hd & Hu & _).
  - vm_compute. reflexivity.
  - exists decoded. split; [exact Hd | exact Hu].
Defined.

(** C2, as stated, fails.  An array with one element is loaded as that
    element and decodes to a string, not to an array of one element,
    whichever of the two steps comes first; on a document with a nested
    object the decode step applied after the re-nesting raises a
    TypeError; and an array below the top level is not encoded. *)
Lemma single_element_array_is_not_restored :
  convert (arrayToString Documents.single) = [("items", JStr "a")]
  /\ stringToArray (convert (arrayToString Documents.single))
     = Some [("items", JStr "a")]
  /\ undo [("items", JStr "a")] = [("items", JStr "a")]
  /\ stringToArray (undo (convert (arrayToString Documents.single)))
     = Some [("items", JStr "a")]
  /\ [("items", JStr "a")] <> Documents.single
  /\ stringToArray (undo (convert (arrayToString Documents.nested))) = None
  /\ arrayToString Documents.nested_array = Documents.nested_array.
Proof.
  split; [vm_compute; reflexivity|].
  split; [vm_compute; reflexivity|].
  split; [vm_compute; reflexivity|].
  split; [vm_compute; reflexivity|].
  split; [discriminate|].
  split; vm_compute; reflexivity.
Qed.

(** ** Loading a directory *)

Lemma read_store_other (fs : FS) (d f d' f' : string) (c : obj) :
  d' <> d \/ f' <> f ->
  read_file (store_file fs d f c) d' f' = read_file fs d' f'.
Proof.
  intros H. unfold read_file, store_file.
  destruct (String.eqb_spec d' d) as [->|Hd].
  - rewrite get_set_same. destruct H as [H|H]; [congruence|].
    rewrite get_set_other by exact H. now destruct (Obj.get fs d).
  - now rewrite get_set_other.
Qed.

Lemma store_store (fs : FS) (d f : string) (c c' : obj) :
  store_file (store_file fs d f c) d f c' = store_file fs d f c'.
Proof.
  unfold store_file. now rewrite get_set_same, !set_set.
Qed.

Lemma store_same (fs : FS) (d f : string) (c : obj) :
  read_file fs d f = Some c -> store_file fs d f c = fs.
Proof.
  unfold read_file, store_file. destruct (Obj.get fs d) as [files|] eqn:E;
    [|discriminate].
  intros H. rewrite (set_same files f c H). now apply set_same.
Qed.

Section Loading.
Context {P : Type}.
Implicit Types (st : State P).

(** Loading one file that is on the disk and not yet in the cache. *)
Lemma loadTranslationFile_run st directory fileType f c :
  read_file (cache st) directory f = None ->
  read_file (disk st) directory f = Some c ->
  loadTranslationFile directory fileType f st
  = Returned (loaded_file directory fileType f c)
      (with_trace
         (with_cache st (store_file (cache st) directory f (cached_object fileType c)))
         (loading_events fileType c)).
Proof.
  intros Hcache Hdisk.
  unfold loadTranslationFile, loaded_file, cached_object, loading_events, loaded_type.
  unfold bind at 1. unfold require at 1. rewrite Hcache, Hdisk.
  unfold bind at 1. unfold get_state.
  unfold cached. cbn [cache]. rewrite !read_store_same.
  unfold bind at 1.
  destruct (FileType_eqb (if FileType_eqb fileType auto then detectFileType c
                          else fileType) key_based).
  - unfold bind at 1. unfold require. cbn [cache]. rewrite read_store_same.
    unfold bind at 1. unfold arrayToString_cached, cached. cbn [cache disk provider trace].
    rewrite read_store_same, store_store. unfold ret, with_trace, with_cache.
    reflexivity.
  - unfold bind at 1. unfold require. cbn [cache]. rewrite read_store_same.
    unfold ret, with_trace, with_cache. cbn [disk cache provider trace].
    now rewrite app_nil_r.
Qed.

Lemma contentOf_loaded_file st directory fileType f c :
  read_file (cache st) directory f = Some (cached_object fileType c) ->
  contentOf st (loaded_file directory fileType f c) = loaded_content fileType c.
Proof.
  intros H. unfold contentOf, loaded_file, loaded_content, cached_object in *.
  cbn [content].
  destruct (FileType_eqb (loaded_type fileType c) key_based); [reflexivity|].
  unfold cached. now rewrite H.
Qed.

Lemma load_files_run directory fileType (files : Dir) names : forall st,
  Obj.get (disk st) directory = Some files ->
  NoDup names ->
  (forall f, In f names -> In f (Obj.keys files)) ->
  (forall f, In f names -> read_file (cache st) directory f = None) ->
  exists recs st',
    mapM (loadTranslationFile directory fileType) names st = Returned recs st'
    /\ disk st' = disk st /\ provider st' = provider st
    /\ (exists events, trace st' = trace st ++ events
                       /\ forallb is_dump events = true)
    /\ (forall d f, d <> directory \/ ~ In f names ->
                    read_file (cache st') d f = read_file (cache st) d f)
    /\ Forall2 (loaded_as st' directory fileType files) names recs.
Proof.
  induction names as [|f names IH]; intros st Hdir Hnd Hin Hcache.
  - exists [], st. cbn. repeat split; auto.
    exists []. now rewrite app_nil_r.
  - inversion Hnd as [|? ? Hf Hnd']; subst.
    destruct (Obj.get files f) as [c|] eqn:Hc;
      [|apply get_None in Hc; destruct Hc; apply Hin; now left].
    assert (Hdisk : read_file (disk st) directory f = Some c)
      by (unfold read_file; now rewrite Hdir).
    cbn [mapM]. unfold bind at 1.
    rewrite (loadTranslationFile_run st directory fileType f c)
      by (try apply Hcache; try exact Hdisk; now left).
    set (st1 := with_trace _ _).
    destruct (IH st1) as (recs & st' & Hrun & Hd & Hp & (events & Ht & Hev) & Hc' & Hall).
    + exact Hdir.
    + exact Hnd'.
    + intros; apply Hin; now right.
    + intros f' Hf'. unfold st1. cbn [cache with_trace with_cache].
      rewrite read_store_other; [apply Hcache; now right|].
      right. intros ->. contradiction.
    + unfold bind. rewrite Hrun. unfold ret. eexists _, st'.
      split; [reflexivity|]. split; [exact Hd|]. split; [exact Hp|].
      split; [|split].
      * exists (loading_events fileType c ++ events). split.
        -- rewrite Ht. unfold st1. cbn [trace with_trace with_cache].
           now rewrite app_assoc.
        -- rewrite forallb_app, Hev, andb_true_r. unfold loading_events.
           now destruct (FileType_eqb _ key_based).
      * intros d f' Hdf. rewrite Hc'; [|destruct Hdf; [now left | right; cbn in *; tauto]].
        unfold st1. cbn [cache with_trace with_cache].
        apply read_store_other. destruct Hdf as [H|H]; [now left|].
        right. intros ->. apply H. now left.
      * constructor; [|exact Hall].
        exists c. split; [exact Hc|]. split; [reflexivity|].
        rewrite Hc' by now right.
        unfold st1. cbn [cache with_trace with_cache]. apply read_store_same.
Qed.

Lemma NoDup_filter_keys (p : string -> bool) (l : list string) :
  NoDup l -> NoDup (filter p l).
Proof.
  induction 1 as [|k l Hk Hl IH]; cbn; [constructor|].
  destruct (p k); [|exact IH]. constructor; [|exact IH].
  rewrite filter_In. tauto.
Qed.

(** Loading a directory that is on the disk and not yet in the cache:
    one record per [.json] file, in the order of the directory; the
    files and the provider are left alone and only dumps are printed. *)
Lemma loadTranslations_run st directory fileType (files : Dir) :
  Obj.get (disk st) directory = Some files ->
  NoDup (Obj.keys files) ->
  (forall f, read_file (cache st) directory f = None) ->
  exists recs st',
    loadTranslations directory fileType st = Returned recs st'
    /\ disk st' = disk st /\ provider st' = provider st
    /\ (exists events, trace st' = trace st ++ events
                       /\ forallb is_dump events = true)
    /\ (forall d f, d <> directory ->
                    read_file (cache st') d f = read_file (cache st) d f)
    /\ Forall2 (loaded_as st' directory fileType files) (json_files files) recs.
Proof.
  intros Hdir Hnd Hcache.
  unfold loadTranslations, bind, readdirSync. rewrite Hdir.
  destruct (load_files_run directory fileType files (json_files files) st)
    as (recs & st' & Hrun & Hd & Hp & Hev & Hc & Hall).
  - exact Hdir.
  - now apply NoDup_filter_keys.
  - intros f Hf. apply filter_In in Hf. tauto.
  - intros f _. apply Hcache.
  - exists recs, st'. unfold json_files in Hrun. rewrite Hrun.
    repeat split; auto.
Qed.

Lemma loadTranslations_missing st directory fileType :
  Obj.get (disk st) directory = None ->
  loadTranslations directory fileType st = Thrown (NoSuchDirectory directory) st.
Proof.
  intros H. unfold loadTranslations, bind, readdirSync. now rewrite H.
Qed.

Lemma loaded_as_cache st st' directory fileType files f rec :
  (forall f, read_file (cache st') directory f = read_file (cache st) directory f) ->
  loaded_as st directory fileType files f rec ->
  loaded_as st' directory fileType files f rec.
Proof.
  intros Hc (c & H1 & H2 & H3). exists c. rewrite Hc. auto.
Qed.

Lemma all_loaded_as_cache st st' directory fileType files names recs :
  (forall f, read_file (cache st') directory f = read_file (cache st) directory f) ->
  Forall2 (loaded_as st directory fileType files) names recs ->
  Forall2 (loaded_as st' directory fileType files) names recs.
Proof.
  intros Hc. induction 1; constructor; eauto using loaded_as_cache.
Qed.

End Loading.

(** ** A run on files that are up to date *)

Lemma find_loaded {P} (st : State P) directory fileType files names recs n :
  Forall2 (loaded_as st directory fileType files) names recs ->
  In n names ->
  exists rec,
    find (fun f => String.eqb (name f) n) recs = Some rec
    /\ loaded_as st directory fileType files n rec.
Proof.
  induction 1 as [|f rec names recs Hrec Hall IH]; intros Hin; [destruct Hin|].
  cbn [find]. destruct Hrec as (c & Hc & -> & Hcache). cbn [loaded_file name].
  destruct (String.eqb_spec f n) as [->|Hn].
  - eexists. split; [reflexivity|]. exists c. auto.
  - destruct Hin as [->|Hin]; [congruence|]. now apply IH.
Qed.

Lemma forallb_includes_nil (E T : list string) :
  forallb (Obj.includes E) T = true ->
  filter (fun k => negb (Obj.includes E k)) T = [].
Proof.
  induction T as [|k T IH]; cbn; [reflexivity|].
  rewrite andb_true_iff. intros [-> H]. now apply IH.
Qed.

Lemma rewritten_refl {P} fs (st : State P) : disk st = fs -> rewritten fs st st.
Proof.
  intros H. repeat split; auto. exists []. split; [now rewrite app_nil_r | constructor].
Qed.

Lemma rewritten_trans {P} fs (st1 st2 st3 : State P) :
  rewritten fs st1 st2 -> rewritten fs st2 st3 -> rewritten fs st1 st3.
Proof.
  intros (Hd1 & Hc1 & e1 & Ht1 & Ha1) (Hd2 & Hc2 & e2 & Ht2 & Ha2).
  repeat split; [exact Hd2 | congruence |].
  exists (e1 ++ e2). split; [now rewrite Ht2, Ht1, app_assoc|].
  apply Forall_app. auto.
Qed.

Lemma rewritten_with_trace {P} fs (st : State P) events :
  disk st = fs -> Forall (harmless fs) events -> rewritten fs st (with_trace st events).
Proof. intros Hd He. repeat split; auto. exists events. auto. Qed.

Lemma rewritten_with_provider {P} fs (st : State P) p :
  disk st = fs -> rewritten fs st (with_provider st p).
Proof.
  intros Hd. repeat split; auto. exists []. cbn.
  split; [now rewrite app_nil_r | constructor].
Qed.

Lemma rewritten_written {P} fs (st : State P) dir file content :
  disk st = fs -> read_file fs dir file = Some content ->
  rewritten fs st (written st dir file content).
Proof.
  intros Hd Hr. unfold written. repeat split; cbn.
  - rewrite Hd. now apply store_same.
  - exists [FsWrite dir file content]. split; [reflexivity|].
    constructor; [exact Hr | constructor].
Qed.

Section Settled.
Context {P Matcher : Type}.
Variables (sourceLang : string) (deleteUnusedStrings : bool) (fileType : FileType).
Variable service : string.
Variable translationService : TranslationService P Matcher.
Hypothesis provider_contract : answers_submitted_keys translationService.
Variable fs : FS.
Variables (source : Dir).

(** The step for one template file whose target file is up to date. *)
Lemma translateFile_settled (st : State P) language target existingFiles n template
    document :
  disk st = fs ->
  Obj.get fs language = Some target ->
  Forall2 (loaded_as st language fileType target) (json_files target) existingFiles ->
  In n (json_files target) ->
  Obj.get target n = Some document ->
  read_file (cache st) sourceLang n = Some (cached_object fileType template) ->
  file_settled fileType deleteUnusedStrings template document ->
  rewritten fs st
    (final (translateFile sourceLang deleteUnusedStrings service translationService
              language existingFiles (loaded_file sourceLang fileType n template) st)).
Proof.
  intros Hdisk Hdir Hloaded Hn Hdoc Htemplate (Hkeys & Hunused & Hround).
  rewrite translateFile_run.
  destruct (find_loaded st language fileType target _ _ n Hloaded Hn)
    as (rec & Hfind & c & Hc & -> & Hcache).
  assert (c = document) as -> by congruence.
  assert (Hexisting :
            existingTranslationsOf st existingFiles
              (loaded_file sourceLang fileType n template)
            = loaded_content fileType document).
  { unfold existingTranslationsOf. cbn [loaded_file name] in *. rewrite Hfind.
    now apply contentOf_loaded_file. }
  rewrite Hexisting.
  rewrite (contentOf_loaded_file st sourceLang fileType n template Htemplate).
  assert (Htodo :
            stringsToTranslate (type (loaded_file sourceLang fileType n template))
              (loaded_content fileType template)
              (Obj.keys (loaded_content fileType document)) = []).
  { unfold stringsToTranslate. now rewrite forallb_includes_nil. }
  rewrite Htodo.
  set (answer := service_translateStrings _ _ _ _ _).
  set (submitted := with_provider _ _).
  assert (Hsub : rewritten fs st submitted).
  { unfold submitted.
    eapply rewritten_trans; [|apply rewritten_with_provider; exact Hdisk].
    eapply rewritten_trans; apply rewritten_with_trace; auto;
      (constructor; [exact I | constructor]). }
  destruct (fst answer) as [message|translatedStrings] eqn:Hanswer; [exact Hsub|].
  assert (translatedStrings = []) as ->.
  { destruct translatedStrings as [|r rs]; [reflexivity|].
    destruct (provider_contract _ _ _ _ _ Hanswer r (or_introl eq_refl)). }
  cbv zeta. destruct (String.eqb service "dryRun").
  { eapply rewritten_trans; [exact Hsub|].
    apply rewritten_with_trace; [apply Hsub | constructor; [exact I | constructor]]. }
  destruct Hsub as (Hd & Hcs & Hev).
  assert (Hd' : disk st = fs) by exact Hdisk.
  rewrite Hd', Hdir. cbn [final].
  assert (Hmerged :
            translatedFile (loaded_content fileType document) deleteUnusedStrings
              (unusedStrings (Obj.keys (loaded_content fileType template))
                 (Obj.keys (loaded_content fileType document)))
              (newKeys []) = loaded_content fileType document).
  { unfold translatedFile, newKeys, Obj.spread. cbn [fold_left].
    destruct deleteUnusedStrings; [|apply omit_nil].
    unfold unusedStrings. rewrite forallb_includes_nil by now apply Hunused.
    apply omit_nil. }
  rewrite Hmerged. cbn [loaded_file type name]. rewrite Hround.
  eapply rewritten_trans; [exact (conj Hd (conj Hcs Hev))|].
  assert (Hfile : read_file fs language n = Some document)
    by (unfold read_file; now rewrite Hdir).
  eapply rewritten_trans.
  - apply (rewritten_written fs submitted language n document Hd Hfile).
  - apply rewritten_with_trace; [|constructor; [exact I | constructor]].
    unfold written. cbn [disk]. rewrite Hd. now apply store_same.
Qed.

Lemma rewritten_files_kept (st st' : State P) :
  rewritten fs st st' -> files_kept fs st st'.
Proof. intros (Hd & _ & Hev). split; assumption. Qed.

Lemma files_kept_refl (st : State P) : disk st = fs -> files_kept fs st st.
Proof.
  intros H. split; [exact H|]. exists []. split; [now rewrite app_nil_r | constructor].
Qed.

Lemma files_kept_trans (st1 st2 st3 : State P) :
  files_kept fs st1 st2 -> files_kept fs st2 st3 -> files_kept fs st1 st3.
Proof.
  intros (Hd1 & e1 & Ht1 & Ha1) (Hd2 & e2 & Ht2 & Ha2).
  split; [exact Hd2|].
  exists (e1 ++ e2). split; [now rewrite Ht2, Ht1, app_assoc|].
  apply Forall_app. auto.
Qed.

Lemma files_kept_with_trace (st : State P) events :
  disk st = fs -> Forall (harmless fs) events -> files_kept fs st (with_trace st events).
Proof. intros Hd He. split; [exact Hd|]. exists events. auto. Qed.

(** The loop over the template files, for one target directory that is
    up to date. *)
Lemma translateFiles_settled language target existingFiles names templateFiles :
  Obj.get fs language = Some target ->
  (forall n template,
      In n names -> Obj.get source n = Some template ->
      exists document,
        In n (json_files target) /\ Obj.get target n = Some document
        /\ file_settled fileType deleteUnusedStrings template document) ->
  forall st : State P,
    disk st = fs ->
    Forall2 (loaded_as st language fileType target) (json_files target) existingFiles ->
    Forall2 (loaded_as st sourceLang fileType source) names templateFiles ->
    rewritten fs st
      (final (forEach templateFiles
                (translateFile sourceLang deleteUnusedStrings service
                   translationService language existingFiles) st)).
Proof.
  intros Hdir Hsettled st Hdisk Hexisting Htemplates.
  revert names Hsettled st Hdisk Hexisting Htemplates.
  induction templateFiles as [|rec templateFiles IH];
    intros names Hsettled st Hdisk Hexisting Htemplates.
  - now apply rewritten_refl.
  - destruct names as [|n names']; [inversion Htemplates|].
    apply Forall2_cons_iff in Htemplates as [Hrec Hall].
    destruct Hrec as (template & Htemplate & -> & Hcache).
    destruct (Hsettled n template (or_introl eq_refl) Htemplate)
      as (document & Hn & Hdoc & Hfile).
    pose proof (translateFile_settled st language target existingFiles n template
                  document Hdisk Hdir Hexisting Hn Hdoc Hcache Hfile) as Hstep.
    cbn [forEach]. unfold bind.
    destruct (translateFile sourceLang deleteUnusedStrings service
                translationService language existingFiles
                (loaded_file sourceLang fileType n template) st)
      as [[] st1|e st1|code st1]; cbn [final] in *; try exact Hstep.
    destruct Hstep as (Hd1 & Hc1 & Hev1).
    eapply rewritten_trans; [exact (conj Hd1 (conj Hc1 Hev1))|].
    apply (IH names').
    + intros n' template' Hn'. apply Hsettled. now right.
    + exact Hd1.
    + eapply all_loaded_as_cache; [|exact Hexisting]. intros f. now rewrite Hc1.
    + eapply all_loaded_as_cache; [|exact Hall]. intros f. now rewrite Hc1.
Qed.

Lemma loaded_names (st : State P) directory files names recs :
  Forall2 (loaded_as st directory fileType files) names recs ->
  map name recs = names.
Proof.
  induction 1 as [|f rec names recs (c & _ & -> & _) _ IH]; [reflexivity|].
  cbn. now rewrite IH.
Qed.

Lemma dumps_harmless (events : list Event) :
  forallb is_dump events = true -> Forall (harmless fs) events.
Proof.
  rewrite forallb_forall, Forall_forall. intros H e He.
  specialize (H e He). now destruct e.
Qed.

(** One target language whose directory is up to date, or which the
    provider does not list. *)
Lemma translateLanguage_settled available templateFiles language target
    (st : State P) :
  disk st = fs ->
  Obj.get fs language = Some target ->
  language <> sourceLang ->
  (forall f, read_file (cache st) language f = None) ->
  Forall2 (loaded_as st sourceLang fileType source) (json_files source) templateFiles ->
  (In language available ->
   directory_settled fileType deleteUnusedStrings source target) ->
  let r :=
    translateLanguage sourceLang deleteUnusedStrings fileType service
      translationService available templateFiles language st in
  files_kept fs st (final r)
  /\ (forall d f, d <> language ->
                  read_file (cache (final r)) d f = read_file (cache st) d f).
Proof.
  intros Hdisk Hdir Hsource Hcache Htemplates Hsettled r.
  enough (H : exists st',
             final r = st' /\ files_kept fs st st'
             /\ (forall d f, d <> language ->
                             read_file (cache st') d f = read_file (cache st) d f))
    by (destruct H as (st' & -> & H); exact H).
  unfold r, translateLanguage.
  destruct (Obj.includes available language) eqn:Hav; cbn [negb].
  2:{ rewrite log_run. cbn [final]. eexists. split; [reflexivity|].
      split; [|reflexivity].
      apply files_kept_with_trace; [exact Hdisk | constructor; [exact I | constructor]]. }
  apply includes_In in Hav. destruct (Hsettled Hav) as (Hnd & Hfiles & Hdel).
  assert (Hdir' : Obj.get (disk st) language = Some target) by now rewrite Hdisk.
  destruct (loadTranslations_run st language fileType target Hdir' Hnd Hcache)
    as (recs & sta & Hrun & Hd & Hp & (events & Ht & Hdump) & Hc & Hall).
  unfold bind at 1. rewrite Hrun.
  unfold bind at 1. rewrite log_run.
  set (stb := with_trace sta [EvTranslating sourceLang language]).
  assert (Hkept : files_kept fs st stb).
  { split; [cbn; congruence|]. exists (events ++ [EvTranslating sourceLang language]).
    split; [cbn; now rewrite Ht, app_assoc|].
    apply Forall_app. split; [now apply dumps_harmless|].
    constructor; [exact I | constructor]. }
  assert (Hcb : forall d f, d <> language ->
                            read_file (cache stb) d f = read_file (cache st) d f)
    by (intros d f Hdf; now apply Hc).
  assert (Hdel' :
            (if deleteUnusedStrings
             then forEach
                    (filter
                       (fun f => negb (Obj.includes (map name templateFiles) (name f)))
                       recs)
                    (fun file =>
                       bind (log (EvNoLongerUsed (name file)))
                         (fun _ => unlinkSync language (name file)))
             else ret tt) stb = Returned tt stb).
  { destruct deleteUnusedStrings eqn:Hflag; [|reflexivity].
    replace (filter _ recs) with (@nil TranslationFile); [reflexivity|].
    symmetry. apply filter_none. apply forallb_forall. intros rec Hrec.
    rewrite negb_involutive. apply includes_In.
    rewrite (loaded_names st sourceLang source _ _ Htemplates).
    apply Hdel; [reflexivity|].
    rewrite <- (loaded_names sta language target _ _ Hall).
    now apply in_map. }
  unfold bind at 1. rewrite Hdel'.
  pose proof (translateFiles_settled language target recs (json_files source)
                templateFiles Hdir) as Hloop.
  specialize (Hloop
    (fun n template Hn Htemplate =>
       match Hfiles n template Hn Htemplate with
       | ex_intro _ document (conj Hdoc Hfile) =>
           ex_intro _ document
             (conj (proj2 (filter_In _ n (Obj.keys target))
                      (conj (get_key target n document Hdoc)
                         (proj2 (proj1 (filter_In _ n (Obj.keys source)) Hn))))
                (conj Hdoc Hfile))
       end) stb).
  assert (Hloop' := Hloop (proj1 Hkept)
                      (all_loaded_as_cache sta stb language fileType target _ _
                         (fun f => eq_refl) Hall)
                      (all_loaded_as_cache st stb sourceLang fileType source _ _
                         (fun f => Hcb sourceLang f (not_eq_sym Hsource)) Htemplates)).
  clear Hloop. unfold bind.
  destruct (forEach templateFiles _ stb) as [[] st1|e st1|code st1];
    cbn [final] in *; destruct Hloop' as (Hd1 & Hc1 & Hev1).
  - rewrite log_run. cbn [final]. eexists. split; [reflexivity|]. split.
    + eapply files_kept_trans; [exact Hkept|].
      eapply files_kept_trans; [split; [exact Hd1 | exact Hev1]|].
      apply files_kept_with_trace; [exact Hd1 | constructor; [exact I | constructor]].
    + intros d f Hdf. unfold with_trace. cbn [cache]. rewrite Hc1. now apply Hcb.
  - eexists. split; [reflexivity|]. split.
    + eapply files_kept_trans; [exact Hkept|]. split; [exact Hd1 | exact Hev1].
    + intros d f Hdf. rewrite Hc1. now apply Hcb.
  - eexists. split; [reflexivity|]. split.
    + eapply files_kept_trans; [exact Hkept|]. split; [exact Hd1 | exact Hev1].
    + intros d f Hdf. rewrite Hc1. now apply Hcb.
Qed.

(** The loop over the target languages. *)
Lemma translateLanguages_settled available templateFiles languages :
  NoDup languages ->
  (forall language,
      In language languages ->
      language <> sourceLang
      /\ exists target,
           Obj.get fs language = Some target
           /\ (In language available ->
               directory_settled fileType deleteUnusedStrings source target)) ->
  forall st : State P,
    disk st = fs ->
    (forall language f, In language languages ->
                        read_file (cache st) language f = None) ->
    Forall2 (loaded_as st sourceLang fileType source) (json_files source) templateFiles ->
    files_kept fs st
      (final (forEach languages
                (translateLanguage sourceLang deleteUnusedStrings fileType service
                   translationService available templateFiles) st)).
Proof.
  induction 1 as [|language languages Hfresh Hnd IH];
    intros Hall st Hdisk Hcache Htemplates.
  - now apply files_kept_refl.
  - destruct (Hall language (or_introl eq_refl)) as (Hsource & target & Hdir & Hsettled).
    destruct (translateLanguage_settled available templateFiles language target st
                Hdisk Hdir Hsource (fun f => Hcache language f (or_introl eq_refl))
                Htemplates Hsettled) as [Hkept Hc].
    cbn [forEach]. unfold bind.
    destruct (translateLanguage sourceLang deleteUnusedStrings fileType service
                translationService available templateFiles language st)
      as [[] st1|e st1|code st1]; cbn [final] in *; try exact Hkept.
    eapply files_kept_trans; [exact Hkept|].
    apply IH.
    + intros l Hl. apply Hall. now right.
    + apply Hkept.
    + intros l f Hl. rewrite Hc; [apply Hcache; now right|].
      intros ->. contradiction.
    + eapply all_loaded_as_cache; [|exact Htemplates].
      intros f. apply Hc. now apply not_eq_sym.
Qed.

End Settled.

Section Checks.
Context {P : Type}.
Implicit Types (st : State P).

Lemma findInvalidFiles_run files st :
  exists names events,
    findInvalidFiles files st = Returned names (with_trace st events)
    /\ forallb (fun e => negb (is_file_operation e)) events = true.
Proof.
  revert st. induction files as [|f files IH]; intros st; simpl.
  - exists [], []. unfold ret. now rewrite with_trace_nil.
  - unfold bind, get_state.
    destruct (Nat.ltb 0 _).
    + rewrite log_run.
      destruct (IH (with_trace st [EvInvalidKeys (name f)
                 (List.length (invalidKeys (originalContentOf st f)))]))
        as (names & events & -> & Hev).
      eexists _, _. unfold ret. rewrite with_trace_app. split; [reflexivity|].
      simpl. exact Hev.
    + apply IH.
Qed.

(** Without the fix flag the consistency report only prints. *)
Lemma reportInconsistencies_run sourceLang templateFiles st :
  exists events,
    reportInconsistencies sourceLang false templateFiles st
    = Returned tt (with_trace st events)
    /\ forallb (fun e => negb (is_file_operation e)) events = true.
Proof.
  unfold reportInconsistencies, bind.
  destruct (findInconsistentFiles_run
              (filter (fun f => FileType_eqb (type f) natural) templateFiles) st)
    as (names & events & -> & Hev).
  destruct (Nat.ltb 0 (List.length names)); rewrite !log_run, !with_trace_app;
    eexists; (split; [reflexivity|]); rewrite forallb_app, Hev; reflexivity.
Qed.

(** The invalid-key check prints, and may end the process, without
    touching a file. *)
Lemma rejectInvalidKeys_run templateFiles st :
  exists events,
    (rejectInvalidKeys templateFiles st = Returned tt (with_trace st events)
     \/ rejectInvalidKeys templateFiles st = Exited 1 (with_trace st events))
    /\ forallb (fun e => negb (is_file_operation e)) events = true.
Proof.
  unfold rejectInvalidKeys, bind.
  destruct (findInvalidFiles_run
              (filter (fun f => FileType_eqb (type f) key_based) templateFiles) st)
    as (names & events & -> & Hev).
  destruct (Nat.ltb 0 (List.length names)); rewrite !log_run, ?with_trace_app;
    eexists; (split; [(left; reflexivity) || (right; reflexivity)|]);
    rewrite forallb_app, Hev; reflexivity.
Qed.

Lemma no_file_operation_harmless fs (events : list Event) :
  forallb (fun e => negb (is_file_operation e)) events = true ->
  Forall (harmless fs) events.
Proof.
  rewrite forallb_forall, Forall_forall. intros H e He.
  specialize (H e He). destruct e; try exact I; discriminate.
Qed.

End Checks.

Section UpToDate.
Context {P Matcher : Type}.
Variable serviceMap : list (string * TranslationService P Matcher).
Variable matcherMap : list (string * Matcher).
Variables (sourceLang : string) (deleteUnusedStrings : bool) (fileType : FileType).
Variables (service matcher : string) (config : option string).

Lemma files_kept_with_provider fs (st : State P) p :
  disk st = fs -> files_kept fs st (with_provider st p).
Proof.
  intros Hd. split; [exact Hd|]. exists []. cbn.
  split; [now rewrite app_nil_r | constructor].
Qed.

Lemma read_file_empty (d f : string) : read_file [] d f = None.
Proof. reflexivity. Qed.

(** The whole run, step by step: each step either stops the run or leaves
    the files kept, and the steps compose. *)
Lemma settled_run_keeps_files (st : State P) (source : Dir) :
  cache st = [] ->
  NoDup (Obj.keys (disk st)) ->
  Obj.get (disk st) sourceLang = Some source ->
  NoDup (Obj.keys source) ->
  (forall translationService,
      Obj.get serviceMap service = Some translationService ->
      answers_submitted_keys translationService
      /\ forall p available language target,
           fst (service_getAvailableLanguages translationService p) = inr available ->
           In language available -> language <> sourceLang ->
           Obj.get (disk st) language = Some target ->
           directory_settled fileType deleteUnusedStrings source target) ->
  files_kept (disk st) st
    (final (translate serviceMap matcherMap sourceLang deleteUnusedStrings fileType
              false service matcher config st)).
Proof.
  intros Hcache Hdirs Hsource Hfiles Hprovider.
  set (fs := disk st).
  assert (Hfs : disk st = fs) by reflexivity.
  unfold translate. unfold bind at 1. unfold getAvailableLanguages.
  destruct (negb (Obj.includes (Obj.keys (disk st)) sourceLang));
    [now apply files_kept_refl|].
  destruct (Obj.get serviceMap service) as [translationService|] eqn:Hsvc;
    [|now apply files_kept_refl].
  destruct (Obj.get matcherMap matcher) as [theMatcher|];
    [|now apply files_kept_refl].
  destruct (Hprovider translationService eq_refl) as [Hcontract Hsettled].
  unfold bind at 1.
  destruct (loadTranslations_run st sourceLang fileType source Hsource Hfiles)
    as (templateFiles & st1 & Hrun & Hd1 & Hp1 & (ev1 & Ht1 & Hdump1) & Hc1 & Hall).
  { intros f. rewrite Hcache. apply read_file_empty. }
  rewrite Hrun.
  assert (Hk1 : files_kept fs st st1).
  { split; [exact Hd1|]. exists ev1. split; [exact Ht1|].
    now apply dumps_harmless. }
  destruct (Nat.eqb (List.length templateFiles) 0); [exact Hk1|].
  unfold bind at 1. rewrite log_run.
  unfold bind at 1. rewrite forEach_log, with_trace_app.
  unfold bind at 1. rewrite log_run, with_trace_app.
  set (events2 := _ ++ [EvInitializing _]).
  assert (Hq2 : forallb (fun e => negb (is_file_operation e)) events2 = true).
  { unfold events2. rewrite !forallb_app. simpl.
    rewrite andb_true_r. apply forallb_forall.
    intros e He. apply in_map_iff in He as (f & <- & _). reflexivity. }
  assert (Hk2 : files_kept fs st (with_trace st1 events2)).
  { eapply files_kept_trans; [exact Hk1|].
    apply files_kept_with_trace; [exact Hd1|].
    now apply no_file_operation_harmless. }
  unfold bind at 1. unfold call at 1. cbn [provider with_trace].
  destruct (fst (service_initialize translationService config theMatcher
                   (provider st1))) as [message|[]].
  { cbn [final]. eapply files_kept_trans; [exact Hk2|].
    apply files_kept_with_provider. apply Hk2. }
  set (st3 := {| disk := _; cache := _; provider := _; trace := _ |}).
  assert (Hk3 : files_kept fs st st3).
  { eapply files_kept_trans; [exact Hk2|].
    apply (files_kept_with_provider fs (with_trace st1 events2)). apply Hk2. }
  unfold bind at 1. unfold call at 1.
  destruct (fst (service_getAvailableLanguages translationService (provider st3)))
    as [message|available] eqn:Havailable.
  { cbn [final]. eapply files_kept_trans; [exact Hk3|].
    apply (files_kept_with_provider fs st3). apply Hk3. }
  set (st4 := {| disk := _; cache := _; provider := _; trace := _ |}).
  assert (Hk4 : files_kept fs st st4).
  { eapply files_kept_trans; [exact Hk3|].
    apply (files_kept_with_provider fs st3). apply Hk3. }
  assert (Hc4 : cache st4 = cache st1) by reflexivity.
  unfold bind at 1. rewrite log_run.
  set (st5 := with_trace st4 _).
  assert (Hk5 : files_kept fs st st5).
  { eapply files_kept_trans; [exact Hk4|].
    apply files_kept_with_trace; [apply Hk4 | constructor; [exact I | constructor]]. }
  destruct (negb (Obj.includes available sourceLang)); [exact Hk5|].
  unfold bind at 1.
  destruct (reportInconsistencies_run sourceLang templateFiles st5)
    as (events6 & -> & Hq6).
  set (st6 := with_trace st5 events6).
  assert (Hk6 : files_kept fs st st6).
  { eapply files_kept_trans; [exact Hk5|].
    apply files_kept_with_trace; [apply Hk5|].
    now apply no_file_operation_harmless. }
  unfold bind at 1.
  destruct (rejectInvalidKeys_run templateFiles st6) as (events7 & [-> | ->] & Hq7).
  2:{ cbn [final]. eapply files_kept_trans; [exact Hk6|].
      apply files_kept_with_trace; [apply Hk6|].
      now apply no_file_operation_harmless. }
  set (st7 := with_trace st6 events7).
  assert (Hk7 : files_kept fs st st7).
  { eapply files_kept_trans; [exact Hk6|].
    apply files_kept_with_trace; [apply Hk6|].
    now apply no_file_operation_harmless. }
  assert (Hc7 : cache st7 = cache st1) by reflexivity.
  pose proof (translateLanguages_settled sourceLang deleteUnusedStrings fileType
                service translationService Hcontract fs source available
                templateFiles
                (filter (fun f => negb (String.eqb f sourceLang)) (Obj.keys fs)))
    as Hloop.
  specialize (Hloop (NoDup_filter_keys _ _ Hdirs)).
  assert (Hlanguages :
            forall language,
              In language (filter (fun f => negb (String.eqb f sourceLang))
                             (Obj.keys fs)) ->
              language <> sourceLang
              /\ exists target,
                   Obj.get fs language = Some target
                   /\ (In language available ->
                       directory_settled fileType deleteUnusedStrings source target)).
  { intros language Hl. apply filter_In in Hl as [Hin Hneq].
    apply negb_true_iff in Hneq. apply String.eqb_neq in Hneq.
    split; [exact Hneq|].
    destruct (Obj.get fs language) as [target|] eqn:Hget;
      [|apply get_None in Hget; contradiction].
    exists target. split; [reflexivity|]. intros Hav.
    eapply (Hsettled (provider st3)); eauto. }
  specialize (Hloop Hlanguages st7 (proj1 Hk7)).
  assert (Hfresh : forall language f,
             In language (filter (fun f => negb (String.eqb f sourceLang))
                            (Obj.keys fs)) ->
             read_file (cache st7) language f = None).
  { intros language f Hl. apply Hlanguages in Hl as [Hneq _].
    rewrite Hc7, Hc1 by exact Hneq. rewrite Hcache. apply read_file_empty. }
  specialize (Hloop Hfresh).
  assert (Htemplates :
            Forall2 (loaded_as st7 sourceLang fileType source) (json_files source)
              templateFiles).
  { eapply all_loaded_as_cache; [|exact Hall]. intros f. now rewrite Hc7. }
  specialize (Hloop Htemplates).
  unfold bind.
  destruct (forEach _ _ st7) as [[] st8|e st8|code st8]; cbn [final] in *.
  - rewrite log_run. cbn [final].
    eapply files_kept_trans; [exact Hk7|].
    eapply files_kept_trans; [exact Hloop|].
    apply files_kept_with_trace; [apply Hloop | constructor; [exact I | constructor]].
  - eapply files_kept_trans; [exact Hk7 | exact Hloop].
  - eapply files_kept_trans; [exact Hk7 | exact Hloop].
Qed.

(** X20. A run without the fix flag, started with nothing loaded, on files
    where every directory of a language the provider lists is up to date
    with the source directory: whatever way the run ends, the files are
    what they were, no file is deleted, and every write puts into a file
    the content it already holds. *)
Theorem up_to_date_run_keeps_files (st : State P) (source : Dir) :
  cache st = [] ->
  NoDup (Obj.keys (disk st)) ->
  Obj.get (disk st) sourceLang = Some source ->
  NoDup (Obj.keys source) ->
  (forall translationService,
      Obj.get serviceMap service = Some translationService ->
      answers_submitted_keys translationService
      /\ forall p available language target,
           fst (service_getAvailableLanguages translationService p) = inr available ->
           In language available -> language <> sourceLang ->
           Obj.get (disk st) language = Some target ->
           directory_settled fileType deleteUnusedStrings source target) ->
  files_kept (disk st) st
    (final (translate serviceMap matcherMap sourceLang deleteUnusedStrings fileType
              false service matcher config st)).
Proof. exact (settled_run_keeps_files st source). Qed.

End UpToDate.

Lemma sample_service_answers label render :
  answers_submitted_keys (Samples.service label render).
Proof.
  intros items source target p answer Hanswer r Hr.
  cbn in Hanswer. injection Hanswer as <-.
  apply in_map_iff in Hr as (item & <- & Hitem). cbn.
  now apply in_map.
Qed.

Lemma up_to_date_run_keeps_files_witness :
  files_kept Samples.up_to_date (start Samples.up_to_date tt)
    (final (translate Samples.serviceMap Samples.matcherMap "en" false auto
              false "google-translate" "icu" None (start Samples.up_to_date tt))).
Proof.
  apply (up_to_date_run_keeps_files Samples.serviceMap Samples.matcherMap "en"
           false auto "google-translate" "icu" None (start Samples.up_to_date tt)
           [("common.json", [("Hello world", JStr "Hello world")])]).
  - reflexivity.
  - apply nodupb_NoDup. reflexivity.
  - reflexivity.
  - apply nodupb_NoDup. reflexivity.
  - intros translationService Hsvc. cbn in Hsvc. injection Hsvc as <-.
    split; [apply sample_service_answers|].
    intros p available language target Hav Hin Hneq Hget.
    cbn in Hav. injection Hav as <-.
    destruct Hin as [<-|[<-|[<-|[]]]]; [congruence | | discriminate Hget].
    cbn in Hget. injection Hget as <-.
    split; [apply nodupb_NoDup; reflexivity|]. split.
    + intros f template Hf Htemplate. destruct Hf as [<-|[]].
      cbn in Htemplate. injection Htemplate as <-.
      eexists. split; [reflexivity|].
      split; [reflexivity|]. split; [discriminate | reflexivity].
    + discriminate.
Defined.

Lemma forallb_includes_incl (E T : list string) :
  forallb (Obj.includes E) T = true <-> (forall k, In k T -> In k E).
Proof.
  rewrite forallb_forall. split; intros H k Hk.
  - now apply includes_In, H.
  - now apply includes_In, H.
Qed.

Section NaturalUpToDate.
Context {P Matcher : Type}.
Variable serviceMap : list (string * TranslationService P Matcher).
Variable matcherMap : list (string * Matcher).
Variables (sourceLang : string) (deleteUnusedStrings : bool).
Variables (service matcher : string) (config : option string).

(** X21. With the file type forced to natural and without the fix flag, take
    files where every target directory has, for every template file, a
    file with every template key (and, when unused strings are deleted,
    no other key and no other [.json] file).  A run started with nothing
    loaded, with a provider that answers for submitted keys only, leaves
    the files as they are: it deletes nothing and every write puts into a
    file the content it already holds. *)
Theorem natural_rerun_keeps_files (st : State P) (source : Dir) :
  cache st = [] ->
  NoDup (Obj.keys (disk st)) ->
  Obj.get (disk st) sourceLang = Some source ->
  NoDup (Obj.keys source) ->
  (forall translationService,
      Obj.get serviceMap service = Some translationService ->
      answers_submitted_keys translationService) ->
  (forall language target,
      language <> sourceLang -> Obj.get (disk st) language = Some target ->
      NoDup (Obj.keys target)
      /\ (forall f template,
            In f (json_files source) -> Obj.get source f = Some template ->
            exists document,
              Obj.get target f = Some document
              /\ (forall k, In k (Obj.keys template) -> In k (Obj.keys document))
              /\ (deleteUnusedStrings = true ->
                  forall k, In k (Obj.keys document) -> In k (Obj.keys template)))
      /\ (deleteUnusedStrings = true ->
          forall f, In f (json_files target) -> In f (json_files source))) ->
  files_kept (disk st) st
    (final (translate serviceMap matcherMap sourceLang deleteUnusedStrings natural
              false service matcher config st)).
Proof.
  intros Hcache Hdirs Hsource Hfiles Hcontract Htargets.
  apply (settled_run_keeps_files serviceMap matcherMap sourceLang
           deleteUnusedStrings natural service matcher config st source);
    try assumption.
  intros translationService Hsvc. split; [now apply Hcontract|].
  intros p available language target _ _ Hneq Hget.
  destruct (Htargets language target Hneq Hget) as (Hnd & Hall & Hdel).
  split; [exact Hnd|]. split; [|exact Hdel].
  intros f template Hf Htemplate.
  destruct (Hall f template Hf Htemplate) as (document & Hdoc & Hkeys & Hunused).
  exists document. split; [exact Hdoc|].
  unfold file_settled, loaded_content, loaded_type. cbn [FileType_eqb emitted].
  split; [now apply forallb_includes_incl|].
  split; [|reflexivity].
  intros Hflag. apply forallb_includes_incl. now apply Hunused.
Qed.

End NaturalUpToDate.

Lemma natural_rerun_keeps_files_witness :
  files_kept Samples.up_to_date (start Samples.up_to_date tt)
    (final (translate Samples.serviceMap Samples.matcherMap "en" true natural
              false "google-translate" "icu" None (start Samples.up_to_date tt))).
Proof.
  apply (natural_rerun_keeps_files Samples.serviceMap Samples.matcherMap "en"
           true "google-translate" "icu" None (start Samples.up_to_date tt)
           [("common.json", [("Hello world", JStr "Hello world")])]).
  - reflexivity.
  - apply nodupb_NoDup. reflexivity.
  - reflexivity.
  - apply nodupb_NoDup. reflexivity.
  - intros translationService Hsvc. cbn in Hsvc. injection Hsvc as <-.
    apply sample_service_answers.
  - intros language target Hneq Hget. cbn in Hget.
    destruct (String.eqb language "en") eqn:E1;
      [apply String.eqb_eq in E1; congruence|].
    destruct (String.eqb language "fr") eqn:E2; [|discriminate Hget].
    injection Hget as <-.
    split; [apply nodupb_NoDup; reflexivity|]. split.
    + intros f template Hf Htemplate. destruct Hf as [<-|[]].
      cbn in Htemplate. injection Htemplate as <-.
      eexists. split; [reflexivity|]. split.
      * intros k [<-|[]]. now left.
      * intros _ k [<-|[]]. now left.
    + intros _ f Hf. exact Hf.
Defined.

(** ** More on the consistency fix and the array codec *)

Lemma set_keys_NoDup {V} (o : list (string * V)) (k : string) (v : V) :
  NoDup (Obj.keys o) -> NoDup (Obj.keys (Obj.set o k v)).
Proof.
  induction o as [|[k0 v0] o IH]; cbn; intros Hnd.
  - constructor; [intros [] | constructor].
  - inversion Hnd as [|? ? Hk Ho]; subst.
    destruct (String.eqb_spec k k0) as [->|Hn]; cbn.
    + now constructor.
    + constructor; [|now apply IH].
      intros Hin. apply keys_set_In in Hin as [->|Hin];
        [congruence | exact (Hk Hin)].
Qed.

Lemma set_all_equal (o : obj) (k : string) :
  Forall (fun kv => snd kv = JStr (fst kv)) o ->
  Forall (fun kv => snd kv = JStr (fst kv)) (Obj.set o k (JStr k)).
Proof.
  induction 1 as [|[k0 v0] o H0 Ho IH]; cbn.
  - constructor; [reflexivity | constructor].
  - destruct (String.eqb k k0); constructor; auto.
Qed.

Lemma fixedContent_invariant (keys : list string) (acc : obj) :
  NoDup (Obj.keys acc) -> Forall (fun kv => snd kv = JStr (fst kv)) acc ->
  let fixed := fold_left (fun acc cur => Obj.set acc cur (JStr cur)) keys acc in
  NoDup (Obj.keys fixed) /\ Forall (fun kv => snd kv = JStr (fst kv)) fixed.
Proof.
  revert acc. induction keys as [|k keys IH]; intros acc Hnd Hall; cbn; [auto|].
  apply IH; [now apply set_keys_NoDup | now apply set_all_equal].
Qed.

Lemma consistent_no_inconsistentKeys (o : obj) :
  NoDup (Obj.keys o) -> Forall (fun kv => snd kv = JStr (fst kv)) o ->
  inconsistentKeys o = [].
Proof.
  intros Hnd Hall. unfold inconsistentKeys. apply filter_none.
  apply forallb_forall. intros k Hk.
  apply in_map_iff in Hk as ([k' v] & <- & Hin). cbn [fst].
  rewrite (In_get o k' v Hnd Hin).
  rewrite Forall_forall in Hall. specialize (Hall _ Hin). cbn in Hall. subst v.
  cbn. now rewrite String.eqb_refl.
Qed.

Lemma fixedContent_map (c : obj) :
  NoDup (Obj.keys c) ->
  fixedContent c = map (fun kv => (fst kv, JStr (fst kv))) c.
Proof.
  intros Hnd. unfold fixedContent.
  transitivity (fold_left (fun acc kv => Obj.set acc (fst kv) (snd kv))
                  (map (fun kv : string * json => (fst kv, JStr (fst kv))) c) []).
  - clear Hnd. unfold Obj.keys. generalize (@nil (string * json)).
    induction c as [|kv c IH]; intros acc; [reflexivity|]. cbn. apply IH.
  - rewrite fold_set_fresh; [reflexivity | | intros ? _ []].
    unfold Obj.keys in *. rewrite map_map. exact Hnd.
Qed.

(** X1. What [fixSourceInconsistencies] writes for a file has no
    inconsistent key, whatever the file held, and fixing it again gives
    the same content. *)
Theorem fix_restores_consistency (c : obj) :
  inconsistentKeys (fixedContent c) = []
  /\ fixedContent (fixedContent c) = fixedContent c.
Proof.
  destruct (fixedContent_invariant (Obj.keys c) [] (NoDup_nil _) (Forall_nil _))
    as [Hnd Hall].
  fold (fixedContent c) in Hnd, Hall.
  split; [now apply consistent_no_inconsistentKeys|].
  rewrite (fixedContent_map (fixedContent c) Hnd).
  rewrite <- (map_id (fixedContent c)) at 2.
  apply map_ext_in. intros [k v] Hin.
  rewrite Forall_forall in Hall. specialize (Hall _ Hin). cbn in *. now subst.
Qed.

(** X2. On a file with distinct keys the fix keeps the keys and their order
    and sets every value to its key. *)
Theorem fix_keeps_keys (c : obj) :
  NoDup (Obj.keys c) ->
  fixedContent c = map (fun kv => (fst kv, JStr (fst kv))) c
  /\ Obj.keys (fixedContent c) = Obj.keys c.
Proof.
  intros Hnd. rewrite (fixedContent_map c Hnd). split; [reflexivity|].
  unfold Obj.keys. rewrite map_map. reflexivity.
Qed.

Lemma fix_keeps_keys_witness :
  fixedContent [("Save", JStr "Guardar"); ("Open file", JArr [])]
  = [("Save", JStr "Save"); ("Open file", JStr "Open file")].
Proof.
  apply (fix_keeps_keys [("Save", JStr "Guardar"); ("Open file", JArr [])]).
  apply nodupb_NoDup. reflexivity.
Defined.

(** X4. [arrayToString] on an object with distinct keys: every top-level
    array becomes the string of its elements joined with the separator,
    every other member stays, keys and order are kept, and a second pass
    changes nothing. *)
Theorem arrayToString_encodes (o : obj) :
  NoDup (Obj.keys o) ->
  arrayToString o = map encode_entry o
  /\ Obj.keys (arrayToString o) = Obj.keys o
  /\ (forall k, isArray (Obj.get (arrayToString o) k) = false)
  /\ arrayToString (arrayToString o) = arrayToString o.
Proof.
  intros Hnd.
  assert (E : arrayToString o = map encode_entry o) by now apply arrayToString_map.
  assert (Hkeys : Obj.keys (map encode_entry o) = Obj.keys o).
  { unfold Obj.keys. rewrite map_map. reflexivity. }
  rewrite E. split; [reflexivity|]. split; [exact Hkeys|].
  assert (Hnd' : NoDup (Obj.keys (map encode_entry o))) by now rewrite Hkeys.
  split.
  - intros k. destruct (Obj.get (map encode_entry o) k) as [v|] eqn:Hget;
      [|reflexivity].
    apply get_In in Hget. apply in_map_iff in Hget as ([k' v'] & Heq & _).
    injection Heq as _ <-. now destruct v'.
  - rewrite (arrayToString_map _ Hnd'), map_map.
    apply map_ext. intros [k v]. unfold encode_entry. cbn. now destruct v.
Qed.

Lemma arrayToString_encodes_witness :
  arrayToString Documents.menu = map encode_entry Documents.menu.
Proof.
  apply (arrayToString_encodes Documents.menu).
  apply nodupb_NoDup. reflexivity.
Defined.

Lemma fold_thrown (keys : list string) :
  fold_left
    (fun acc key =>
       match acc with
       | None => None
       | Some cur =>
           match Obj.get cur key with
           | Some (JStr s) =>
               let splitted := JsString.split s sepKey in
               Some (Obj.set cur key
                       match splitted with
                       | [one] => JStr one
                       | _ => JArr (map JStr splitted)
                       end)
           | _ => None
           end
       end) keys None = None.
Proof. induction keys as [|k keys IH]; [reflexivity | exact IH]. Qed.

Lemma stringToArray_throws (o : obj) :
  NoDup (Obj.keys o) ->
  forallb (fun kv => typeof_string (Some (snd kv))) o = false ->
  stringToArray o = None.
Proof.
  intros Hnd Hstr. unfold stringToArray.
  enough (G : forall done,
             (forall k, In k (Obj.keys o) -> ~ In k (Obj.keys done)) ->
             fold_left
               (fun acc key =>
                  match acc with
                  | None => None
                  | Some cur =>
                      match Obj.get cur key with
                      | Some (JStr s) =>
                          let splitted := JsString.split s sepKey in
                          Some (Obj.set cur key
                                  match splitted with
                                  | [one] => JStr one
                                  | _ => JArr (map JStr splitted)
                                  end)
                      | _ => None
                      end
                  end)
               (Obj.keys o) (Some (done ++ o)) = None)
    by (apply (G []); intros ? _ []).
  induction o as [|[k v] o IH]; intros done Hd; [discriminate|].
  cbn [Obj.keys map fst snd fold_left forallb] in *.
  inversion Hnd as [|? ? Hk Ho]; subst.
  assert (Hfresh : ~ In k (Obj.keys done)) by (apply Hd; now left).
  rewrite get_app_fresh by exact Hfresh. cbn [Obj.get]. rewrite String.eqb_refl.
  destruct v as [| | |s| |]; try apply fold_thrown.
  cbn [typeof_string andb] in Hstr.
  cbv zeta. rewrite set_app_fresh by exact Hfresh. cbn [Obj.set].
  rewrite String.eqb_refl.
  match goal with
  | |- context [done ++ (k, ?w) :: o] =>
      change (done ++ (k, w) :: o) with (done ++ [(k, w)] ++ o)
  end.
  rewrite app_assoc. apply IH; [exact Ho | exact Hstr |].
  intros k0 Hk0. rewrite keys_app, in_app_iff. cbn.
  intros [H|[<-|[]]]; [|contradiction].
  eapply Hd; [right; exact Hk0 | exact H].
Qed.

(** X5. [stringToArray] on an object with distinct keys raises its TypeError
    exactly when some top-level value is not a string; otherwise it
    returns the object with every value decoded in place. *)
Theorem stringToArray_fails_on_non_strings (o : obj) :
  NoDup (Obj.keys o) ->
  (stringToArray o = None
   <-> exists k v, In (k, v) o /\ typeof_string (Some v) = false)
  /\ (stringToArray o <> None -> stringToArray o = Some (map decode_entry o)).
Proof.
  intros Hnd.
  destruct (forallb (fun kv => typeof_string (Some (snd kv))) o) eqn:Hstr.
  - rewrite (stringToArray_map o Hnd Hstr). split; [|reflexivity].
    split; [discriminate|]. intros (k & v & Hin & Hv).
    rewrite forallb_forall in Hstr. specialize (Hstr _ Hin). cbn [snd] in Hstr.
    congruence.
  - rewrite (stringToArray_throws o Hnd Hstr). split; [|congruence].
    split; [|reflexivity]. intros _.
    assert (H : ~ forallb (fun kv => typeof_string (Some (snd kv))) o = true)
      by congruence.
    rewrite forallb_forall in H.
    induction o as [|[k v] o IH]; [destruct H; intros ? []|].
    cbn [forallb snd] in Hstr. destruct (typeof_string (Some v)) eqn:Hv.
    + inversion Hnd; subst. destruct IH as (k' & v' & Hin & Hv'); auto.
      * intros H'. apply H. intros x [<-|Hx]; [exact Hv | now apply H'].
      * exists k', v'. split; [now right | exact Hv'].
    + exists k, v. split; [now left | exact Hv].
Qed.

Lemma stringToArray_fails_on_non_strings_witness :
  stringToArray Documents.nested = None.
Proof.
  apply (stringToArray_fails_on_non_strings Documents.nested).
  - apply nodupb_NoDup. reflexivity.
  - exists "a", (JObj [("b", JStr "x")]). split; [now left | reflexivity].
Defined.

Lemma map_fixed_points {A} (f : A -> A) (l : list A) :
  map f l = l <-> (forall x, In x l -> f x = x).
Proof.
  induction l as [|a l IH]; cbn; [tauto|]. split.
  - intros [= Ha Hl] x [<-|Hx]; [exact Ha | now apply IH].
  - intros H. rewrite (H a (or_introl eq_refl)). f_equal. apply IH. auto.
Qed.

Lemma split_from_two_pieces (sep s : string) :
  sep <> EmptyString -> JsString.includes s sep = true ->
  2 <= List.length (JsString.split_from sep 0 s).
Proof.
  intros Hsep. induction s as [|c s IH]; cbn [JsString.includes JsString.split_from].
  - destruct sep; [congruence | discriminate].
  - destruct (String.prefix sep (String c s)).
    + intros _. cbn [List.length].
      pose proof (split_from_nonempty sep (String.length sep - 1) s) as Hne.
      destruct (JsString.split_from sep (String.length sep - 1) s);
        [congruence | cbn; lia].
    + intros H. specialize (IH H).
      destruct (JsString.split_from sep 0 s); cbn in *; lia.
Qed.

Lemma decode_unchanged_iff (s : string) :
  decode_value (JStr s) = JStr s <-> JsString.includes s sepKey = false.
Proof.
  cbn [decode_value]. unfold decode_string. rewrite split_sepKey. split.
  - intros H. destruct (JsString.includes s sepKey) eqn:E; [|reflexivity].
    apply split_from_two_pieces in E; [|discriminate].
    destruct (JsString.split_from sepKey 0 s) as [|p1 [|p2 ps]];
      cbn in *; try lia; discriminate.
  - intros H. now rewrite split_from_whole.
Qed.

Lemma get_decoded (o : obj) (k : string) :
  Obj.get (map decode_entry o) k = option_map decode_value (Obj.get o k).
Proof.
  induction o as [|[k' v'] o IH]; [reflexivity|].
  cbn [map decode_entry fst snd Obj.get].
  destruct (String.eqb k k'); [reflexivity | exact IH].
Qed.

Lemma decode_separated (s : string) :
  JsString.includes s sepKey = true ->
  decode_value (JStr s) = JArr (map JStr (JsString.split s sepKey))
  /\ 2 <= List.length (JsString.split s sepKey).
Proof.
  intros H. cbn [decode_value]. unfold decode_string. rewrite split_sepKey.
  apply split_from_two_pieces in H; [|discriminate].
  split; [|exact H].
  destruct (JsString.split_from sepKey 0 s) as [|p1 [|p2 ps]];
    cbn in *; try lia; reflexivity.
Qed.

(** X6. On an object with distinct keys and string values, [stringToArray]
    gives the object back exactly when no value contains the separator;
    a value that contains it comes back as the array of its pieces, of
    which there are at least two. *)
Theorem stringToArray_identity_iff (o : obj) :
  NoDup (Obj.keys o) ->
  forallb (fun kv => typeof_string (Some (snd kv))) o = true ->
  (stringToArray o = Some o
   <-> forall k s, In (k, JStr s) o -> JsString.includes s sepKey = false)
  /\ (forall k s,
        In (k, JStr s) o -> JsString.includes s sepKey = true ->
        exists result,
          stringToArray o = Some result
          /\ Obj.get result k = Some (JArr (map JStr (JsString.split s sepKey)))
          /\ 2 <= List.length (JsString.split s sepKey)).
Proof.
  intros Hnd Hstr. rewrite (stringToArray_map o Hnd Hstr).
  change (map (fun kv => (fst kv, decode_value (snd kv))) o)
    with (map decode_entry o).
  split; [split|].
  - intros H k s Hin. injection H as H.
    pose proof (proj1 (map_fixed_points decode_entry o) H _ Hin) as H'.
    unfold decode_entry in H'. cbn [fst snd] in H'.
    apply decode_unchanged_iff. congruence.
  - intros H. apply f_equal. apply map_fixed_points. intros [k v] Hin.
    rewrite forallb_forall in Hstr. specialize (Hstr _ Hin). cbn [snd] in Hstr.
    destruct v as [| | |s| |]; try discriminate.
    unfold decode_entry. cbn [fst snd].
    now rewrite (proj2 (decode_unchanged_iff s) (H k s Hin)).
  - intros k s Hin Hsep. exists (map decode_entry o).
    destruct (decode_separated s Hsep) as [Hdec Hlen].
    split; [reflexivity|]. split; [|exact Hlen].
    rewrite get_decoded, (In_get o k (JStr s) Hnd Hin). cbn [option_map].
    now rewrite Hdec.
Qed.

Lemma stringToArray_identity_iff_witness :
  (stringToArray [("title", JStr "Menu"); ("hint", JStr "a < b")]
   = Some [("title", JStr "Menu"); ("hint", JStr "a < b")])
  /\ exists result,
       stringToArray [("title", JStr "Menu"); ("items", JStr "a <sep /> b")]
       = Some result
       /\ Obj.get result "items" = Some (JArr [JStr "a"; JStr "b"]).
Proof.
  split.
  - apply (stringToArray_identity_iff [("title", JStr "Menu"); ("hint", JStr "a < b")]).
    + apply nodupb_NoDup. reflexivity.
    + reflexivity.
    + intros k s [[= <- <-]|[[= <- <-]|[]]]; reflexivity.
  - destruct (stringToArray_identity_iff
                [("title", JStr "Menu"); ("items", JStr "a <sep /> b")])
      as [_ H].
    + apply nodupb_NoDup. reflexivity.
    + reflexivity.
    + destruct (H "items" "a <sep /> b") as (result & Hrun & Hget & _).
      * right. now left.
      * reflexivity.
      * exists result. split; [exact Hrun | exact Hget].
Defined.

(** X7. The array codec on one flat object: when the keys are distinct and
    every value is a string without " <sep />" or an array of at least
    two such strings, decoding what [arrayToString] gives returns the
    object itself. *)
Theorem stringToArray_undoes_arrayToString (o : obj) :
  NoDup (Obj.keys o) ->
  forallb (fun kv => leaf_ok (snd kv)) o = true ->
  stringToArray (arrayToString o) = Some o.
Proof.
  intros Hnd Hok. rewrite (arrayToString_map o Hnd).
  change (map (fun kv => (fst kv, encode_value (snd kv))) o) with (map encode_entry o).
  rewrite forallb_forall in Hok.
  rewrite stringToArray_map.
  - apply f_equal. rewrite map_map. apply map_fixed_points. intros [k v] Hin.
    unfold encode_entry. cbn [fst snd].
    now rewrite (decode_encode_leaf v (Hok _ Hin)).
  - unfold Obj.keys in *. rewrite map_map. exact Hnd.
  - apply forallb_forall. intros kv Hkv.
    apply in_map_iff in Hkv as ([k v] & <- & Hin). cbn [encode_entry fst snd].
    apply encode_leaf_is_string, (Hok _ Hin).
Qed.

Lemma stringToArray_undoes_arrayToString_witness :
  stringToArray
    (arrayToString [("title", JStr "Menu"); ("items", JArr [JStr "a"; JStr "b"])])
  = Some [("title", JStr "Menu"); ("items", JArr [JStr "a"; JStr "b"])].
Proof.
  apply (stringToArray_undoes_arrayToString
           [("title", JStr "Menu"); ("items", JArr [JStr "a"; JStr "b"])]).
  - apply nodupb_NoDup. reflexivity.
  - reflexivity.
Defined.

(** ** The two checks on the template files *)

(** X8. A document that the detection calls key-based has no invalid key:
    the keys the invalid-key check looks for are among those that make a
    document natural. *)
Theorem key_based_detection_has_no_invalid_key (c : obj) :
  detectFileType c = key_based -> invalidKeys c = [].
Proof.
  unfold detectFileType, invalidKeys.
  set (natural_keys := filter _ (Obj.keys c)).
  destruct (Nat.ltb 0 (List.length natural_keys)) eqn:E; [discriminate|].
  intros _. destruct natural_keys as [|k ks] eqn:Hn; [|discriminate].
  apply filter_none. apply forallb_forall. intros k Hk.
  assert (Hnot : ~ In k natural_keys) by (rewrite Hn; intros []).
  unfold natural_keys in Hnot. rewrite filter_In in Hnot.
  destruct (typeof_string (Obj.get c k)); [|reflexivity].
  destruct (JsString.includes k "."); [|reflexivity].
  exfalso. apply Hnot. split; [exact Hk | reflexivity].
Qed.

Lemma key_based_detection_has_no_invalid_key_witness :
  invalidKeys Documents.menu = [].
Proof.
  apply (key_based_detection_has_no_invalid_key Documents.menu). reflexivity.
Defined.

(** ** The trace accounts for the files *)

Section Accounts.
Context {P : Type}.
Implicit Types (st : State P) (allowed : Event -> bool).

Lemma replay_app (e1 e2 : list Event) (fs : FS) :
  replay (e1 ++ e2) fs = replay e2 (replay e1 fs).
Proof. apply fold_left_app. Qed.

Lemma replay_quiet (events : list Event) (fs : FS) :
  forallb (fun e => negb (is_file_operation e)) events = true ->
  replay events fs = fs.
Proof.
  revert fs. induction events as [|e events IH]; intros fs; cbn; [reflexivity|].
  rewrite andb_true_iff. intros [He H]. rewrite <- (IH fs H) at 2.
  f_equal. now destruct e.
Qed.

Lemma accounted_refl allowed st : accounted allowed st st.
Proof. exists []. now rewrite app_nil_r. Qed.

Lemma accounted_trans allowed st1 st2 st3 :
  accounted allowed st1 st2 -> accounted allowed st2 st3 -> accounted allowed st1 st3.
Proof.
  intros (e1 & Ht1 & Ha1 & Hd1) (e2 & Ht2 & Ha2 & Hd2).
  exists (e1 ++ e2). split; [now rewrite Ht2, Ht1, app_assoc|].
  split; [now rewrite forallb_app, Ha1, Ha2|].
  now rewrite replay_app, <- Hd1.
Qed.

Lemma accounts_ret {A} allowed (a : A) : accounts allowed (@ret P A a).
Proof. intros st. apply accounted_refl. Qed.

Lemma accounts_throw {A} allowed e : accounts allowed (@throw P A e).
Proof. intros st. apply accounted_refl. Qed.

Lemma accounts_exit {A} allowed code : accounts allowed (@exit P A code).
Proof. intros st. apply accounted_refl. Qed.

Lemma accounts_get_state allowed : accounts allowed (@get_state P).
Proof. intros st. apply accounted_refl. Qed.

Lemma accounts_bind {A B} allowed (c : M P A) (k : A -> M P B) :
  accounts allowed c -> (forall a, accounts allowed (k a)) ->
  accounts allowed (bind c k).
Proof.
  intros Hc Hk st. unfold bind. specialize (Hc st).
  destruct (c st) as [a st1|e st1|code st1]; cbn [final] in *; [|exact Hc..].
  eapply accounted_trans; [exact Hc | apply Hk].
Qed.

Lemma accounts_forEach {A} allowed (l : list A) (body : A -> M P unit) :
  (forall a, In a l -> accounts allowed (body a)) ->
  accounts allowed (forEach l body).
Proof.
  induction l as [|a l IH]; intros H; cbn.
  - apply accounts_ret.
  - apply accounts_bind; [apply H; now left|].
    intros _. apply IH. intros b Hb. apply H. now right.
Qed.

(** What leaves the files alone and prints only allowed events that are
    not file operations is accounted for. *)
Lemma framed_accounts {A} kp allowed x (c : M P A) :
  framed kp (fun e => allowed e && negb (is_file_operation e)) x c ->
  accounts allowed c.
Proof.
  intros H st. destruct (H st) as [(Hd & _ & events & Ht & Hall) _].
  exists events. split; [exact Ht|].
  assert (Hboth : forallb allowed events = true
                  /\ forallb (fun e => negb (is_file_operation e)) events = true).
  { rewrite !forallb_forall in *. split; intros e He;
      specialize (Hall e He); apply andb_true_iff in Hall; tauto. }
  split; [tauto|]. rewrite replay_quiet by tauto. exact Hd.
Qed.

Lemma accounts_log allowed e :
  allowed e = true -> is_file_operation e = false -> accounts allowed (@log P e).
Proof.
  intros Ha Hf. apply (framed_accounts true allowed false).
  apply framed_log. now rewrite Ha, Hf.
Qed.

Lemma accounts_call {A} allowed (f : P -> (string + A) * P) :
  accounts allowed (@call P A f).
Proof. apply (framed_accounts false allowed false), framed_call. Qed.

Lemma accounts_loadTranslations allowed d ft :
  (forall o, allowed (EvDump o) = true) ->
  accounts allowed (@loadTranslations P d ft).
Proof.
  intros Ha. apply (framed_accounts true allowed false).
  apply framed_loadTranslations. intros o. now rewrite Ha.
Qed.

Lemma accounts_writeFileSync allowed d f c :
  allowed (FsWrite d f c) = true -> accounts allowed (@writeFileSync P d f c).
Proof.
  intros Ha st. unfold writeFileSync.
  destruct (Obj.get (disk st) d); [|apply accounted_refl].
  exists [FsWrite d f c]. cbn. now rewrite Ha.
Qed.

Lemma accounts_unlinkSync allowed d f :
  allowed (FsUnlink d f) = true -> accounts allowed (@unlinkSync P d f).
Proof.
  intros Ha st. exists [FsUnlink d f]. cbn. now rewrite Ha.
Qed.

Lemma accounts_fixSourceInconsistencies allowed d :
  (forall o, allowed (EvDump o) = true) ->
  (forall f c, allowed (FsWrite d f c) = true) ->
  accounts allowed (@fixSourceInconsistencies P d).
Proof.
  intros Hdump Hwrite. unfold fixSourceInconsistencies.
  apply accounts_bind; [now apply accounts_loadTranslations|]. intros loaded.
  apply accounts_forEach. intros file _.
  apply accounts_bind; [apply accounts_get_state|]. intros st.
  apply accounts_writeFileSync, Hwrite.
Qed.

End Accounts.

Section TranslateAccounts.
Context {P Matcher : Type}.
Variable serviceMap : list (string * TranslationService P Matcher).
Variable matcherMap : list (string * Matcher).
Variables (sourceLang : string) (deleteUnusedStrings : bool) (fileType : FileType).
Variables (fixInconsistencies : bool) (service matcher : string).
Variable config : option string.
Variable allowed : Event -> bool.
Hypothesis console : forall e, is_file_operation e = false -> allowed e = true.
Hypothesis target_writes :
  String.eqb service "dryRun" = false ->
  forall language f c, language <> sourceLang -> allowed (FsWrite language f c) = true.
Hypothesis target_unlinks :
  deleteUnusedStrings = true ->
  forall language f, language <> sourceLang -> allowed (FsUnlink language f) = true.
Hypothesis source_writes :
  fixInconsistencies = true -> forall f c, allowed (FsWrite sourceLang f c) = true.

Ltac printed := apply accounts_log; [apply console; reflexivity | reflexivity].

Lemma translateFile_accounts (translationService : TranslationService P Matcher)
    language existingFiles templateFile :
  language <> sourceLang ->
  accounts allowed
    (translateFile sourceLang deleteUnusedStrings service translationService
       language existingFiles templateFile).
Proof.
  intros Hneq. unfold translateFile.
  apply accounts_bind; [printed|]. intros _.
  apply accounts_bind; [apply accounts_get_state|]. intros st.
  apply accounts_bind; [printed|]. intros _.
  apply accounts_bind; [apply accounts_call|]. intros translatedStrings.
  apply accounts_bind; [|intros _; printed].
  destruct (String.eqb service "dryRun") eqn:Hdry; cbn [negb].
  - apply accounts_ret.
  - apply accounts_writeFileSync. now apply target_writes.
Qed.

Lemma translateLanguage_accounts (translationService : TranslationService P Matcher)
    availableLanguages templateFiles language :
  language <> sourceLang ->
  accounts allowed
    (translateLanguage sourceLang deleteUnusedStrings fileType service
       translationService availableLanguages templateFiles language).
Proof.
  intros Hneq. unfold translateLanguage.
  destruct (negb (Obj.includes availableLanguages language)); [printed|].
  apply accounts_bind;
    [apply accounts_loadTranslations; intros; now apply console|].
  intros existingFiles.
  apply accounts_bind; [printed|]. intros _.
  apply accounts_bind.
  - destruct deleteUnusedStrings eqn:Hdel; [|apply accounts_ret].
    apply accounts_forEach. intros file _.
    apply accounts_bind; [printed|]. intros _.
    apply accounts_unlinkSync. now apply target_unlinks.
  - intros _. apply accounts_bind; [|intros _; printed].
    apply accounts_forEach. intros templateFile _.
    now apply translateFile_accounts.
Qed.

Lemma findInconsistentFiles_accounts files :
  accounts allowed (@findInconsistentFiles P files).
Proof.
  apply (framed_accounts true allowed false), framed_findInconsistentFiles.
  intros f n. rewrite console; reflexivity.
Qed.

Lemma findInvalidFiles_accounts files :
  accounts allowed (@findInvalidFiles P files).
Proof.
  apply (framed_accounts true allowed false), framed_findInvalidFiles.
  intros f n. rewrite console; reflexivity.
Qed.

Lemma reportInconsistencies_accounts templateFiles :
  accounts allowed
    (@reportInconsistencies P sourceLang fixInconsistencies templateFiles).
Proof.
  unfold reportInconsistencies.
  apply accounts_bind; [apply findInconsistentFiles_accounts|]. intros names.
  destruct (Nat.ltb 0 (List.length names)); [|printed].
  apply accounts_bind; [printed|]. intros _.
  destruct fixInconsistencies eqn:Hfix; [|printed].
  apply accounts_bind; [printed|]. intros _.
  apply accounts_bind; [|intros _; printed].
  apply accounts_fixSourceInconsistencies.
  - intros o. now apply console.
  - now apply source_writes.
Qed.

Lemma rejectInvalidKeys_accounts templateFiles :
  accounts allowed (@rejectInvalidKeys P templateFiles).
Proof.
  unfold rejectInvalidKeys.
  apply accounts_bind; [apply findInvalidFiles_accounts|]. intros names.
  destruct (Nat.ltb 0 (List.length names)); [|printed].
  apply accounts_bind; [printed|]. intros _. apply accounts_exit.
Qed.

(** Every event of a run is a message or one of the file operations the
    flags permit, and the files after the run are the files before it
    with those operations applied in order. *)
Lemma translate_accounts :
  accounts allowed
    (translate serviceMap matcherMap sourceLang deleteUnusedStrings fileType
       fixInconsistencies service matcher config).
Proof.
  unfold translate.
  apply accounts_bind;
    [intros st; unfold getAvailableLanguages; apply accounted_refl|].
  intros languageFolders.
  destruct (negb (Obj.includes languageFolders sourceLang)); [apply accounts_throw|].
  destruct (Obj.get serviceMap service) as [translationService|];
    [|apply accounts_throw].
  destruct (Obj.get matcherMap matcher) as [theMatcher|]; [|apply accounts_throw].
  apply accounts_bind;
    [apply accounts_loadTranslations; intros; now apply console|].
  intros templateFiles.
  destruct (Nat.eqb (List.length templateFiles) 0); [apply accounts_throw|].
  apply accounts_bind; [printed|]. intros _.
  apply accounts_bind; [apply accounts_forEach; intros file _; printed|]. intros _.
  apply accounts_bind; [printed|]. intros _.
  apply accounts_bind; [apply accounts_call|]. intros _.
  apply accounts_bind; [apply accounts_call|]. intros availableLanguages.
  apply accounts_bind; [printed|]. intros _.
  destruct (negb (Obj.includes availableLanguages sourceLang));
    [apply accounts_throw|].
  apply accounts_bind; [apply reportInconsistencies_accounts|]. intros _.
  apply accounts_bind; [apply rejectInvalidKeys_accounts|]. intros _.
  apply accounts_bind; [|intros _; printed].
  apply accounts_forEach. intros language Hl.
  apply translateLanguage_accounts.
  apply filter_In in Hl as [_ Hl]. apply negb_true_iff in Hl.
  now apply String.eqb_neq.
Qed.

End TranslateAccounts.

Lemma get_delete_other (fs : FS) (d d' f : string) :
  d' <> d -> Obj.get (delete_file fs d f) d' = Obj.get fs d'.
Proof.
  intros H. unfold delete_file. destruct (Obj.get fs d); [|reflexivity].
  now apply get_set_other.
Qed.

Lemma get_store_other (fs : FS) (d d' f : string) (c : obj) :
  d' <> d -> Obj.get (store_file fs d f c) d' = Obj.get fs d'.
Proof. intros H. unfold store_file. now apply get_set_other. Qed.

(** Operations outside a directory leave the directory as it is. *)
Lemma replay_outside (dir : string) (events : list Event) (fs : FS) :
  forallb (outside dir) events = true ->
  Obj.get (replay events fs) dir = Obj.get fs dir.
Proof.
  revert fs. induction events as [|e events IH]; intros fs; cbn; [reflexivity|].
  rewrite andb_true_iff. intros [He H]. unfold replay in IH. rewrite IH by exact H.
  destruct e; try reflexivity; cbn in He; apply negb_true_iff in He;
    apply String.eqb_neq in He.
  - apply get_store_other. congruence.
  - apply get_delete_other. congruence.
Qed.

(** Writes never make a file disappear. *)
Lemma replay_keeps_files (events : list Event) (fs : FS) (d f : string) :
  forallb (fun e => negb (is_unlink e)) events = true ->
  read_file fs d f <> None -> read_file (replay events fs) d f <> None.
Proof.
  revert fs. induction events as [|e events IH]; intros fs; cbn; [auto|].
  rewrite andb_true_iff. intros [He H] Hfile. apply IH; [exact H|].
  destruct e; try exact Hfile; [|discriminate]. cbn.
  destruct (String.eqb_spec d dir) as [->|Hd].
  - destruct (String.eqb_spec f file) as [->|Hf].
    + now rewrite read_store_same.
    + rewrite read_store_other; [exact Hfile | now right].
  - rewrite read_store_other; [exact Hfile | now left].
Qed.

Section Guarantees.
Context {P Matcher : Type}.
Variable serviceMap : list (string * TranslationService P Matcher).
Variable matcherMap : list (string * Matcher).
Variables (sourceLang : string) (fileType : FileType).
Variables (service matcher : string) (config : option string).

(** The trace of a run accounts for its effect on the files: whatever
    the flags and however the run ends, the files it leaves are the files
    it found with the writes and the deletions of its trace applied in
    order. *)
Theorem files_follow_the_trace deleteUnusedStrings fixInconsistencies
    (st : State P) :
  exists events,
    trace (final (translate serviceMap matcherMap sourceLang deleteUnusedStrings
                    fileType fixInconsistencies service matcher config st))
    = trace st ++ events
    /\ disk (final (translate serviceMap matcherMap sourceLang deleteUnusedStrings
                      fileType fixInconsistencies service matcher config st))
       = replay events (disk st).
Proof.
  destruct (translate_accounts serviceMap matcherMap sourceLang deleteUnusedStrings
              fileType fixInconsistencies service matcher config (fun _ => true)
              (fun _ _ => eq_refl) (fun _ _ _ _ _ => eq_refl)
              (fun _ _ _ _ => eq_refl) (fun _ _ _ => eq_refl) st)
    as (events & Ht & _ & Hd).
  exists events. auto.
Qed.

(** X15. Without the deletion flag a run unlinks nothing, and no file that
    was there is missing afterwards. *)
Theorem nothing_deleted_without_the_flag fixInconsistencies (st : State P) :
  let st' :=
    final (translate serviceMap matcherMap sourceLang false fileType
             fixInconsistencies service matcher config st) in
  (exists events,
      trace st' = trace st ++ events
      /\ forallb (fun e => negb (is_unlink e)) events = true)
  /\ (forall dir file,
        read_file (disk st) dir file <> None -> read_file (disk st') dir file <> None).
Proof.
  intros st'.
  destruct (translate_accounts serviceMap matcherMap sourceLang false
              fileType fixInconsistencies service matcher config
              (fun e => negb (is_unlink e))) with (st := st)
    as (events & Ht & Ha & Hd).
  - intros e He. now destruct e.
  - reflexivity.
  - discriminate.
  - reflexivity.
  - fold st' in Ht, Hd. split; [eauto|].
    intros dir file Hfile. rewrite Hd. now apply replay_keeps_files.
Qed.

(** X16. Without the fix flag a run performs no file operation in the source
    directory, which is left exactly as it was. *)
Theorem source_untouched_without_fix deleteUnusedStrings (st : State P) :
  let st' :=
    final (translate serviceMap matcherMap sourceLang deleteUnusedStrings fileType
             false service matcher config st) in
  (exists events,
      trace st' = trace st ++ events
      /\ forallb (outside sourceLang) events = true)
  /\ Obj.get (disk st') sourceLang = Obj.get (disk st) sourceLang.
Proof.
  intros st'.
  destruct (translate_accounts serviceMap matcherMap sourceLang deleteUnusedStrings
              fileType false service matcher config (outside sourceLang))
    with (st := st) as (events & Ht & Ha & Hd).
  - intros e He. now destruct e.
  - intros _ language f c Hneq. cbn. apply negb_true_iff. now apply String.eqb_neq.
  - intros _ language f Hneq. cbn. apply negb_true_iff. now apply String.eqb_neq.
  - discriminate.
  - fold st' in Ht, Hd. split; [eauto|].
    rewrite Hd. now apply replay_outside.
Qed.

End Guarantees.

Section DryRun.
Context {P Matcher : Type}.
Variable serviceMap : list (string * TranslationService P Matcher).
Variable matcherMap : list (string * Matcher).
Variables (sourceLang : string) (fileType : FileType).
Variables (matcher : string) (config : option string).

(** X17. A dry run without the deletion and fix flags performs no file
    operation, and the files after it are the files before it. *)
Theorem dry_run_without_flags_keeps_files (st : State P) :
  let st' :=
    final (translate serviceMap matcherMap sourceLang false fileType false
             "dryRun" matcher config st) in
  (exists events,
      trace st' = trace st ++ events /\ file_operations events = [])
  /\ disk st' = disk st.
Proof.
  intros st'.
  destruct (translate_accounts serviceMap matcherMap sourceLang false fileType
              false "dryRun" matcher config (fun e => negb (is_file_operation e)))
    with (st := st) as (events & Ht & Ha & Hd).
  - intros e He. now rewrite He.
  - discriminate.
  - discriminate.
  - discriminate.
  - fold st' in Ht, Hd. split.
    + exists events. split; [exact Ht|]. now apply filter_none.
    + rewrite Hd. now apply replay_quiet.
Qed.

End DryRun.

(** X3. [fixSourceInconsistencies] writes inside its directory only: every
    other directory is left exactly as it was. *)
Theorem fix_stays_in_its_directory {P : Type} (directory other : string)
    (st : State P) :
  other <> directory ->
  Obj.get (disk (final (fixSourceInconsistencies directory st))) other
  = Obj.get (disk st) other.
Proof.
  intros Hneq.
  destruct (@accounts_fixSourceInconsistencies P (outside other) directory)
    with (st := st) as (events & _ & Ha & Hd).
  - reflexivity.
  - intros f c. cbn. apply negb_true_iff, String.eqb_neq. congruence.
  - rewrite Hd. now apply replay_outside.
Qed.

Lemma fix_stays_in_its_directory_witness :
  Obj.get (disk (final (fixSourceInconsistencies "en"
                          (start Samples.inconsistent_ui tt)))) "fr"
  = Obj.get (disk (start Samples.inconsistent_ui tt)) "fr".
Proof.
  apply (fix_stays_in_its_directory "en" "fr" (start Samples.inconsistent_ui tt)).
  discriminate.
Defined.

(** ** Configuration errors and the invalid-key gate *)

Section Configuration.
Context {P Matcher : Type}.
Variable serviceMap : list (string * TranslationService P Matcher).
Variable matcherMap : list (string * Matcher).
Variables (sourceLang : string) (deleteUnusedStrings : bool) (fileType : FileType).
Variables (fixInconsistencies : bool) (service matcher : string).
Variable config : option string.

(** X12. Without a directory for the source language the run throws at once,
    whatever the other arguments are, and the state is untouched. *)
Theorem missing_source_language_throws (st : State P) :
  ~ In sourceLang (Obj.keys (disk st)) ->
  translate serviceMap matcherMap sourceLang deleteUnusedStrings fileType
    fixInconsistencies service matcher config st
  = Thrown (SourceLanguageMissing sourceLang) st.
Proof.
  intros H. apply includes_not_In in H.
  unfold translate, bind, getAvailableLanguages. now rewrite H.
Qed.

(** X13. With the source directory present, an unknown service is reported
    before an unknown matcher, and either one before any file is read:
    the state is untouched. *)
Theorem unknown_service_or_matcher_throws (st : State P) :
  In sourceLang (Obj.keys (disk st)) ->
  Obj.get serviceMap service = None \/ Obj.get matcherMap matcher = None ->
  translate serviceMap matcherMap sourceLang deleteUnusedStrings fileType
    fixInconsistencies service matcher config st
  = Thrown (match Obj.get serviceMap service with
            | None => ServiceMissing service
            | Some _ => MatcherMissing matcher
            end) st.
Proof.
  intros Hsource Hmissing. apply includes_In in Hsource.
  unfold translate, bind, getAvailableLanguages. rewrite Hsource. cbn [negb].
  destruct (Obj.get serviceMap service); [|reflexivity].
  destruct Hmissing as [H|H]; [discriminate|]. now rewrite H.
Qed.

(** X14. A source directory without any [.json] file makes the run throw
    before the provider is initialised; the state is untouched. *)
Theorem source_without_json_files_throws (st : State P) (files : Dir)
    (translationService : TranslationService P Matcher) (theMatcher : Matcher) :
  Obj.get (disk st) sourceLang = Some files ->
  json_files files = [] ->
  Obj.get serviceMap service = Some translationService ->
  Obj.get matcherMap matcher = Some theMatcher ->
  translate serviceMap matcherMap sourceLang deleteUnusedStrings fileType
    fixInconsistencies service matcher config st
  = Thrown (NoJsonFiles sourceLang) st.
Proof.
  intros Hfiles Hjson Hsvc Hm.
  assert (Hsource : Obj.includes (Obj.keys (disk st)) sourceLang = true)
    by (apply includes_In; eapply get_key; exact Hfiles).
  unfold translate. unfold bind at 1. unfold getAvailableLanguages.
  rewrite Hsource, Hsvc, Hm. cbn [negb].
  unfold bind at 1. unfold loadTranslations, bind, readdirSync.
  rewrite Hfiles. unfold json_files in Hjson. rewrite Hjson. reflexivity.
Qed.

End Configuration.

Lemma missing_source_language_throws_witness :
  translate Samples.serviceMap Samples.matcherMap "es" true auto true
    "no-such-service" "icu" None (start Samples.up_to_date tt)
  = Thrown (SourceLanguageMissing "es") (start Samples.up_to_date tt).
Proof.
  apply (missing_source_language_throws Samples.serviceMap Samples.matcherMap "es"
           true auto true "no-such-service" "icu" None (start Samples.up_to_date tt)).
  cbn. intros [H|[H|[]]]; discriminate.
Defined.

Lemma unknown_service_or_matcher_throws_witness :
  translate Samples.serviceMap Samples.matcherMap "en" false auto false
    "google-translate" "sprintf" None (start Samples.up_to_date tt)
  = Thrown (MatcherMissing "sprintf") (start Samples.up_to_date tt).
Proof.
  apply (unknown_service_or_matcher_throws Samples.serviceMap Samples.matcherMap
           "en" false auto false "google-translate" "sprintf" None
           (start Samples.up_to_date tt)).
  - now left.
  - now right.
Defined.

Lemma source_without_json_files_throws_witness :
  translate Samples.serviceMap Samples.matcherMap "fr" false auto false
    "google-translate" "icu" None
    (start [("en", [("a.json", [])]); ("fr", [("notes.txt", [])])] tt)
  = Thrown (NoJsonFiles "fr")
      (start [("en", [("a.json", [])]); ("fr", [("notes.txt", [])])] tt).
Proof.
  apply (source_without_json_files_throws Samples.serviceMap Samples.matcherMap
           "fr" false auto false "google-translate" "icu" None
           (start [("en", [("a.json", [])]); ("fr", [("notes.txt", [])])] tt)
           [("notes.txt", [])] Samples.tagged tt); reflexivity.
Defined.

Section Gate.
Context {P : Type}.
Implicit Types (st : State P).

Lemma findInvalidFiles_names files st :
  exists events,
    findInvalidFiles files st
    = Returned
        (map name
           (filter
              (fun f => Nat.ltb 0 (List.length (invalidKeys (originalContentOf st f))))
              files))
        (with_trace st events).
Proof.
  revert st. induction files as [|f files IH]; intros st; cbn [findInvalidFiles].
  - exists []. unfold ret. now rewrite with_trace_nil.
  - unfold bind, get_state. cbn [filter].
    destruct (Nat.ltb 0 (List.length (invalidKeys (originalContentOf st f)))).
    + rewrite log_run.
      destruct (IH (with_trace st [EvInvalidKeys (name f)
                 (List.length (invalidKeys (originalContentOf st f)))]))
        as (events & ->).
      eexists. unfold ret. rewrite with_trace_app. reflexivity.
    + apply IH.
Qed.

(** X9. The invalid-key check ends the process with code 1 exactly when a
    key-based template file has, in the object its [originalContent]
    refers to, a string-valued top-level key that contains a dot;
    otherwise it returns.  Either way only messages are added to the
    state. *)
Theorem invalid_keys_end_the_run (templateFiles : list TranslationFile) st :
  (exists events,
      rejectInvalidKeys templateFiles st = Exited 1 (with_trace st events)
      \/ rejectInvalidKeys templateFiles st = Returned tt (with_trace st events))
  /\ ((exists st', rejectInvalidKeys templateFiles st = Exited 1 st')
      <-> exists file,
            In file templateFiles /\ type file = key_based
            /\ invalidKeys (originalContentOf st file) <> []).
Proof.
  unfold rejectInvalidKeys, bind.
  destruct (findInvalidFiles_names
              (filter (fun f => FileType_eqb (type f) key_based) templateFiles) st)
    as (events & ->).
  set (bad := filter _ (filter _ templateFiles)).
  assert (Hbad : (exists file, In file bad)
                 <-> exists file,
                      In file templateFiles /\ type file = key_based
                      /\ invalidKeys (originalContentOf st file) <> []).
  { unfold bad. split; intros (file & H); exists file.
    - apply filter_In in H as [H Hinv]. apply filter_In in H as [Hin Hty].
      split; [exact Hin|]. split; [now destruct (type file)|].
      intros E. rewrite E in Hinv. discriminate.
    - destruct H as (Hin & Hty & Hinv). apply filter_In. split.
      + apply filter_In. split; [exact Hin | now rewrite Hty].
      + destruct (invalidKeys (originalContentOf st file)); [congruence | reflexivity].
  }
  rewrite <- Hbad. clear Hbad.
  destruct bad as [|file bad]; cbn [map List.length Nat.ltb Nat.leb].
  - rewrite log_run, with_trace_app. split; [eauto|].
    split; [intros (st' & H); discriminate | intros (file & [])].
  - rewrite log_run, with_trace_app. unfold exit. split; [eauto|].
    split; [intros _; exists file; now left | eauto].
Qed.

End Gate.

(** ** The keys of the merged mapping, failures and loading *)

Section KeysOfMerge.
Context {V : Type}.
Implicit Types (o : list (string * V)) (k : string).

Lemma keys_spread o new k :
  In k (Obj.keys (Obj.spread o new)) <-> In k (Obj.keys o) \/ In k (Obj.keys new).
Proof.
  unfold Obj.spread. revert o.
  induction new as [|[k' v'] new IH]; intros o; cbn [fold_left fst snd].
  - cbn. tauto.
  - rewrite IH, keys_set_In. cbn. intuition congruence.
Qed.

Lemma keys_omit o ks k :
  In k (Obj.keys (Obj.omit o ks)) <-> In k (Obj.keys o) /\ ~ In k ks.
Proof.
  unfold Obj.omit, Obj.keys. rewrite !in_map_iff. split.
  - intros ([k' v] & <- & Hin). apply filter_In in Hin as [Hin Hks]. cbn in *.
    split; [exists (k', v); auto|].
    apply negb_true_iff in Hks. now apply includes_not_In in Hks.
  - intros [([k' v] & <- & Hin) Hks]. exists (k', v). split; [reflexivity|].
    apply filter_In. split; [exact Hin|]. cbn.
    apply negb_true_iff. now apply (includes_not_In ks k').
Qed.

End KeysOfMerge.

Lemma keys_newKeys (translatedStrings : list TranslationResult) (k : string) :
  In k (Obj.keys (newKeys translatedStrings))
  <-> In k (map result_key translatedStrings).
Proof.
  split; [apply newKeys_keys|]. unfold newKeys.
  generalize (@nil (string * json)) as acc.
  induction translatedStrings as [|r rs IH]; intros acc; [intros []|].
  cbn [map fold_left]. intros [<-|H]; [|now apply IH].
  clear IH. generalize (Obj.set acc (result_key r) (JStr (translated r)))
    (keys_set_In acc (result_key r) (result_key r) (JStr (translated r))).
  intros acc' Hacc'. assert (Hin : In (result_key r) (Obj.keys acc')) by (apply Hacc'; now left).
  clear Hacc'. revert acc' Hin.
  induction rs as [|r' rs IH]; intros acc' Hin; [exact Hin|].
  cbn [fold_left]. apply IH. apply keys_set_In. now right.
Qed.

(** X18. The keys of the mapping written for a file, when the provider
    answers for exactly the submitted keys: every template key is there;
    with the deletion flag nothing but template keys is there, and
    without it every key of the existing target is there too. *)
Theorem merged_keys (ty : FileType) (templateContent existing : obj)
    (deleteUnusedStrings : bool) (translatedStrings : list TranslationResult) :
  let T := Obj.keys templateContent in
  let E := Obj.keys existing in
  let todo := stringsToTranslate ty templateContent E in
  let merged :=
    translatedFile existing deleteUnusedStrings (unusedStrings T E)
      (newKeys translatedStrings) in
  (forall k, In k (map result_key translatedStrings) <-> In k (map key todo)) ->
  (forall k, In k T -> In k (Obj.keys merged))
  /\ (deleteUnusedStrings = true -> forall k, In k (Obj.keys merged) -> In k T)
  /\ (deleteUnusedStrings = false -> forall k, In k E -> In k (Obj.keys merged)).
Proof.
  intros T E todo merged Hanswer.
  assert (Hmerged : forall k,
             In k (Obj.keys merged)
             <-> (In k E /\ ~ In k (if deleteUnusedStrings
                                    then unusedStrings T E else []))
                 \/ (In k T /\ ~ In k E)).
  { intros k. unfold merged, translatedFile.
    rewrite keys_spread, keys_omit, keys_newKeys, Hanswer.
    unfold todo. now rewrite In_stringsToTranslate. }
  split; [|split].
  - intros k Hk. apply Hmerged.
    destruct (in_dec string_dec k E) as [HE|HE]; [left | now right].
    split; [exact HE|]. destruct deleteUnusedStrings; [|intros []].
    rewrite In_unusedStrings. tauto.
  - intros -> k Hk. apply Hmerged in Hk as [[HE Hu]|[HT _]]; [|exact HT].
    rewrite In_unusedStrings in Hu.
    destruct (in_dec string_dec k T); tauto.
  - intros -> k Hk. apply Hmerged. left. split; [exact Hk | intros []].
Qed.

Lemma merged_keys_witness :
  In "a.c"
    (Obj.keys
       (translatedFile [("a.b", JStr "x2"); ("old.key", JStr "z")] true
          (unusedStrings ["a.b"; "a.c"] ["a.b"; "old.key"])
          (newKeys [{| result_key := "a.c"; translated := "fr:y" |}])))
  /\ ~ In "old.key"
        (Obj.keys
           (translatedFile [("a.b", JStr "x2"); ("old.key", JStr "z")] true
              (unusedStrings ["a.b"; "a.c"] ["a.b"; "old.key"])
              (newKeys [{| result_key := "a.c"; translated := "fr:y" |}]))).
Proof.
  destruct (merged_keys key_based [("a.b", JStr "x"); ("a.c", JStr "y")]
              [("a.b", JStr "x2"); ("old.key", JStr "z")] true
              [{| result_key := "a.c"; translated := "fr:y" |}]) as (H & Hd & _).
  - intros k. vm_compute. tauto.
  - split.
    + apply H. vm_compute. tauto.
    + intros Hin. apply (Hd eq_refl) in Hin. vm_compute in Hin.
      destruct Hin as [E|[E|[]]]; discriminate E.
Defined.

Section Failure.
Context {P Matcher : Type}.
Variables (sourceLang : string) (deleteUnusedStrings : bool) (service : string).
Variable translationService : TranslationService P Matcher.
Variables (language : string) (existingFiles : list TranslationFile).
Variable templateFile : TranslationFile.

(** X19. When the provider rejects the batch of a file, the step for that
    file throws the provider's failure: it has printed the file and
    submitted the batch, and it has written nothing. *)
Theorem provider_failure_aborts_the_file (st : State P) (message : string) :
  fst (service_translateStrings translationService
         (stringsToTranslate (type templateFile) (contentOf st templateFile)
            (Obj.keys (existingTranslationsOf st existingFiles templateFile)))
         (JsString.pop (JsString.split sourceLang "-"))
         (JsString.pop (JsString.split language "-")) (provider st))
  = inl message ->
  exists st',
    translateFile sourceLang deleteUnusedStrings service translationService
      language existingFiles templateFile st
    = Thrown (ProviderFailure message) st'
    /\ disk st' = disk st
    /\ file_operations (trace st') = file_operations (trace st).
Proof.
  intros H. rewrite translateFile_run, H. eexists. split; [reflexivity|].
  split; [reflexivity|]. cbn [trace with_provider with_trace].
  unfold file_operations. rewrite !filter_app. cbn. now rewrite !app_nil_r.
Qed.

End Failure.

Lemma provider_failure_aborts_the_file_witness :
  exists st',
    translateFile "en" false "google-translate"
      {| service_name := "down";
         service_initialize := fun _ (_ : unit) (p : unit) => (inr tt, p);
         service_getAvailableLanguages := fun p => (inr ["en"; "fr"], p);
         service_translateStrings := fun _ _ _ p => (inl "quota exceeded", p) |}
      "fr" Scenario3.existingFiles Scenario3.templateFile (start Scenario3.files tt)
    = Thrown (ProviderFailure "quota exceeded") st'
    /\ disk st' = Scenario3.files
    /\ file_operations (trace st') = [].
Proof.
  apply (provider_failure_aborts_the_file "en" false "google-translate"
           {| service_name := "down";
              service_initialize := fun _ (_ : unit) (p : unit) => (inr tt, p);
              service_getAvailableLanguages := fun p => (inr ["en"; "fr"], p);
              service_translateStrings := fun _ _ _ p => (inl "quota exceeded", p) |}
           "fr" Scenario3.existingFiles Scenario3.templateFile
           (start Scenario3.files tt) "quota exceeded").
  reflexivity.
Defined.

Section LoadingFacts.
Context {P : Type}.

(** X10. Loading a directory never changes a file or the provider's state,
    prints nothing but the dumps of [arrayToString], and never ends the
    process, whatever the directory holds and whatever is cached. *)
Theorem loading_leaves_files_alone (directory : string) (fileType : FileType)
    (st : State P) :
  let r := loadTranslations directory fileType st in
  disk (final r) = disk st
  /\ provider (final r) = provider st
  /\ (exists events,
        trace (final r) = trace st ++ events /\ forallb is_dump events = true)
  /\ (forall code st', r <> Exited code st').
Proof.
  intros r.
  destruct (framed_loadTranslations true is_dump false directory fileType
              (fun _ => eq_refl) st) as [(Hd & Hp & Hev) Hexit].
  fold r in Hd, Hp, Hev, Hexit.
  split; [exact Hd|]. split; [now apply Hp|]. split; [exact Hev|].
  intros code st' E. rewrite E in Hexit. now apply Hexit.
Qed.

(** X11. Loading a directory with distinct file names, none of them cached
    yet, returns one record per [.json] file in the order of the
    directory; each record has the file's name, the type forced by the
    caller or detected from the document, and as content the flattened
    [arrayToString] of the document for a key-based file and the
    document itself otherwise. *)
Theorem loading_describes_every_json_file (directory : string)
    (fileType : FileType) (files : Dir) (st : State P) :
  Obj.get (disk st) directory = Some files ->
  NoDup (Obj.keys files) ->
  (forall f, read_file (cache st) directory f = None) ->
  exists recs st',
    loadTranslations directory fileType st = Returned recs st'
    /\ map name recs = json_files files
    /\ forall rec,
         In rec recs ->
         exists document,
           Obj.get files (name rec) = Some document
           /\ type rec = loaded_type fileType document
           /\ contentOf st' rec = loaded_content fileType document
           /\ originalContentOf st' rec = cached_object fileType document.
Proof.
  intros Hdir Hnd Hcache.
  destruct (loadTranslations_run st directory fileType files Hdir Hnd Hcache)
    as (recs & st' & Hrun & _ & _ & _ & _ & Hall).
  exists recs, st'. split; [exact Hrun|]. split.
  - clear Hrun. induction Hall as [|f rec names recs (c & _ & -> & _) _ IH];
      [reflexivity|]. cbn. now rewrite IH.
  - clear Hrun. induction Hall as [|f rec names recs Hrec _ IH]; [intros ? []|].
    intros rec' [<-|Hin]; [|now apply IH].
    destruct Hrec as (c & Hc & -> & Hcached). exists c.
    split; [exact Hc|]. split; [reflexivity|].
    split; [now apply contentOf_loaded_file|].
    unfold originalContentOf, cached. cbn. now rewrite Hcached.
Qed.

End LoadingFacts.

Lemma loading_describes_every_json_file_witness :
  exists recs st',
    loadTranslations "en" auto (start Samples.list_items tt) = Returned recs st'
    /\ map name recs = ["list.json"].
Proof.
  destruct (loading_describes_every_json_file "en" auto
              [("list.json", [("items", JArr [JStr "a"; JStr "b"])])]
              (start Samples.list_items tt))
    as (recs & st' & Hrun & Hnames & _).
  - reflexivity.
  - apply nodupb_NoDup. reflexivity.
  - reflexivity.
  - exists recs, st'. split; [exact Hrun | exact Hnames].
Defined.

(** ** A second run after a completed run, natural files *)

Section Removal.
Context {V : Type}.
Implicit Types (o : list (string * V)) (k : string).

Lemma keys_remove o k f :
  In f (Obj.keys (Obj.remove o k)) <-> In f (Obj.keys o) /\ f <> k.
Proof.
  unfold Obj.remove, Obj.keys. rewrite !in_map_iff. split.
  - intros ([k' v] & <- & Hin). apply filter_In in Hin as [Hin Hk]. cbn in *.
    split; [exists (k', v); auto|].
    apply negb_true_iff in Hk. intros ->. now rewrite String.eqb_refl in Hk.
  - intros [([k' v] & <- & Hin) Hk]. exists (k', v). split; [reflexivity|].
    apply filter_In. split; [exact Hin|]. cbn in *.
    apply negb_true_iff. apply String.eqb_neq. congruence.
Qed.

Lemma remove_keys_NoDup o k : NoDup (Obj.keys o) -> NoDup (Obj.keys (Obj.remove o k)).
Proof.
  induction o as [|[k0 v0] o IH]; cbn; intros Hnd; [constructor|].
  inversion Hnd as [|? ? Hk Ho]; subst.
  destruct (negb (String.eqb k k0)); cbn; [|now apply IH].
  constructor; [|now apply IH].
  intros Hin. apply Hk. apply (keys_remove o k k0) in Hin. tauto.
Qed.

End Removal.

Lemma In_merged (ty : FileType) (templateContent existing : obj)
    (deleteUnusedStrings : bool) (translatedStrings : list TranslationResult)
    (k : string) :
  let T := Obj.keys templateContent in
  let E := Obj.keys existing in
  (forall k, In k (map result_key translatedStrings)
             <-> In k (map key (stringsToTranslate ty templateContent E))) ->
  In k (Obj.keys (translatedFile existing deleteUnusedStrings (unusedStrings T E)
                    (newKeys translatedStrings)))
  <-> (In k E /\ ~ In k (if deleteUnusedStrings then unusedStrings T E else []))
      \/ (In k T /\ ~ In k E).
Proof.
  intros T E Hanswer. unfold translatedFile.
  rewrite keys_spread, keys_omit, keys_newKeys, Hanswer.
  now rewrite In_stringsToTranslate.
Qed.

Lemma merged_has_the_keys (ty : FileType) (templateContent existing : obj)
    (deleteUnusedStrings : bool) (translatedStrings : list TranslationResult) :
  let T := Obj.keys templateContent in
  let E := Obj.keys existing in
  (forall k, In k (map result_key translatedStrings)
             <-> In k (map key (stringsToTranslate ty templateContent E))) ->
  has_the_keys deleteUnusedStrings templateContent
    (translatedFile existing deleteUnusedStrings (unusedStrings T E)
       (newKeys translatedStrings)).
Proof.
  intros T E Hanswer.
  pose proof (fun k => In_merged ty templateContent existing deleteUnusedStrings
                         translatedStrings k Hanswer) as Hmerged.
  cbv zeta in Hmerged. fold T E in Hmerged. split.
  - intros k Hk. apply Hmerged.
    destruct (in_dec string_dec k E) as [HE|HE]; [left | now right].
    split; [exact HE|]. destruct deleteUnusedStrings; [|intros []].
    rewrite In_unusedStrings. tauto.
  - intros -> k Hk. apply Hmerged in Hk as [[HE Hu]|[HT _]]; [|exact HT].
    rewrite In_unusedStrings in Hu.
    destruct (in_dec string_dec k (Obj.keys templateContent)); tauto.
Qed.

Section FirstRun.
Context {P Matcher : Type}.
Variables (sourceLang : string) (deleteUnusedStrings : bool) (service : string).
Variable translationService : TranslationService P Matcher.
Hypothesis not_dry : String.eqb service "dryRun" = false.
Hypothesis answers_no_more : answers_submitted_keys translationService.
Hypothesis answers_no_less : answers_every_submitted_key translationService.
Variable source : Dir.

(** The step for one natural template file, when it returns: the target
    file now holds a document with the keys of the template. *)
Lemma translateFile_first (st st' : State P) language existingFiles n template :
  read_file (cache st) sourceLang n = Some (cached_object natural template) ->
  translateFile sourceLang deleteUnusedStrings service translationService
    language existingFiles (loaded_file sourceLang natural n template) st
  = Returned tt st' ->
  cache st' = cache st
  /\ exists files document,
       Obj.get (disk st) language = Some files
       /\ disk st' = store_file (disk st) language n document
       /\ has_the_keys deleteUnusedStrings template document.
Proof.
  intros Hcache Hrun. rewrite translateFile_run in Hrun.
  rewrite (contentOf_loaded_file st sourceLang natural n template Hcache) in Hrun.
  set (existing := existingTranslationsOf st existingFiles _) in Hrun.
  set (todo := stringsToTranslate _ _ _) in Hrun.
  destruct (fst (service_translateStrings translationService todo _ _ _))
    as [message|translatedStrings] eqn:Hanswer; [discriminate|].
  cbv zeta in Hrun. rewrite not_dry in Hrun.
  destruct (Obj.get (disk st) language) as [files|] eqn:Hdir; [|discriminate].
  injection Hrun as <-. split; [reflexivity|].
  exists files. eexists. split; [reflexivity|]. split; [reflexivity|].
  cbn [loaded_file type name emitted loaded_type FileType_eqb].
  apply (merged_has_the_keys natural).
  intros k. split.
  - intros Hk. apply in_map_iff in Hk as (r & <- & Hr).
    exact (answers_no_more _ _ _ _ _ Hanswer r Hr).
  - intros Hk. apply in_map_iff in Hk as (item & <- & Hitem).
    exact (answers_no_less _ _ _ _ _ Hanswer item Hitem).
Qed.

(** The loop over the template files, when it returns: every template
    file has its target file, the other files of the directory and the
    other directories are as they were. *)
Lemma translateFiles_first language existingFiles names templateFiles :
  NoDup names ->
  forall (st st' : State P) target,
    Obj.get (disk st) language = Some target ->
    NoDup (Obj.keys target) ->
    Forall2 (loaded_as st sourceLang natural source) names templateFiles ->
    forEach templateFiles
      (translateFile sourceLang deleteUnusedStrings service translationService
         language existingFiles) st = Returned tt st' ->
    cache st' = cache st
    /\ Obj.keys (disk st') = Obj.keys (disk st)
    /\ (forall d, d <> language -> Obj.get (disk st') d = Obj.get (disk st) d)
    /\ exists target',
         Obj.get (disk st') language = Some target'
         /\ NoDup (Obj.keys target')
         /\ (forall f, In f (Obj.keys target') -> In f (Obj.keys target) \/ In f names)
         /\ (forall f, ~ In f names -> Obj.get target' f = Obj.get target f)
         /\ (forall f template,
               In f names -> Obj.get source f = Some template ->
               exists document,
                 Obj.get target' f = Some document
                 /\ has_the_keys deleteUnusedStrings template document).
Proof.
  intros Hnd. revert templateFiles.
  induction Hnd as [|n names Hn Hnd IH]; intros templateFiles st st' target
    Hdir Htarget Hloaded Hrun.
  - inversion Hloaded; subst. cbn in Hrun. injection Hrun as <-.
    split; [reflexivity|]. split; [reflexivity|]. split; [reflexivity|].
    exists target. split; [exact Hdir|]. split; [exact Htarget|].
    split; [auto|]. split; [reflexivity|]. intros f template [].
  - destruct templateFiles as [|rec templateFiles]; [inversion Hloaded|].
    apply Forall2_cons_iff in Hloaded as [Hrec Hall].
    destruct Hrec as (template & Htemplate & -> & Hcache).
    cbn [forEach] in Hrun. unfold bind in Hrun.
    destruct (translateFile sourceLang deleteUnusedStrings service
                translationService language existingFiles
                (loaded_file sourceLang natural n template) st)
      as [[] st1|e st1|code st1] eqn:Hstep; try discriminate.
    destruct (translateFile_first st st1 language existingFiles n template
                Hcache Hstep) as (Hc1 & files & document & Hfiles & Hd1 & Hkeys).
    assert (files = target) as -> by congruence.
    assert (Hdir1 : Obj.get (disk st1) language = Some (Obj.set target n document)).
    { rewrite Hd1. unfold store_file. now rewrite get_set_same, Hdir. }
    destruct (IH templateFiles st1 st' (Obj.set target n document) Hdir1)
      as (Hc & Hk & Hother & target' & Hdir' & Hnd' & Hin' & Hrest & Hdone).
    + now apply set_keys_NoDup.
    + eapply all_loaded_as_cache; [|exact Hall]. intros f. now rewrite Hc1.
    + exact Hrun.
    + split; [congruence|]. split.
      { rewrite Hk, Hd1. unfold store_file. apply keys_set_present.
        eapply get_key. exact Hdir. }
      split.
      { intros d Hd. rewrite (Hother d Hd), Hd1. unfold store_file.
        now apply get_set_other. }
      exists target'. split; [exact Hdir'|]. split; [exact Hnd'|].
      split; [|split].
      * intros f Hf. destruct (Hin' f Hf) as [H|H]; [|right; now right].
        apply keys_set_In in H as [->|H]; [right; now left | now left].
      * intros f Hf. rewrite Hrest by (intros H; apply Hf; now right).
        apply get_set_other. intros ->. apply Hf. now left.
      * intros f template' [<-|Hf] Htemplate'.
        -- assert (template' = template) as -> by congruence.
           exists document. split; [|exact Hkeys].
           rewrite (Hrest n Hn). apply get_set_same.
        -- now apply Hdone.
Qed.


Lemma has_the_keys_settled template document :
  has_the_keys deleteUnusedStrings template document ->
  file_settled natural deleteUnusedStrings template document.
Proof.
  intros [Hkeys Hunused].
  unfold file_settled, loaded_content, loaded_type. cbn [FileType_eqb emitted].
  split; [now apply forallb_includes_incl|].
  split; [|reflexivity].
  intros Hflag. apply forallb_includes_incl. now apply Hunused.
Qed.

(** The loop that unlinks the files no template file stands for. *)
Lemma unlink_all_run language (files : list TranslationFile) : forall st : State P,
  exists events,
    forEach files
      (fun file =>
         bind (log (EvNoLongerUsed (name file)))
           (fun _ => unlinkSync language (name file))) st
    = Returned tt
        {| disk := fold_left (fun fs file => delete_file fs language (name file))
                     files (disk st);
           cache := cache st; provider := provider st;
           trace := trace st ++ events |}.
Proof.
  induction files as [|file files IH]; intros st.
  - exists []. cbn. unfold ret. rewrite app_nil_r. now destruct st.
  - cbn [forEach fold_left]. unfold bind at 1. unfold bind at 1.
    rewrite log_run. unfold unlinkSync at 1. cbn [disk cache provider trace with_trace].
    match goal with
    | |- context [forEach files ?body ?s] => destruct (IH s) as (events & ->)
    end.
    cbn [disk cache provider trace]. eexists. rewrite <- !app_assoc. reflexivity.
Qed.

Lemma delete_all_dir language (files : list TranslationFile) :
  forall (fs : FS) (target : Dir),
    Obj.get fs language = Some target ->
    NoDup (Obj.keys target) ->
    let fs' := fold_left (fun fs file => delete_file fs language (name file)) files fs in
    Obj.keys fs' = Obj.keys fs
    /\ (forall d, d <> language -> Obj.get fs' d = Obj.get fs d)
    /\ exists target',
         Obj.get fs' language = Some target'
         /\ NoDup (Obj.keys target')
         /\ forall f, In f (Obj.keys target')
                      <-> In f (Obj.keys target) /\ ~ In f (map name files).
Proof.
  induction files as [|file files IH]; intros fs target Hdir Hnd; cbn [fold_left].
  - split; [reflexivity|]. split; [reflexivity|].
    exists target. split; [exact Hdir|]. split; [exact Hnd|].
    intros f. cbn. tauto.
  - assert (Hstep : delete_file fs language (name file)
                    = Obj.set fs language (Obj.remove target (name file)))
      by (unfold delete_file; now rewrite Hdir).
    destruct (IH (delete_file fs language (name file))
                (Obj.remove target (name file)))
      as (Hk & Hother & target' & Hdir' & Hnd' & Hin').
    + rewrite Hstep. apply get_set_same.
    + now apply remove_keys_NoDup.
    + cbv zeta in *. split.
      { rewrite Hk, Hstep. apply keys_set_present. eapply get_key. exact Hdir. }
      split.
      { intros d Hd. rewrite (Hother d Hd), Hstep. now apply get_set_other. }
      exists target'. split; [exact Hdir'|]. split; [exact Hnd'|].
      intros f. rewrite Hin', keys_remove. cbn [map In]. intuition congruence.
Qed.

(** One target language, when its pass returns: its directory is up to
    date if the provider lists it, and the other directories are as
    they were. *)
Lemma translateLanguage_first available templateFiles language target
    (st st' : State P) :
  Obj.get (disk st) language = Some target ->
  NoDup (Obj.keys target) ->
  NoDup (Obj.keys source) ->
  language <> sourceLang ->
  (forall f, read_file (cache st) language f = None) ->
  Forall2 (loaded_as st sourceLang natural source) (json_files source) templateFiles ->
  translateLanguage sourceLang deleteUnusedStrings natural service
    translationService available templateFiles language st = Returned tt st' ->
  Obj.keys (disk st') = Obj.keys (disk st)
  /\ (forall d, d <> language -> Obj.get (disk st') d = Obj.get (disk st) d)
  /\ (forall d f, d <> language ->
                  read_file (cache st') d f = read_file (cache st) d f)
  /\ exists target',
       Obj.get (disk st') language = Some target'
       /\ NoDup (Obj.keys target')
       /\ (In language available ->
           directory_settled natural deleteUnusedStrings source target').
Proof.
  intros Hdir Hnd Hsrc Hneq Hcache Htemplates Hrun.
  unfold translateLanguage in Hrun.
  destruct (Obj.includes available language) eqn:Hav; cbn [negb] in Hrun.
  2:{ rewrite log_run in Hrun. injection Hrun as <-. cbn [disk cache with_trace].
      split; [reflexivity|]. split; [reflexivity|]. split; [reflexivity|].
      exists target. split; [exact Hdir|]. split; [exact Hnd|].
      intros Hin. apply includes_In in Hin. congruence. }
  destruct (loadTranslations_run st language natural target Hdir Hnd Hcache)
    as (recs & sta & Hload & Hda & Hpa & _ & Hca & Hrecs).
  unfold bind at 1 in Hrun. rewrite Hload in Hrun.
  unfold bind at 1 in Hrun. rewrite log_run in Hrun.
  set (stb := with_trace sta [EvTranslating sourceLang language]) in Hrun.
  unfold bind at 1 in Hrun.
  set (deletable :=
         filter (fun f => negb (Obj.includes (map name templateFiles) (name f)))
           recs) in Hrun.
  assert (Hdelete :
            exists stc target_c,
              (if deleteUnusedStrings
               then forEach deletable
                      (fun file =>
                         bind (log (EvNoLongerUsed (name file)))
                           (fun _ => unlinkSync language (name file)))
               else ret tt) stb = Returned tt stc
              /\ cache stc = cache sta
              /\ Obj.keys (disk stc) = Obj.keys (disk st)
              /\ (forall d, d <> language -> Obj.get (disk stc) d = Obj.get (disk st) d)
              /\ Obj.get (disk stc) language = Some target_c
              /\ NoDup (Obj.keys target_c)
              /\ (deleteUnusedStrings = true ->
                  forall f, In f (json_files target_c) -> In f (json_files source))).
  { destruct deleteUnusedStrings eqn:Hflag.
    - destruct (unlink_all_run language deletable stb) as (events & Hunlink).
      destruct (delete_all_dir language deletable (disk stb) target)
        as (Hk & Hother & target_c & Hdc & Hndc & Hinc).
      + unfold stb; cbn [disk with_trace]. now rewrite Hda.
      + exact Hnd.
      + cbv zeta in *. eexists. exists target_c. split; [exact Hunlink|].
        cbn [disk cache]. split; [reflexivity|].
        split; [rewrite Hk; unfold stb; cbn [disk with_trace]; now rewrite Hda|].
        split; [intros d Hd; rewrite (Hother d Hd); unfold stb; cbn [disk with_trace];
                now rewrite Hda|].
        split; [exact Hdc|]. split; [exact Hndc|].
        intros _ f Hf. apply filter_In in Hf as [Hf Hjson].
        apply Hinc in Hf as [Hf Hkept].
        assert (Hfj : In f (json_files target))
          by (apply filter_In; split; assumption).
        rewrite <- (loaded_names natural sta language target _ _ Hrecs) in Hfj.
        apply in_map_iff in Hfj as (rec & <- & Hrec).
        rewrite <- (loaded_names natural st sourceLang source _ _ Htemplates).
        apply includes_In.
        destruct (Obj.includes (map name templateFiles) (name rec)) eqn:E;
          [reflexivity|].
        exfalso. apply Hkept. apply in_map. apply filter_In.
        split; [exact Hrec|]. now rewrite E.
    - exists stb, target. split; [reflexivity|]. unfold stb; cbn [disk cache with_trace].
      split; [reflexivity|]. split; [now rewrite Hda|].
      split; [intros d _; now rewrite Hda|]. split; [now rewrite Hda|].
      split; [exact Hnd | discriminate]. }
  destruct Hdelete as (stc & target_c & Hdel & Hcc & Hkc & Hoc & Hdc & Hndc & Hjc).
  rewrite Hdel in Hrun.
  unfold bind at 1 in Hrun.
  destruct (forEach templateFiles _ stc) as [[] std|e std|code std] eqn:Hloop;
    try discriminate.
  rewrite log_run in Hrun. injection Hrun as <-. cbn [disk cache with_trace].
  assert (Hsource_cache : forall f, read_file (cache stc) sourceLang f
                                    = read_file (cache st) sourceLang f).
  { intros f. rewrite Hcc. apply Hca. now apply not_eq_sym. }
  destruct (translateFiles_first language recs (json_files source) templateFiles
              (NoDup_filter_keys _ _ Hsrc) stc std target_c Hdc Hndc
              (all_loaded_as_cache st stc sourceLang natural source _ _
                 Hsource_cache Htemplates) Hloop)
    as (Hcd & Hkd & Hod & target' & Hdd & Hndd & Hind & Hrest & Hdone).
  split; [congruence|].
  split; [intros d Hd; rewrite (Hod d Hd); now apply Hoc|].
  split; [intros d f Hd; rewrite Hcd, Hcc; now apply Hca|].
  exists target'. split; [exact Hdd|]. split; [exact Hndd|].
  intros _. split; [exact Hndd|]. split.
  - intros f template Hf Htemplate.
    destruct (Hdone f template Hf Htemplate) as (document & Hdoc & Hkeys).
    exists document. split; [exact Hdoc|]. now apply has_the_keys_settled.
  - intros Hflag f Hf. apply filter_In in Hf as [Hf Hjson].
    destruct (Hind f Hf) as [H|H]; [|exact H].
    apply (Hjc Hflag). apply filter_In. split; assumption.
Qed.

(** The loop over the target languages, when it returns. *)
Lemma translateLanguages_first available templateFiles languages :
  NoDup languages ->
  NoDup (Obj.keys source) ->
  forall st st' : State P,
    (forall language,
        In language languages ->
        language <> sourceLang
        /\ exists target,
             Obj.get (disk st) language = Some target /\ NoDup (Obj.keys target)) ->
    (forall language f, In language languages ->
                        read_file (cache st) language f = None) ->
    Forall2 (loaded_as st sourceLang natural source) (json_files source) templateFiles ->
    forEach languages
      (translateLanguage sourceLang deleteUnusedStrings natural service
         translationService available templateFiles) st = Returned tt st' ->
    Obj.keys (disk st') = Obj.keys (disk st)
    /\ (forall d, ~ In d languages -> Obj.get (disk st') d = Obj.get (disk st) d)
    /\ (forall language target',
          In language languages -> In language available ->
          Obj.get (disk st') language = Some target' ->
          directory_settled natural deleteUnusedStrings source target').
Proof.
  intros Hnd Hsrc.
  induction Hnd as [|language languages Hfresh Hnd IH];
    intros st st' Hdirs Hcache Htemplates Hrun.
  - cbn in Hrun. injection Hrun as <-.
    split; [reflexivity|]. split; [reflexivity|]. intros ? ? [].
  - cbn [forEach] in Hrun. unfold bind in Hrun.
    destruct (translateLanguage sourceLang deleteUnusedStrings natural service
                translationService available templateFiles language st)
      as [[] st1|e st1|code st1] eqn:Hstep; try discriminate.
    destruct (Hdirs language (or_introl eq_refl)) as (Hneq & target & Hdir & Htarget).
    destruct (translateLanguage_first available templateFiles language target st st1
                Hdir Htarget Hsrc Hneq
                (fun f => Hcache language f (or_introl eq_refl)) Htemplates Hstep)
      as (Hk1 & Ho1 & Hc1 & target1 & Hd1 & Hnd1 & Hsettled).
    destruct (IH st1 st') as (Hk & Ho & Hall).
    + intros l Hl. destruct (Hdirs l (or_intror Hl)) as (Hl1 & t & Ht & Hndt).
      split; [exact Hl1|]. exists t. split; [|exact Hndt].
      rewrite Ho1; [exact Ht|]. intros ->. contradiction.
    + intros l f Hl. rewrite Hc1; [apply Hcache; now right|].
      intros ->. contradiction.
    + eapply all_loaded_as_cache; [|exact Htemplates].
      intros f. apply Hc1. now apply not_eq_sym.
    + exact Hrun.
    + split; [congruence|]. split.
      { intros d Hd. rewrite Ho by (intros H; apply Hd; now right).
        apply Ho1. intros ->. apply Hd. now left. }
      intros l target' [<-|Hl] Hav Hget.
      * rewrite (Ho language Hfresh), Hd1 in Hget. injection Hget as <-.
        now apply Hsettled.
      * now apply (Hall l target' Hl Hav).
Qed.

End FirstRun.

Section SecondRun.
Context {P Matcher : Type}.
Variable serviceMap : list (string * TranslationService P Matcher).
Variable matcherMap : list (string * Matcher).
Variables (sourceLang : string) (deleteUnusedStrings : bool).
Variables (service matcher : string) (config : option string).
Variable translationService : TranslationService P Matcher.
Hypothesis the_service : Obj.get serviceMap service = Some translationService.
Hypothesis not_dry : String.eqb service "dryRun" = false.
Hypothesis answers_no_more : answers_submitted_keys translationService.
Hypothesis answers_no_less : answers_every_submitted_key translationService.

(** A run on natural files that returns leaves the source directory as
    it was and every directory of a language the provider listed up to
    date. *)
Lemma first_run_settles (st0 st1 : State P) (source : Dir) :
  cache st0 = [] ->
  NoDup (Obj.keys (disk st0)) ->
  (forall d files, Obj.get (disk st0) d = Some files -> NoDup (Obj.keys files)) ->
  Obj.get (disk st0) sourceLang = Some source ->
  translate serviceMap matcherMap sourceLang deleteUnusedStrings natural false
    service matcher config st0 = Returned tt st1 ->
  Obj.keys (disk st1) = Obj.keys (disk st0)
  /\ Obj.get (disk st1) sourceLang = Some source
  /\ exists p available,
       fst (service_getAvailableLanguages translationService p) = inr available
       /\ forall language target,
            In language available -> language <> sourceLang ->
            Obj.get (disk st1) language = Some target ->
            directory_settled natural deleteUnusedStrings source target.
Proof.
  intros Hcache Hdirs Hfiles Hsource Hrun.
  assert (Hsrc : NoDup (Obj.keys source)) by (eapply Hfiles; exact Hsource).
  unfold translate in Hrun. unfold bind at 1 in Hrun.
  unfold getAvailableLanguages in Hrun.
  destruct (negb (Obj.includes (Obj.keys (disk st0)) sourceLang)); [discriminate|].
  rewrite the_service in Hrun.
  destruct (Obj.get matcherMap matcher) as [theMatcher|]; [|discriminate].
  unfold bind at 1 in Hrun.
  destruct (loadTranslations_run st0 sourceLang natural source Hsource Hsrc)
    as (templateFiles & sta & Hload & Hda & Hpa & _ & Hca & Hall).
  { intros f. rewrite Hcache. apply read_file_empty. }
  rewrite Hload in Hrun.
  destruct (Nat.eqb (List.length templateFiles) 0); [discriminate|].
  unfold bind at 1 in Hrun. rewrite log_run in Hrun.
  unfold bind at 1 in Hrun. rewrite forEach_log, with_trace_app in Hrun.
  unfold bind at 1 in Hrun. rewrite log_run, with_trace_app in Hrun.
  unfold bind at 1 in Hrun. unfold call at 1 in Hrun.
  cbn [provider with_trace disk cache trace] in Hrun.
  destruct (fst (service_initialize translationService config theMatcher
                   (provider sta))) as [message|[]]; [discriminate|].
  unfold bind at 1 in Hrun. unfold call at 1 in Hrun.
  cbn [provider disk cache trace] in Hrun.
  set (p1 := snd (service_initialize translationService config theMatcher
                    (provider sta))) in Hrun.
  destruct (fst (service_getAvailableLanguages translationService p1))
    as [message|available] eqn:Havailable; [discriminate|].
  unfold bind at 1 in Hrun. rewrite log_run in Hrun.
  set (st5 := with_trace _ _) in Hrun.
  assert (Hd5 : disk st5 = disk st0) by exact Hda.
  assert (Hc5 : cache st5 = cache sta) by reflexivity.
  destruct (negb (Obj.includes available sourceLang)); [discriminate|].
  unfold bind at 1 in Hrun.
  destruct (reportInconsistencies_run sourceLang templateFiles st5)
    as (events6 & Hreport & _).
  rewrite Hreport in Hrun.
  unfold bind at 1 in Hrun.
  destruct (rejectInvalidKeys_run templateFiles (with_trace st5 events6))
    as (events7 & [Hreject | Hreject] & _); rewrite Hreject in Hrun;
    [|discriminate].
  set (st7 := with_trace (with_trace st5 events6) events7) in Hrun.
  assert (Hd7 : disk st7 = disk st0) by exact Hda.
  assert (Hc7 : cache st7 = cache sta) by reflexivity.
  unfold bind in Hrun.
  set (languages := filter (fun f => negb (String.eqb f sourceLang))
                      (Obj.keys (disk st0))) in Hrun.
  destruct (forEach languages _ st7) as [[] st8|e st8|code st8] eqn:Hloop;
    try discriminate.
  rewrite log_run in Hrun. injection Hrun as <-. cbn [disk with_trace].
  assert (Hlanguages : forall language,
             In language languages <->
             In language (Obj.keys (disk st0)) /\ language <> sourceLang).
  { intros language. unfold languages.
    rewrite filter_In, negb_true_iff, String.eqb_neq. tauto. }
  destruct (translateLanguages_first sourceLang deleteUnusedStrings service
              translationService not_dry answers_no_more answers_no_less source
              available templateFiles languages
              (NoDup_filter_keys _ _ Hdirs) Hsrc st7 st8)
    as (Hk & Ho & Hsettled).
  - intros language Hl. apply Hlanguages in Hl as [Hin Hneq].
    split; [exact Hneq|]. rewrite Hd7.
    destruct (Obj.get (disk st0) language) as [target|] eqn:Hget;
      [|apply get_None in Hget; contradiction].
    exists target. split; [reflexivity|]. eapply Hfiles. exact Hget.
  - intros language f Hl. apply Hlanguages in Hl as [_ Hneq].
    rewrite Hc7, Hca by exact Hneq. rewrite Hcache. apply read_file_empty.
  - eapply all_loaded_as_cache; [|exact Hall]. intros f. now rewrite Hc7.
  - exact Hloop.
  - split; [now rewrite Hk, Hd7|]. split.
    { rewrite Ho, Hd7; [exact Hsource|]. intros Hl. apply Hlanguages in Hl. tauto. }
    exists p1, available. split; [exact Havailable|].
    intros language target Hav Hneq Hget.
    apply (Hsettled language target); [|exact Hav | exact Hget].
    apply Hlanguages. split; [|exact Hneq].
    rewrite <- Hd7, <- Hk. eapply get_key. exact Hget.
Qed.

Hypothesis same_languages : lists_the_same_languages translationService.


End SecondRun.

Lemma sample_service_answers_all label render :
  answers_every_submitted_key (Samples.service label render).
Proof.
  intros items source target p answer Hanswer item Hitem.
  cbn in Hanswer. injection Hanswer as <-.
  rewrite map_map. cbn. apply in_map_iff. now exists item.
Qed.


